(** * Powercycle: the crash-recovery orchestration engine

    A shallow embedding of [buildscripts/resmokelib/powercycle/powercycle.py]
    and the properties of its process killing, service control, remote
    operation handler and main loop.

    Python code that talks to its collaborators (psutil, the OS, win32
    services, pymongo, the remote shell, the logger, the clock) is embedded as
    a program tree [prog]: every call to a collaborator is a node [Vis], the
    answer of the collaborator is chosen by a handler, and [run] returns the
    sequence of calls that were made together with the final state and the
    result.  Theorems quantify over every handler, so they hold whatever the
    collaborators answer. *)

From Stdlib Require Import ZArith String List Ascii Lia Bool.
From Stdlib Require Import Decimal DecimalString.
From stdpp Require Import base option strings gmap.

Import ListNotations.
Local Open Scope string_scope.
Local Open Scope list_scope.
Local Open Scope Z_scope.

(** ** Python values used by the embedding *)

(** Exceptions the embedded code raises itself, or lets through. *)
Inductive py_exn : Type :=
| Exception (msg : string)
| ValueError (msg : string)
| TypeError (msg : string)
| IndexError (msg : string)
| UnboundLocalError (name : string)
| AutoReconnect (msg : string)
| OperationFailure (code : Z)
| SystemExit (code : Z).

(** Levels of the [LOGGER] calls. *)
Inductive log_level : Type := DEBUG | INFO | WARNING | ERROR.

(** Arguments of a %-style log call. *)
Inductive log_arg : Type :=
| AInt (n : Z)
| AStr (s : string)
| AList (l : list Z).

(** A [psutil.Process] handle: the pid, and the creation time that psutil
    caches when the handle is made ([psutil.Popen] in [start_cmd]). *)
Record proc : Type := Proc { pid : Z; create_time : Z }.

(** Answer of a psutil call that the source wraps in
    [try ... except psutil.NoSuchProcess]. *)
Inductive psutil (A : Type) : Type :=
| Found (a : A)
| NoSuchProcess.
Arguments Found {A} a.
Arguments NoSuchProcess {A}.

(** Answer of a win32 call that the source wraps in
    [try ... except pywintypes.error as err]: the error carries
    [err.winerror], [err.args[1]] and [err.args[2]]. *)
Inductive win32 (A : Type) : Type :=
| WinOk (a : A)
| WinError (winerror : Z) (funcname strerror : string).
Arguments WinOk {A} a.
Arguments WinError {A} winerror funcname strerror.

(** A [pymongo.MongoClient]; making one does not connect. *)
Record mongo : Type := Mongo { mongo_host : string; mongo_port : Z }.

(** Answer of [mongo.admin.command(...)]: the [ok] field of the reply and its
    text, or one of the two exceptions the source catches somewhere. *)
Inductive mongo_reply : Type :=
| Reply (ok : Z) (text : string)
| ReplyAutoReconnect
| ReplyOperationFailure (code : Z).

(** A [LocalToRemoteOperations] object: the probe of the remote host is made
    when the object is, and its outcome is kept in the object. *)
Record local_ops : Type := LocalOps {
  user_host : string;
  access_established : bool;
  access_info : Z * string
}.

(** Documents of the canary collection. *)
Inductive doc_value : Type :=
| DFloat (t : Z)
| DObjectId (n : Z).

#[global] Instance doc_value_eq_dec : EqDecision doc_value.
Proof. solve_decision. Defined.

Definition document : Type := gmap string doc_value.

(** Values of the test data given to resmoke. *)
Inductive test_value : Type :=
| TBool (b : bool)
| TStr (s : string)
| TList (l : list string)
| TDoc (d : list (string * string)).

#[global] Instance proc_eq_dec : EqDecision proc.
Proof. solve_decision. Defined.

(** ** Calls to collaborators *)

Variant call : Type -> Type :=
(* logging *)
| Log (lvl : log_level) (fmt : string) (args : list log_arg) : call unit
(* psutil *)
| ProcChildren (p : proc) (recursive : bool) : call (psutil (list proc))
| ProcName (p : proc) : call (psutil string)
| ProcKill (p : proc) : call (psutil unit)
| ProcWait (p : proc) : call Z
| WaitProcs (ps : list proc) (timeout : Z) : call (list proc * list proc)
(* os, time: [OsStatSize] answers [None] when [os.stat] raises OSError, and
   [OsRemove] answers [false] when [os.remove] raises IOError or OSError *)
| OsPathExists (path : string) : call bool
| OsStatSize (path : string) : call (option Z)
| OsPathIsdir (path : string) : call bool
| OsMakedirs (path : string) : call unit
| OsRename (src dst : string) : call unit
| OsRemove (path : string) : call bool
| TimeTime : call Z
| TimeSleep (secs : Z) : call unit
| RandomRandint (a b : Z) : call Z
(* win32serviceutil *)
| QueryServiceStatus (name : string) : call (win32 Z)
| StopService (name : string) : call (win32 unit)
(* helpers of the agent that are used through their result only *)
| AbsPath (path : string) : call string
| PrintUptime : call unit
| NewMongodControl (bin_dir db_path log_path : string) (port : Z) (options : string) : call unit
| InternalCrash : call (Z * string)
| KillMongod : call (Z * string)
| MongodInstall (root_dir tarball_url : string) : call (Z * string)
| MongodUpdate : call (Z * string)
| MongodStart : call (Z * string)
| MongodStop (timeout : Z) : call (Z * string)
| MongodStatus : call string
| MongodGetPids : call (list Z)
| ChmodWFile (path : string) : call unit
| SetWindowsBootstatuspolicy : call (Z * string)
| AdminCommand (m : mongo) (name arg : string) : call mongo_reply
| MongoReconfigReplication (m : mongo) (host_port repl_set : string) : call Z
| WaitForMongodShutdown : call Z
| Rsync (src_dir dest_dir : string) (exclude_files : list string) : call (Z * string)
| MongoSeedDocs (m : mongo) (db_name coll_name : string) (num_docs : Z) : call Z
| DiskPartitions : call (list (string * string))
| ExecuteCmd (cmd : string) (use_file : bool) : call (Z * string)
(* the controller: remote shell, spawned commands, pymongo, temporary files;
   [InsertOne] answers the document as the driver leaves it (an [_id] is
   added to the dict it is given) and whether there is an [inserted_id] *)
| LocalToRemoteOperations (user_host ssh_connection_options ssh_options : string)
    : call local_ops
| Shell (lo : local_ops) (cmds : string) : call (Z * string)
| SshError (lo : local_ops) (output : string) : call bool
| StartCmd (cmd : string) (use_file : bool) : call proc
| FindOne (m : mongo) (db_name coll_name : string) (doc : document) : call bool
| InsertOne (m : mongo) (db_name coll_name : string) (doc : document)
    : call (document * bool)
| NamedTemporaryFile (suffix directory : string) : call string
| NewResmokeConfig (config_file new_config_file : string)
    (test_data : gmap string test_value) (eval_str : string) : call unit.

(** One performed call with the answer it got. *)
Record event : Type := Ev { ev_type : Type; ev_call : call ev_type; ev_answer : ev_type }.
Arguments Ev {ev_type} ev_call ev_answer.

(** ** Programs: state, exceptions and calls *)

Inductive prog (S A : Type) : Type :=
| Ret (a : A)
| Raise (e : py_exn)
| Spin
| Get (k : S -> prog S A)
| Put (s : S) (k : prog S A)
| Vis {X : Type} (c : call X) (k : X -> prog S A).
Arguments Ret {S A} a.
Arguments Raise {S A} e.
Arguments Spin {S A}.
Arguments Get {S A} k.
Arguments Put {S A} s k.
Arguments Vis {S A X} c k.

Fixpoint bind {S A B : Type} (p : prog S A) (f : A -> prog S B) : prog S B :=
  match p with
  | Ret a => f a
  | Raise e => Raise e
  | Spin => Spin
  | Get k => Get (fun s => bind (k s) f)
  | Put s k => Put s (bind k f)
  | Vis c k => Vis c (fun x => bind (k x) f)
  end.

#[global] Instance prog_ret {S} : MRet (prog S) := fun _ a => Ret a.
#[global] Instance prog_bind {S} : MBind (prog S) := fun _ _ f p => bind p f.

Definition trigger {S X} (c : call X) : prog S X := Vis c Ret.
Definition get {S} : prog S S := Get Ret.
Definition put {S} (s : S) : prog S unit := Put s (Ret tt).
Definition modify {S} (f : S -> S) : prog S unit := Get (fun s => Put (f s) (Ret tt)).
Definition log {S} (lvl : log_level) (fmt : string) (args : list log_arg) : prog S unit :=
  trigger (Log lvl fmt args).

(** [for x in l: body x] *)
Fixpoint for_each {S A} (l : list A) (body : A -> prog S unit) : prog S unit :=
  match l with
  | [] => Ret tt
  | x :: l' => body x ;; for_each l' body
  end.

(** How a program ends: it returns, raises, or its loop outlives the fuel
    given to it ([Spin]). *)
Inductive result (A : Type) : Type :=
| Ok (a : A)
| Raised (e : py_exn)
| OutOfFuel.
Arguments Ok {A} a.
Arguments Raised {A} e.
Arguments OutOfFuel {A}.

(** A handler answers every call, threading a world of its own. *)
Definition handler (W : Type) : Type := forall X, call X -> W -> W * X.

Record outcome (W S A : Type) : Type :=
  Outcome { trace : list event; world : W; final : S; res : result A }.
Arguments Outcome {W S A} trace world final res.
Arguments trace {W S A} o.
Arguments world {W S A} o.
Arguments final {W S A} o.
Arguments res {W S A} o.

Definition cons_event {W S A} (e : event) (o : outcome W S A) : outcome W S A :=
  Outcome (e :: trace o) (world o) (final o) (res o).

Fixpoint run {W S A} (h : handler W) (p : prog S A) (s : S) (w : W) : outcome W S A :=
  match p with
  | Ret a => Outcome [] w s (Ok a)
  | Raise e => Outcome [] w s (Raised e)
  | Spin => Outcome [] w s OutOfFuel
  | Get k => run h (k s) s w
  | Put s' k => run h k s' w
  | Vis c k => let '(w', x) := h _ c w in cons_event (Ev c x) (run h (k x) s w')
  end.

(** ** Killing processes *)

(** [kill_process(parent, kill_children=True)] *)
Definition kill_process {S} (parent : proc) (kill_children : bool) : prog S Z :=
  r ← (if kill_children then trigger (ProcChildren parent true) else Ret (Found []));
  match r with
  | NoSuchProcess =>
      log WARNING "Could not kill process %d, as it no longer exists" [AInt (pid parent)];;
      Ret 0
  | Found procs =>
      let procs := procs ++ [parent] in
      for_each procs (fun p =>
        n ← trigger (ProcName p);
        match n with
        | NoSuchProcess =>
            log WARNING "Could not kill process %d, as it no longer exists" [AInt (pid p)]
        | Found name =>
            log DEBUG "Killing process '%s' pid %d" [AStr name; AInt (pid p)];;
            k ← trigger (ProcKill p);
            match k with
            | NoSuchProcess =>
                log WARNING "Could not kill process %d, as it no longer exists" [AInt (pid p)]
            | Found _ => Ret tt
            end
        end);;
      '(_, alive) ← trigger (WaitProcs procs 30);
      for_each alive (fun p => log ERROR "Process %d still alive!" [AInt (pid p)]);;
      Ret 0
  end.

(** [kill_processes(procs, kill_children=True)] *)
Definition kill_processes {S} (procs : list proc) (kill_children : bool) : prog S unit :=
  for_each procs (fun p =>
    log DEBUG "Starting kill of parent process %d" [AInt (pid p)];;
    _ ← kill_process p kill_children;
    ret ← trigger (ProcWait p);
    log DEBUG "Finished kill of parent process %d has return code of %d" [AInt (pid p); AInt ret]).

(** ** Service control *)

(** The fields of a [WindowsService] or [PosixService] object.  [db_path] is
    [None] for the service object that [MongodControl.install] makes. *)
Record service : Type := Service {
  svc_name : string;
  bin_name : string;
  bin_path : string;
  bin_options : string;
  db_path : option string;
  pids : list Z
}.

Definition set_pids (l : list Z) (self : service) : service :=
  Service (svc_name self) (bin_name self) (bin_path self) (bin_options self)
    (db_path self) l.

Module WindowsService.

(** Values of the [win32service] state constants. *)
Definition SERVICE_STOPPED : Z := 1.
Definition SERVICE_START_PENDING : Z := 2.
Definition SERVICE_STOP_PENDING : Z := 3.
Definition SERVICE_RUNNING : Z := 4.
Definition SERVICE_CONTINUE_PENDING : Z := 5.
Definition SERVICE_PAUSE_PENDING : Z := 6.
Definition SERVICE_PAUSED : Z := 7.

(** [winerror.ERROR_BROKEN_PIPE] *)
Definition ERROR_BROKEN_PIPE : Z := 109.

(** [self._states], as an association list in the order of the source. *)
Definition _states : list (Z * string) :=
  [ (SERVICE_CONTINUE_PENDING, "continue pending");
    (SERVICE_PAUSE_PENDING, "pause pending");
    (SERVICE_PAUSED, "paused");
    (SERVICE_RUNNING, "running");
    (SERVICE_START_PENDING, "start pending");
    (SERVICE_STOPPED, "stopped");
    (SERVICE_STOP_PENDING, "stop pending") ].

Definition states_lookup (svc_state : Z) : option string :=
  snd <$> find (fun kv => fst kv =? svc_state) _states.

(** [status in self._states.values()] *)
Definition in_states_values (status : string) : bool :=
  existsb (fun kv => String.eqb status (snd kv)) _states.

(** [WindowsService.status(self)] *)
Definition status : prog service string :=
  self ← get;
  r ← trigger (QueryServiceStatus (svc_name self));
  match r with
  | WinOk svc_state =>
      match states_lookup svc_state with
      | Some st => Ret st
      | None => Ret "unknown"
      end
  | WinError _ _ _ => Ret "not installed"
  end.

(** The [while status == "stop pending":] loop of [stop].  It answers the
    values it leaves in [ret] and [output]: [Some] after the [break] on
    the deadline, [None] when the loop ends because the status changed. *)
Fixpoint stop_wait (fuel : nat) (start timeout : Z) (status0 : string)
  : prog service (option (Z * string)) :=
  if negb (String.eqb status0 "stop pending") then Ret None
  else
    match fuel with
    | O => Spin
    | S fuel' =>
        self ← get;
        now ← trigger TimeTime;
        if now - start >=? timeout then
          Ret (Some (1, "Service '" +:+ svc_name self +:+ "' status is '" +:+ status0 +:+ "'"))
        else
          trigger (TimeSleep 3);;
          status1 ← status;
          stop_wait fuel' start timeout status1
    end.

(** [WindowsService.stop(self, timeout)] *)
Definition stop (fuel : nat) (timeout : Z) : prog service (Z * string) :=
  modify (set_pids []);;
  self ← get;
  st ← status;
  if negb (in_states_values st) then
    st' ← status;
    Ret (1, "Service '" +:+ svc_name self +:+ "' status: " +:+ st')
  else
    r ← trigger (StopService (svc_name self));
    match r with
    | WinOk _ =>
        start ← trigger TimeTime;
        status0 ← status;
        _ ← stop_wait fuel start timeout status0;
        (* after the loop, whichever way it ended *)
        let ret := 0 in
        let output := "Service '" +:+ svc_name self +:+ "' stopped" in
        Ret (ret, output)
    | WinError winerror funcname strerror =>
        let ret := winerror in
        let output := funcname +:+ ": " +:+ strerror in
        if ret =? ERROR_BROKEN_PIPE then
          Ret (0, "Assuming service '" +:+ svc_name self +:+ "' stopped despite error: "
                  +:+ output)
        else Ret (ret, output)
    end.

End WindowsService.

(** [os.path.join(a, b)] on POSIX. *)
Definition ends_with_slash (a : string) : bool :=
  match String.length a with
  | O => false
  | S n => match String.get n a with Some c => Ascii.eqb c "/" | None => false end
  end.

Definition os_path_join (a b : string) : string :=
  if String.prefix "/" b then b
  else if String.eqb a EmptyString || ends_with_slash a then a +:+ b
  else a +:+ "/" +:+ b.

Module PosixService.

(** [PosixService.status(self)] *)
Definition status : prog service string :=
  self ← get;
  match pids self with
  | [] => Ret "stopped"
  | _ :: _ =>
      match db_path self with
      | None => Raise (TypeError "expected str, bytes or os.PathLike object, not NoneType")
      | Some dir =>
          let lock_file := os_path_join dir "mongod.lock" in
          exists_ ← trigger (OsPathExists lock_file);
          if negb exists_ then
            modify (set_pids []);; Ret "stopped"
          else
            size ← trigger (OsStatSize lock_file);
            match size with
            | Some 0 => modify (set_pids []);; Ret "stopped"
            | Some _ => Ret "running"
            | None => Ret "running"
            end
      end
  end.

End PosixService.

(** ** Strings, and the two regular expressions of the source *)

(** [str(n)] for an int. *)
Definition str (n : Z) : string := NilZero.string_of_int (Z.to_int n).

Definition newline : ascii := "010".

(** [strip_prefix p s] is [Some rest] when [s = p ++ rest]. *)
Fixpoint strip_prefix (p s : string) : option string :=
  match p, s with
  | EmptyString, _ => Some s
  | String a p', String b s' => if Ascii.eqb a b then strip_prefix p' s' else None
  | String _ _, EmptyString => None
  end.

(** Where [$] matches: at the end of the string, and just before a newline
    that is the last character. *)
Definition at_end (rest : string) : bool :=
  match rest with
  | EmptyString => true
  | String c EmptyString => Ascii.eqb c newline
  | _ => false
  end.

(** [re.sub(lit + "$", repl, s)] for a literal [lit] that is not empty and
    has no newline in it (here: a dash and a decimal number): every match is
    replaced, scanning from the left; after a match only the final newline,
    if any, is left to copy. *)
Fixpoint re_sub_at_end (lit repl s : string) : string :=
  match strip_prefix lit s with
  | Some rest =>
      if at_end rest then repl +:+ rest
      else match s with
           | EmptyString => EmptyString
           | String c s' => String c (re_sub_at_end lit repl s')
           end
  | None =>
      match s with
      | EmptyString => EmptyString
      | String c s' => String c (re_sub_at_end lit repl s')
      end
  end.

(** [get_backup_path(path, loop_num)] *)
Definition get_backup_path (path : string) (loop_num : Z) : string :=
  re_sub_at_end ("-" +:+ str (loop_num - 1)) ("-" +:+ str loop_num) path.

(** The text of [s] up to its first newline: what a dot-star can match. *)
Fixpoint line_of (s : string) : string :=
  match s with
  | EmptyString => EmptyString
  | String c s' => if Ascii.eqb c newline then EmptyString else String c (line_of s')
  end.

(** The text before the last occurrence of [sep] in [s]. *)
Fixpoint before_last (sep s : string) : option string :=
  match s with
  | EmptyString => if String.eqb sep EmptyString then Some EmptyString else None
  | String c s' =>
      match before_last sep s' with
      | Some t => Some (String c t)
      | None => if String.prefix sep s then Some EmptyString else None
      end
  end.

(** [re.search] of the boot-time pattern in [s]: the text [last booted ],
    a group of any characters but newline, as many as possible, then
    [, up].  The answer is the group of the leftmost match. *)
Fixpoint re_search_last_booted (s : string) : option string :=
  match strip_prefix "last booted " s ≫= (fun rest => before_last ", up" (line_of rest)) with
  | Some g => Some g
  | None =>
      match s with
      | EmptyString => None
      | String _ s' => re_search_last_booted s'
      end
  end.

(** [re.split("[ :-]", s)] *)
Definition is_sep (c : ascii) : bool :=
  Ascii.eqb c " " || Ascii.eqb c ":" || Ascii.eqb c "-".

Fixpoint re_split_seps (s : string) : list string :=
  match s with
  | EmptyString => [EmptyString]
  | String c s' =>
      if is_sep c then EmptyString :: re_split_seps s'
      else match re_split_seps s' with
           | [] => [String c EmptyString]
           | t :: ts => String c t :: ts
           end
  end.

(** ** Boot time *)

(** Python's floats, as far as [get_boot_datetime] needs them: [float(s)] and
    [int(x)], each answering a value or the exception it raises.  Floating
    point conversion is not modelled; the properties hold for every such
    pair of functions. *)
Record py_float : Type := PyFloat {
  float_t : Type;
  float_of_str : string -> py_exn + float_t;
  int_of_float : float_t -> py_exn + Z
}.

(** [list(map(f, l))], stopping at the first exception. *)
Fixpoint map_raise {A B} (f : A -> py_exn + B) (l : list A) : py_exn + list B :=
  match l with
  | [] => inr []
  | x :: l' =>
      match f x with
      | inl e => inl e
      | inr y => match map_raise f l' with
                 | inl e => inl e
                 | inr ys => inr (y :: ys)
                 end
      end
  end.

(** A naive [datetime.datetime]. *)
Record datetime : Type := Datetime {
  year : Z; month : Z; day : Z; hour : Z; minute : Z; second : Z; microsecond : Z
}.

Definition is_leap (y : Z) : bool :=
  (y mod 4 =? 0) && (negb (y mod 100 =? 0) || (y mod 400 =? 0)).

Definition days_in_month (y m : Z) : Z :=
  if m =? 2 then (if is_leap y then 29 else 28)
  else if (m =? 4) || (m =? 6) || (m =? 9) || (m =? 11) then 30
  else 31.

(** [datetime.datetime] applied to a list of ints as its positional
    arguments. *)
Definition datetime_of_fields (y m d hh mm ss us : Z) : py_exn + datetime :=
  if negb ((1 <=? y) && (y <=? 9999)) then inl (ValueError "year is out of range")
  else if negb ((1 <=? m) && (m <=? 12)) then inl (ValueError "month must be in 1..12")
  else if negb ((1 <=? d) && (d <=? days_in_month y m))
       then inl (ValueError "day is out of range for month")
  else if negb ((0 <=? hh) && (hh <=? 23)) then inl (ValueError "hour must be in 0..23")
  else if negb ((0 <=? mm) && (mm <=? 59)) then inl (ValueError "minute must be in 0..59")
  else if negb ((0 <=? ss) && (ss <=? 59)) then inl (ValueError "second must be in 0..59")
  else if negb ((0 <=? us) && (us <=? 999999))
       then inl (ValueError "microsecond must be in 0..999999")
  else inr (Datetime y m d hh mm ss us).

Definition make_datetime (args : list Z) : py_exn + datetime :=
  match args with
  | [y; m; d] => datetime_of_fields y m d 0 0 0 0
  | [y; m; d; hh] => datetime_of_fields y m d hh 0 0 0
  | [y; m; d; hh; mm] => datetime_of_fields y m d hh mm 0 0
  | [y; m; d; hh; mm; ss] => datetime_of_fields y m d hh mm ss 0
  | [y; m; d; hh; mm; ss; us] => datetime_of_fields y m d hh mm ss us
  | _ => inl (TypeError "datetime() arguments")
  end.

(** [a <= b] on datetimes: the order of the tuples of fields. *)
Definition datetime_le (a b : datetime) : bool :=
  let fields x := [year x; month x; day x; hour x; minute x; second x; microsecond x] in
  (fix le (l1 l2 : list Z) : bool :=
     match l1, l2 with
     | x :: l1', y :: l2' => (x <? y) || ((x =? y) && le l1' l2')
     | _, _ => true
     end) (fields a) (fields b).

(** What [get_boot_datetime] returns: a datetime, or [-1]. *)
Inductive boot_time : Type :=
| BootAt (dt : datetime)
| NoBootTime.

(** [get_boot_datetime(uptime_string)] *)
Definition get_boot_datetime (F : py_float) (uptime_string : string) : py_exn + boot_time :=
  match re_search_last_booted uptime_string with
  | Some group =>
      match map_raise (float_of_str F) (re_split_seps group) with
      | inl e => inl e
      | inr floats =>
          match map_raise (int_of_float F) floats with
          | inl e => inl e
          | inr ints =>
              match make_datetime ints with
              | inl e => inl e
              | inr dt => inr (BootAt dt)
              end
          end
      end
  | None => inr NoBootTime
  end.

(** Decimal numbers with an optional fraction, which is all that
    [print_uptime] writes; [int(float(s))] is then the integer part.  Used to
    run examples. *)
Fixpoint digits_value (acc : Z) (s : string) : option (Z * string) :=
  match s with
  | EmptyString => Some (acc, EmptyString)
  | String c s' =>
      let n := Z.of_nat (nat_of_ascii c) in
      if (48 <=? n) && (n <=? 57) then digits_value (10 * acc + (n - 48)) s'
      else Some (acc, s)
  end.

Fixpoint all_digits (s : string) : bool :=
  match s with
  | EmptyString => true
  | String c s' =>
      let n := Z.of_nat (nat_of_ascii c) in
      (48 <=? n) && (n <=? 57) && all_digits s'
  end.

Definition decimal_float_of_str (s : string) : py_exn + Z :=
  match s with
  | EmptyString => inl (ValueError "could not convert string to float")
  | _ =>
      match digits_value 0 s with
      | Some (n, EmptyString) => inr n
      | Some (n, String "." frac) =>
          if all_digits frac && negb (String.eqb s ".") then inr n
          else inl (ValueError "could not convert string to float")
      | _ => inl (ValueError "could not convert string to float")
      end
  end.

Definition decimal_float : py_float := PyFloat Z decimal_float_of_str inr.

(** ** The agent: [remote_handler] *)

Definition ONE_HOUR_SECS : Z := 60 * 60.

(** The values of [powercycle_constants] that the embedded code reads. *)
Record powercycle_constants : Type := Constants {
  REMOTE_DIR : string;
  DB_PATH : string;
  LOG_PATH : string;
  RSYNC_EXCLUDE_FILES : list string;
  DB_NAME : string;
  COLLECTION_NAME : string;
  SECRET_PORT : Z;
  STANDARD_PORT : Z;
  BACKUP_PATH_BEFORE : string;
  BACKUP_PATH_AFTER : string;
  CRASH_WAIT_TIME : Z;
  CRASH_WAIT_TIME_JITTER : Z;
  CRUD_CLIENT : string;
  FSM_CLIENT : string;
  CONFIG_CRUD_CLIENT : string;
  RESMOKE_PATH : string;
  VIRTUALENV_DIR : string
}.

(** The fields of the task configuration that the embedded code reads. *)
Record task_config : Type := TaskConfig {
  mongod_options : string;
  repl_set : option string;
  fcv : option string;
  seed_doc_num : Z;
  crash_method : string;
  test_loops : Z
}.

(** The command line options that [remote_handler] reads. *)
Record agent_options : Type := AgentOptions {
  remote_operations : list string;
  port : Z;
  rsync_dest : option (string * string);
  tarball_url : string
}.

(** Truth value of an optional string: [None] and the empty string are false. *)
Definition truthy (o : option string) : bool :=
  match o with
  | Some s => negb (String.eqb s EmptyString)
  | None => false
  end.

(** [os.path.dirname] on POSIX. *)
Fixpoint all_slashes (s : string) : bool :=
  match s with
  | EmptyString => true
  | String c s' => Ascii.eqb c "/" && all_slashes s'
  end.

Fixpoint rstrip_slashes (s : string) : string :=
  match s with
  | EmptyString => EmptyString
  | String c s' => if all_slashes s then EmptyString else String c (rstrip_slashes s')
  end.

Definition os_path_dirname (p : string) : string :=
  match before_last "/" p with
  | Some h =>
      let head := h +:+ "/" in
      if all_slashes head then head else rstrip_slashes head
  | None => EmptyString
  end.

(** [os.path.splitdrive(p)[0]] on Windows, for a drive letter path. *)
Definition splitdrive0 (p : string) : string :=
  match p with
  | String d (String ":" _) => String d (String ":" EmptyString)
  | _ => EmptyString
  end.

(** [s[n:]] *)
Fixpoint string_from (n : nat) (s : string) : string :=
  match n, s with
  | O, _ => s
  | S n', String _ s' => string_from n' s'
  | S _, EmptyString => EmptyString
  end.

(** [os.path.dirname] on Windows, [ntpath.dirname] as Python 3.7 and 3.8
    have it.  Both the slash and the backslash separate. *)
Definition is_path_sep (c : ascii) : bool := Ascii.eqb c "/" || Ascii.eqb c "\".

(** The position of the first separator of [s]. *)
Fixpoint find_sep (s : string) : option nat :=
  match s with
  | EmptyString => None
  | String c s' => if is_path_sep c then Some O else S <$> find_sep s'
  end.

Fixpoint all_seps (s : string) : bool :=
  match s with
  | EmptyString => true
  | String c s' => is_path_sep c && all_seps s'
  end.

(** [s.rstrip(seps)] *)
Fixpoint rstrip_seps (s : string) : string :=
  match s with
  | EmptyString => EmptyString
  | String c s' => if all_seps s then EmptyString else String c (rstrip_seps s')
  end.

(** [p[:i]], where [i] is the position after the last separator of [p]. *)
Fixpoint upto_last_sep (s : string) : string :=
  match s with
  | EmptyString => EmptyString
  | String c s' =>
      if is_path_sep c || bool_decide (find_sep s' <> None) then String c (upto_last_sep s')
      else EmptyString
  end.

(** [ntpath.splitdrive(p)]: a path that starts with two separators and no
    third is a UNC path, whose drive is the host and the share; otherwise
    the drive is the letter and the colon, if the path starts with them. *)
Definition ntpath_splitdrive (p : string) : string * string :=
  match p with
  | String c0 (String c1 rest) =>
      if is_path_sep c0 && is_path_sep c1
         && negb (match rest with String c2 _ => is_path_sep c2 | EmptyString => false end)
      then
        match find_sep rest with
        | None => (EmptyString, p)
        | Some i =>
            let index := (2 + i)%nat in
            match find_sep (string_from (S index) p) with
            | Some O => (EmptyString, p)
            | Some j =>
                let index2 := (index + 1 + j)%nat in
                (String.substring 0 index2 p, string_from index2 p)
            | None => (p, EmptyString)
            end
        end
      else if Ascii.eqb c1 ":" then (String c0 (String c1 EmptyString), rest)
      else (EmptyString, p)
  | _ => (EmptyString, p)
  end.

(** [ntpath.dirname(p)]: the head of [ntpath.split(p)]. *)
Definition ntpath_dirname (p : string) : string :=
  let '(d, p) := ntpath_splitdrive p in
  let head := upto_last_sep p in
  let stripped := rstrip_seps head in
  d +:+ (if String.eqb stripped EmptyString then head else stripped).

(** *** The options of mongod *)

(** The value of an option: [None], a string, or an integer (the port). *)
Inductive opt_value : Type :=
| VNone
| VStr (s : string)
| VInt (n : Z).

(** [options_map]: a dict from the name of an option to [(value, form)], in
    the order in which the names were first set. *)
Definition options_dict : Type := list (string * (opt_value * string)).

(** [d[k] = v]: the value of a key that is there is replaced where it is, a
    new key goes to the end. *)
Fixpoint dict_set (k : string) (v : opt_value * string) (d : options_dict) : options_dict :=
  match d with
  | [] => [(k, v)]
  | (k', v') :: d' =>
      if String.eqb k k' then (k, v) :: d' else (k', v') :: dict_set k v d'
  end.

(** [d.get(k)] *)
Fixpoint dict_get (k : string) (d : options_dict) : option (opt_value * string) :=
  match d with
  | [] => None
  | (k', v') :: d' => if String.eqb k k' then Some v' else dict_get k d'
  end.

(** The variables [opt_name] and [opt_form] of the loop of [parse_options]:
    not assigned before the first option that starts with a dash; then
    [opt_name] is [None] or a string. *)
Inductive option_vars : Type :=
| Unassigned
| Assigned (opt_name : option string) (opt_form : string).

(** The body of the loop of [parse_options] for the token [opt]. *)
Definition parse_option (opt : string) (options_map : options_dict) (vars : option_vars)
  : py_exn + options_dict * option_vars :=
  if String.prefix "-" opt then
    match String.get 1 opt with
    | None => inl (IndexError "string index out of range")
    | Some c =>
        let opt_idx := if Ascii.eqb c "-" then 2%nat else 1%nat in
        let opt_form := String.substring 0 opt_idx opt in
        match String.index 0 "=" opt with
        | None =>
            let opt_name := string_from opt_idx opt in
            inr (dict_set opt_name (VNone, opt_form) options_map,
                 Assigned (Some opt_name) opt_form)
        | Some eq_idx =>
            let opt_name := String.substring opt_idx (eq_idx - opt_idx) opt in
            inr (dict_set opt_name (VStr (string_from (eq_idx + 1) opt), opt_form) options_map,
                 Assigned None opt_form)
        end
    end
  else
    match vars with
    | Unassigned => inl (UnboundLocalError "opt_name")
    | Assigned None _ => inr (options_map, vars)
    | Assigned (Some opt_name) opt_form =>
        if String.eqb opt_name EmptyString then inr (options_map, vars)
        else inr (dict_set opt_name (VStr opt, opt_form) options_map, vars)
    end.

(** The loop of [parse_options] over the tokens [opts]. *)
Fixpoint parse_tokens (opts : list string) (options_map : options_dict) (vars : option_vars)
  : py_exn + options_dict :=
  match opts with
  | [] => inr options_map
  | opt :: opts' =>
      match parse_option opt options_map vars with
      | inl exn => inl exn
      | inr (options_map', vars') => parse_tokens opts' options_map' vars'
      end
  end.

Section Options.

(** [shlex.split]: the tokens of a string, or the exception that it raises
    (a [ValueError] where a quotation is not closed or nothing follows an
    escape character). *)
Variable shlex_split : string -> py_exn + list string.

(** [parse_options(options)] *)
Definition parse_options (options : string) : py_exn + options_dict :=
  let options_map := [] in
  match shlex_split options with
  | inl exn => inl exn
  | inr opts => parse_tokens opts options_map Unassigned
  end.

End Options.

(** [if opt_val:] *)
Definition opt_truthy (v : opt_value) : bool :=
  match v with
  | VNone => false
  | VStr s => negb (String.eqb s EmptyString)
  | VInt n => negb (n =? 0)
  end.

(** ["{}".format(opt_val)] *)
Definition opt_format (v : opt_value) : string :=
  match v with
  | VNone => "None"
  | VStr s => s
  | VInt n => str n
  end.

Module MongodControl.

(** [set_mongod_option(option, option_value, option_form="--")]:
    [self.options_map[option] = (option_value, option_form)]. *)
Definition set_mongod_option (option : string) (option_value : opt_value)
    (options_map : options_dict) : options_dict :=
  dict_set option (option_value, "--") options_map.

(** The [options_map] that [MongodControl.__init__] makes. *)
Definition options_map (shlex_split : string -> py_exn + list string) (IS_WINDOWS : bool)
    (db_path log_path : string) (port : Z) (options : string)
  : py_exn + options_dict :=
  match parse_options shlex_split options with
  | inl exn => inl exn
  | inr options_map =>
      let options_map := set_mongod_option "dbpath" (VStr db_path) options_map in
      let options_map := set_mongod_option "logpath" (VStr log_path) options_map in
      let options_map := set_mongod_option "logappend" VNone options_map in
      let options_map := set_mongod_option "port" (VInt port) options_map in
      let options_map := set_mongod_option "bind_ip" (VStr "0.0.0.0") options_map in
      inr (if IS_WINDOWS then set_mongod_option "service" VNone options_map
           else set_mongod_option "fork" VNone options_map)
  end.

(** [status()]: [self.service.status()], of the service that
    [self._service] makes: a [WindowsService] on Windows, a [PosixService]
    otherwise. *)
Definition status (IS_WINDOWS : bool) : prog service string :=
  if IS_WINDOWS then WindowsService.status else PosixService.status.

(** [mongod_options()] *)
Definition mongod_options (options_map : options_dict) : string :=
  fold_left (fun opt_string '(opt_name, (opt_val, opt_form)) =>
               let opt_string := opt_string +:+ " " +:+ opt_form +:+ opt_name in
               if opt_truthy opt_val then opt_string +:+ " " +:+ opt_format opt_val
               else opt_string)
    options_map EmptyString.

End MongodControl.

Section Agent.

Context {St : Type}.
Variable IS_WINDOWS : bool.
Variable pc : powercycle_constants.
Variable tc : task_config.
Variable options : agent_options.
(* [root_dir], [db_path] and [log_path] after [abs_path] *)
Variable root_dir db_path log_path : string.

(** The [for _ in range(100)] loop of [start_mongod]: it answers what is
    bound to [build_info] and [server_status] when it ends. *)
Fixpoint probe_server (n : nat) (m : mongo) (build_info server_status : option string)
  : prog St (option string * option string) :=
  match n with
  | O => Ret (build_info, server_status)
  | S n' =>
      r ← trigger (AdminCommand m "buildinfo" EmptyString);
      match r with
      | ReplyAutoReconnect => probe_server n' m build_info server_status
      | ReplyOperationFailure code => Raise (OperationFailure code)
      | Reply _ bi =>
          r' ← trigger (AdminCommand m "serverStatus" EmptyString);
          match r' with
          | ReplyAutoReconnect => probe_server n' m (Some bi) server_status
          | ReplyOperationFailure code => Raise (OperationFailure code)
          | Reply _ ss => Ret (Some bi, Some ss)
          end
      end
  end.

(** The [for part in partitions] loop of [check_disk]; [ret] is the value of
    the variable [ret] when the loop is entered. *)
Fixpoint check_partitions (parts : list (string * string)) (ret : Z) : prog St Z :=
  match parts with
  | [] => Ret ret
  | (fstype, mountpoint) :: parts' =>
      if negb (String.eqb fstype "NTFS") || String.eqb mountpoint "C:\" then
        check_partitions parts' ret
      else
        let drive_letter := splitdrive0 mountpoint in
        log INFO "Running chkdsk command for %s drive" [AStr drive_letter];;
        '(ret, output) ← trigger (ExecuteCmd ("chkdsk '" +:+ drive_letter +:+ "'") true);
        log WARNING "chkdsk command for %s drive exited with code %d:\n%s"
          [AStr drive_letter; AInt ret; AStr output];;
        if negb (ret =? 0) then Ret ret
        else check_partitions parts' ret
  end.

(** One turn of the [for operation in options.remote_operations] loop, up to
    the final [if ret: return ret]: the [if]/[elif] chain.  It answers the
    value of [ret] at the end of the branch; a [return ret] inside a branch
    (always under [if ret] or [if ret != 0]) answers that value at once. *)
Definition perform (operation : string) : prog St Z :=
  let m := Mongo "localhost" (port options) in
  let ret := 0 in
  if String.eqb operation "noop" then Ret ret

  else if String.eqb operation "crash_server" then
    '(ret, output) ← trigger InternalCrash;
    log INFO "Waiting after issuing internal crash!" [];;
    trigger (TimeSleep 30);;
    Ret ret

  else if String.eqb operation "kill_mongod" then
    '(ret, output) ← trigger KillMongod;
    if negb (ret =? 0) then
      log ERROR "kill_mongod failed %s" [AStr output];;
      Ret ret
    else
      '(ret, output) ← trigger (MongodStop (2 * ONE_HOUR_SECS));
      log INFO output [];;
      status ← trigger MongodStatus;
      if negb (String.eqb status "stopped") then
        log ERROR "Unable to stop the mongod service, in state '%s'" [AStr status];;
        Ret 1
      else Ret ret

  else if String.eqb operation "install_mongod" then
    '(ret, output) ← trigger (MongodInstall root_dir (tarball_url options));
    log INFO output [];;
    isdir ← trigger (OsPathIsdir db_path);
    (if negb isdir then trigger (OsMakedirs db_path) else Ret tt);;
    let log_dir :=
      if IS_WINDOWS then ntpath_dirname log_path else os_path_dirname log_path in
    isdir ← trigger (OsPathIsdir log_dir);
    (if negb isdir then trigger (OsMakedirs log_dir) else Ret tt);;
    if IS_WINDOWS then
      trigger (ChmodWFile db_path);;
      trigger (ChmodWFile log_dir);;
      '(ret, output) ← trigger SetWindowsBootstatuspolicy;
      log INFO output [];;
      Ret ret
    else Ret ret

  else if String.eqb operation "start_mongod" then
    '(ret, output) ← trigger MongodUpdate;
    log INFO output [];;
    '(ret, output) ← trigger MongodStart;
    log INFO output [];;
    if negb (ret =? 0) then
      log ERROR "Failed to start mongod on port %d: %s" [AInt (port options); AStr output];;
      Ret ret
    else
      pids ← trigger MongodGetPids;
      log INFO "Started mongod running on port %d pid %s" [AInt (port options); AList pids];;
      '(build_info, server_status) ← probe_server 100 m None None;
      match build_info with
      | None => Raise (UnboundLocalError "build_info")
      | Some build_info =>
          log INFO "Server buildinfo: %s" [AStr build_info];;
          match server_status with
          | None => Raise (UnboundLocalError "server_status")
          | Some server_status =>
              log INFO "Server serverStatus: %s" [AStr server_status];;
              if truthy (repl_set tc) then
                let host_port := "localhost:" +:+ str (port options) in
                trigger (MongoReconfigReplication m host_port
                           (default EmptyString (repl_set tc)))
              else Ret ret
          end
      end

  else if String.eqb operation "stop_mongod" then
    '(ret, output) ← trigger (MongodStop 0);
    log INFO output [];;
    trigger WaitForMongodShutdown

  else if String.eqb operation "shutdown_mongod" then
    r ← trigger (AdminCommand m "shutdown" "force=True");
    match r with
    | ReplyOperationFailure code => Raise (OperationFailure code)
    | _ => trigger WaitForMongodShutdown
    end

  else if String.eqb operation "rsync_data" then
    match rsync_dest options with
    | None => Raise (TypeError "cannot unpack non-iterable NoneType object")
    | Some (rsync_dir, new_rsync_dir) =>
        '(ret, output) ← trigger (Rsync (DB_PATH pc) rsync_dir (RSYNC_EXCLUDE_FILES pc));
        (if negb (String.eqb output EmptyString) then log INFO output [] else Ret tt);;
        if (ret =? 0) && negb (String.eqb rsync_dir new_rsync_dir) then
          log INFO "Renaming directory %s to %s" [AStr rsync_dir; AStr new_rsync_dir];;
          src ← trigger (AbsPath rsync_dir);
          dst ← trigger (AbsPath new_rsync_dir);
          trigger (OsRename src dst);;
          Ret ret
        else Ret ret
    end

  else if String.eqb operation "seed_docs" then
    trigger (MongoSeedDocs m (DB_NAME pc) (COLLECTION_NAME pc) (seed_doc_num tc))

  else if String.eqb operation "set_fcv" then
    r ← trigger (AdminCommand m "setFeatureCompatibilityVersion"
                   (default EmptyString (fcv tc)));
    match r with
    | Reply ok _ => Ret (if ok =? 1 then 0 else 1)
    | ReplyOperationFailure code =>
        log ERROR "%s" [AInt code];;
        Ret code
    | ReplyAutoReconnect => Raise (AutoReconnect "setFeatureCompatibilityVersion")
    end

  else if String.eqb operation "check_disk" then
    if IS_WINDOWS then
      partitions ← trigger DiskPartitions;
      check_partitions partitions ret
    else Ret ret

  else
    log ERROR "Unsupported remote option specified '%s'" [AStr operation];;
    Ret 1.

(** The [for operation in options.remote_operations] loop and the
    [return 0] after it. *)
Fixpoint perform_all (operations : list string) : prog St Z :=
  match operations with
  | [] => Ret 0
  | operation :: operations' =>
      ret ← perform operation;
      if negb (ret =? 0) then Ret ret
      else perform_all operations'
  end.

End Agent.

(** [remote_handler(options, task_config, root_dir)] *)
Definition remote_handler {S} (shlex_split : string -> py_exn + list string)
    (IS_WINDOWS : bool) (pc : powercycle_constants)
    (options : agent_options) (tc : task_config) (root_dir : string) : prog S Z :=
  root_dir ← trigger (AbsPath root_dir);
  match remote_operations options with
  | [] => Raise (ValueError "No remote operation specified.")
  | _ :: _ =>
      trigger PrintUptime;;
      log INFO "Operations to perform %s" (AStr <$> remote_operations options);;
      let mongod_options :=
        if truthy (repl_set tc)
        then mongod_options tc +:+ " --replSet " +:+ default EmptyString (repl_set tc)
        else mongod_options tc in
      remote_dir ← trigger (AbsPath (REMOTE_DIR pc));
      let bin_dir := os_path_join remote_dir "bin" in
      db_path ← trigger (AbsPath (DB_PATH pc));
      log_path ← trigger (AbsPath (LOG_PATH pc));
      trigger (NewMongodControl bin_dir db_path log_path (port options) mongod_options);;
      match MongodControl.options_map shlex_split IS_WINDOWS db_path log_path (port options)
              mongod_options with
      | inl exn => Raise exn
      | inr _ =>
          perform_all IS_WINDOWS pc tc options root_dir db_path log_path
            (remote_operations options)
      end
  end.

(** ** The controller: the loop of [main] *)

(** [pipes.quote] *)
Definition safe_char (c : ascii) : bool :=
  let n := nat_of_ascii c in
  ((48 <=? n) && (n <=? 57) || (65 <=? n) && (n <=? 90) || (97 <=? n) && (n <=? 122))%nat
  || existsb (Ascii.eqb c) ["_"; "@"; "%"; "+"; "="; ":"; ","; "."; "/"; "-"]%char.

Fixpoint all_safe (s : string) : bool :=
  match s with
  | EmptyString => true
  | String c s' => safe_char c && all_safe s'
  end.

Definition dquote : string := String (ascii_of_nat 34) EmptyString.

Fixpoint escape_quotes (s : string) : string :=
  match s with
  | EmptyString => EmptyString
  | String c s' =>
      if Ascii.eqb c "'" then "'" +:+ dquote +:+ "'" +:+ dquote +:+ "'" +:+ escape_quotes s'
      else String c (escape_quotes s')
  end.

Definition pipes_quote (s : string) : string :=
  match s with
  | EmptyString => "''"
  | _ => if all_safe s then s else "'" +:+ escape_quotes s +:+ "'"
  end.

(** Values kept in [EXIT_YML]. *)
Inductive yml_value : Type :=
| YInt (n : Z)
| YStr (s : string).

(** The module-level state of the controller. *)
Record globals : Type := Globals {
  EXIT_YML : gmap string yml_value;
  REPORT_JSON_SUCCESS : bool;
  _PROC_LIST : list proc;
  _FILE_MAP : gset string;
  _DIR_LIST : list string
}.

Definition set_EXIT_YML (f : gmap string yml_value -> gmap string yml_value) (g : globals)
  : globals :=
  Globals (f (EXIT_YML g)) (REPORT_JSON_SUCCESS g) (_PROC_LIST g) (_FILE_MAP g) (_DIR_LIST g).

Definition set_REPORT_JSON_SUCCESS (b : bool) (g : globals) : globals :=
  Globals (EXIT_YML g) b (_PROC_LIST g) (_FILE_MAP g) (_DIR_LIST g).

Definition set_PROC_LIST (f : list proc -> list proc) (g : globals) : globals :=
  Globals (EXIT_YML g) (REPORT_JSON_SUCCESS g) (f (_PROC_LIST g)) (_FILE_MAP g) (_DIR_LIST g).

Definition set_FILE_MAP (f : gset string -> gset string) (g : globals) : globals :=
  Globals (EXIT_YML g) (REPORT_JSON_SUCCESS g) (_PROC_LIST g) (f (_FILE_MAP g)) (_DIR_LIST g).

Definition set_DIR_LIST (f : list string -> list string) (g : globals) : globals :=
  Globals (EXIT_YML g) (REPORT_JSON_SUCCESS g) (_PROC_LIST g) (_FILE_MAP g) (f (_DIR_LIST g)).

(** The module state when [main] starts. *)
Definition initial_globals : globals :=
  Globals {[ "exit_code" := YInt 0 ]} false [] ∅ [].

(** [if b: p] *)
Definition when {St} (b : bool) (p : prog St unit) : prog St unit :=
  if b then p else Ret tt.

(** [local_exit(code)] *)
Definition local_exit {A} (code : Z) : prog globals A :=
  modify (set_EXIT_YML <[ "exit_code" := YInt code ]>);;
  Raise (SystemExit code).

(** [ssh_failure_exit(code, output)] *)
Definition ssh_failure_exit {A} (code : Z) (output : string) : prog globals A :=
  modify (set_EXIT_YML <[ "ec2_ssh_failure" := YStr output ]>);;
  local_exit code.

(** [verify_remote_access(remote_op)] *)
Definition verify_remote_access (remote_op : local_ops) : prog globals unit :=
  if negb (access_established remote_op) then
    let '(code, output) := access_info remote_op in
    log ERROR "Exiting, unable to establish access (%d): %s" [AInt code; AStr output];;
    ssh_failure_exit code output
  else Ret tt.

(** [call_remote_operation(local_ops, remote_python, script_name, client_args, operation)] *)
Definition call_remote_operation {St} (lo : local_ops)
    (remote_python script_name client_args operation : string) : prog St (Z * string) :=
  let client_call :=
    remote_python +:+ " " +:+ script_name +:+ " " +:+ client_args +:+ " " +:+ operation in
  trigger (Shell lo client_call).

(** [get_remote_python()] *)
Definition get_remote_python (IS_WINDOWS : bool) (pc : powercycle_constants) : string :=
  let python_bin_dir := if IS_WINDOWS then "Scripts" else "bin" in
  ". " +:+ VIRTUALENV_DIR pc +:+ "/" +:+ python_bin_dir +:+ "/activate; python -u".

(** [setup_ssh_tunnel(...)]; [start_cmd] is [psutil.Popen], which makes the
    handle and caches the creation time of the process in it. *)
Definition setup_ssh_tunnel {St} (mongod_host : string) (secret_port standard_port : Z)
    (ssh_connection_options ssh_options ssh_user_host : string) : prog St proc :=
  let ssh_tunnel_opts :=
    "-L " +:+ str secret_port +:+ ":" +:+ mongod_host +:+ ":" +:+ str secret_port
    +:+ " -L " +:+ str standard_port +:+ ":" +:+ mongod_host +:+ ":" +:+ str standard_port in
  let ssh_tunnel_cmd :=
    "ssh -N " +:+ ssh_tunnel_opts +:+ " " +:+ ssh_connection_options +:+ " "
    +:+ ssh_options +:+ " " +:+ ssh_user_host in
  log INFO "Tunneling mongod connections through ssh to get around firewall" [];;
  log INFO ssh_tunnel_cmd [];;
  ssh_tunnel_proc ← trigger (StartCmd ssh_tunnel_cmd false);
  log INFO "The connection is not terminated because the host can be shut down at anytime" [];;
  Ret ssh_tunnel_proc.

(** The value of the variable [canary_doc]: the empty string before the
    first canary is made, a dict afterwards. *)
Inductive canary : Type :=
| NoCanary
| CanaryDoc (d : document).

(** [mongo_validate_canary(mongo, db_name, coll_name, doc)] *)
Definition mongo_validate_canary {St} (m : mongo) (db_name coll_name : string) (doc : canary)
  : prog St Z :=
  match doc with
  | NoCanary => Ret 0
  | CanaryDoc d =>
      if bool_decide (d = ∅) then Ret 0
      else
        log INFO "Validating canary document using %s.%s.find_one(%s)"
          [AStr db_name; AStr coll_name];;
        found ← trigger (FindOne m db_name coll_name d);
        Ret (if found : bool then 0 else 1)
  end.

(** [mongo_insert_canary(mongo, db_name, coll_name, doc)]; next to the return
    code it answers the dict [doc] as the call leaves it. *)
Definition mongo_insert_canary {St} (m : mongo) (db_name coll_name : string) (doc : document)
  : prog St (Z * document) :=
  log INFO "Inserting canary document using %s.%s.insert_one(%s)"
    [AStr db_name; AStr coll_name];;
  '(doc', inserted_id) ← trigger (InsertOne m db_name coll_name doc);
  Ret (if inserted_id : bool then 0 else 1, doc').

Module NamedTempFile.

(** [NamedTempFile.create(newline, suffix, directory)] *)
Definition create (suffix directory : string) : prog globals string :=
  (if negb (String.eqb directory EmptyString) then
     isdir ← trigger (OsPathIsdir directory);
     when (negb isdir)
       (log DEBUG "Creating temporary directory %s" [AStr directory];;
        trigger (OsMakedirs directory);;
        modify (set_DIR_LIST (fun l => l ++ [directory])))
   else Ret tt);;
  name ← trigger (NamedTemporaryFile suffix directory);
  modify (set_FILE_MAP (fun m => {[ name ]} ∪ m));;
  Ret name.

(** [NamedTempFile.delete(name)] *)
Definition delete (name : string) : prog globals unit :=
  g ← get;
  if negb (bool_decide (name ∈ _FILE_MAP g)) then
    Raise (Exception ("Unknown temporary file " +:+ name +:+ "."))
  else
    exists_ ← trigger (OsPathExists name);
    if negb exists_ then
      log DEBUG "Temporary file %s no longer exists" [AStr name];;
      modify (set_FILE_MAP (fun m => m ∖ {[ name ]}))
    else
      removed ← trigger (OsRemove name);
      when (negb removed)
        (log WARNING "Unable to delete temporary file %s with error %s" [AStr name]);;
      exists_ ← trigger (OsPathExists name);
      when (negb exists_) (modify (set_FILE_MAP (fun m => m ∖ {[ name ]}))).

End NamedTempFile.

(** [list.remove(x)]: drop the first element equal to [x]. *)
Fixpoint list_remove (x : proc) (l : list proc) : option (list proc) :=
  match l with
  | [] => None
  | y :: l' =>
      if bool_decide (x = y) then Some l'
      else cons y <$> list_remove x l'
  end.

Module Processes.

(** [Processes.create(cmds)] *)
Definition create (cmds : string) : prog globals unit :=
  p ← trigger (StartCmd cmds true);
  modify (set_PROC_LIST (fun l => l ++ [p])).

(** [Processes.kill(proc)] *)
Definition kill (p : proc) : prog globals unit :=
  kill_processes [p] true;;
  g ← get;
  match list_remove p (_PROC_LIST g) with
  | Some l => put (set_PROC_LIST (fun _ => l) g)
  | None => Raise (ValueError "list.remove(x): x not in list")
  end.

(** [Processes.kill_all()] *)
Definition kill_all : prog globals unit :=
  g ← get;
  let procs := _PROC_LIST g in
  for_each procs kill.

End Processes.

(** [resmoke_client(...)]: [None] stands for the pair [None, None] that is
    returned when the client is only started. *)
Definition resmoke_client (pc : powercycle_constants)
    (work_dir mongo_path host_port js_test resmoke_suite : string)
    (repeat_num : Z) (no_wait : bool) (log_file : option string)
  : prog globals (option (Z * string)) :=
  let log_output :=
    match log_file with
    | Some f => if String.eqb f EmptyString then EmptyString else ">> " +:+ f +:+ " 2>&1"
    | None => EmptyString
    end in
  let cmds :=
    "cd " +:+ pipes_quote work_dir +:+ ";"
    +:+ " python " +:+ RESMOKE_PATH pc
    +:+ " run"
    +:+ " --mongo " +:+ pipes_quote mongo_path
    +:+ " --suites " +:+ pipes_quote resmoke_suite
    +:+ " --shellConnString mongodb://" +:+ host_port
    +:+ " --continueOnFailure"
    +:+ " --repeat " +:+ str repeat_num
    +:+ " " +:+ pipes_quote js_test
    +:+ " " +:+ log_output in
  if no_wait then
    Processes.create cmds;; Ret None
  else
    r ← trigger (ExecuteCmd cmds true);
    Ret (Some r).

(** [crash_server_or_kill_mongod(task_config, crash_canary, local_ops,
    script_name, client_args)].  [crash_canary] is [None] for the empty
    dict; otherwise it holds the arguments of [mongo_insert_canary].  Next to
    [(ret, output)] the dict of the canary is answered as the call leaves
    it. *)
Definition crash_server_or_kill_mongod (IS_WINDOWS : bool) (pc : powercycle_constants)
    (tc : task_config) (crash_canary : option (mongo * string * string * document))
    (lo : local_ops) (script_name client_args : string)
  : prog globals (Z * string * option document) :=
  jitter ← trigger (RandomRandint 0 (CRASH_WAIT_TIME_JITTER pc));
  let crash_wait_time := CRASH_WAIT_TIME pc + jitter in
  let message_prefix :=
    if String.eqb (crash_method tc) "kill" then "Killing mongod" else "Crashing server" in
  log INFO "%s in %d seconds" [AStr message_prefix; AInt crash_wait_time];;
  trigger (TimeSleep crash_wait_time);;
  if String.eqb (crash_method tc) "internal" || String.eqb (crash_method tc) "kill" then
    let crash_cmd :=
      if String.eqb (crash_method tc) "internal" then "crash_server" else "kill_mongod" in
    let remote_python := get_remote_python IS_WINDOWS pc in
    let crash_args :=
      remote_python +:+ " " +:+ script_name +:+ " " +:+ client_args
      +:+ " --remoteOperation " +:+ crash_cmd in
    doc ← match crash_canary with
          | Some (m, db_name, coll_name, doc) =>
              '(_, doc') ← mongo_insert_canary m db_name coll_name doc;
              Ret (Some doc')
          | None => Ret None
          end;
    '(ret, output) ← trigger (Shell lo crash_args);
    log INFO output [];;
    Ret (ret, output, doc)
  else
    let message := "Unsupported crash method '" +:+ crash_method tc +:+ "' provided" in
    log ERROR message [];;
    Ret (1, message, snd <$> crash_canary).

(** What the set-up part of [main] leaves for its loop. *)
Record main_env : Type := MainEnv {
  IS_WINDOWS : bool;
  pc : powercycle_constants;
  tc : task_config;
  floats : py_float;
  ssh_user_host : string;
  mongod_host : string;
  ssh_connection_options : string;
  ssh_options : string;
  script_name : string;
  client_args : string;
  mongo_path : string;
  mongo_repo_root_dir : string;
  crud_test_data : gmap string test_value;
  fsm_test_data : gmap string test_value;
  eval_str : string;
  num_crud_clients : Z;
  num_fsm_clients : Z;
  start_time : Z
}.

(** [set_fcv_cmd = "set_fcv" if task_config.fcv is not None else ""] *)
Definition set_fcv_cmd (tc : task_config) : string :=
  match fcv tc with
  | Some _ => "set_fcv"
  | None => EmptyString
  end.

(** [test_loops], after the Windows override. *)
Definition effective_test_loops (e : main_env) : Z :=
  if IS_WINDOWS e && (10 <? test_loops (tc e)) then 10 else test_loops (tc e).

(** The variables of [main] that live across turns of its loop. *)
Record loop_state : Type := LoopState {
  loop_num : Z;
  test_time : Z;
  backup_path_before : string;
  backup_path_after : string;
  canary_doc : canary;
  local_ops_ : local_ops
}.

(** The loop variables when the loop is entered; [lo] is the
    [LocalToRemoteOperations] object made, and verified, by the set-up. *)
Definition initial_loop_state (e : main_env) (lo : local_ops) : loop_state :=
  LoopState 0 0
    (BACKUP_PATH_BEFORE (pc e) +:+ "-1")
    (BACKUP_PATH_AFTER (pc e) +:+ "-1")
    NoCanary lo.

(** The operations at the end of the first batch of a turn:
    [f" {rsync_cmd}" f" start_mongod" f" {set_fcv_cmd if loop_num == 1 else ''}"
    f" {seed_docs if loop_num == 1 else ''}"]. *)
Definition start_operations (set_fcv_cmd : string) (loop_num : Z) : string :=
  let rsync_cmd := "rsync_data" in
  let seed_docs := "seed_docs" in
  " " +:+ rsync_cmd
  +:+ " start_mongod"
  +:+ " " +:+ (if loop_num =? 1 then set_fcv_cmd else EmptyString)
  +:+ " " +:+ (if loop_num =? 1 then seed_docs else EmptyString).

Section Controller.

Variable e : main_env.

Definition remote_python : string := get_remote_python (IS_WINDOWS e) (pc e).

Definition dispatch (lo : local_ops) (operation : string) : prog globals (Z * string) :=
  call_remote_operation lo remote_python (script_name e) (client_args e) operation.

(** Lines 1870-1904: rsync the data before recovery and start mongod on the
    secret port, then open the tunnel. *)
Definition start_on_secret_port (st : loop_state) : prog globals (string * proc) :=
  let loop_num := loop_num st + 1 in
  log INFO "****Starting test loop %d test time %d seconds****"
    [AInt loop_num; AInt (test_time st)];;
  let new_path_dir := get_backup_path (backup_path_before st) loop_num in
  let rsync_opt := "--rsyncDest " +:+ backup_path_before st +:+ " " +:+ new_path_dir in
  let backup_path_before := new_path_dir in
  let remote_operation :=
    "--remoteOperation"
    +:+ " " +:+ rsync_opt
    +:+ " --mongodHost " +:+ mongod_host e
    +:+ " --mongodPort " +:+ str (SECRET_PORT (pc e))
    +:+ start_operations (set_fcv_cmd (tc e)) loop_num in
  '(ret, output) ← dispatch (local_ops_ st) remote_operation;
  log INFO "****%sstart mongod: %d %s****"
    [AStr "rsync_data beforerecovery & "; AInt ret; AStr output];;
  when (negb (ret =? 0)) (local_exit ret);;
  ssh_tunnel_proc ← setup_ssh_tunnel (mongod_host e) (SECRET_PORT (pc e))
                      (STANDARD_PORT (pc e)) (ssh_connection_options e) (ssh_options e)
                      (ssh_user_host e);
  Ret (backup_path_before, ssh_tunnel_proc).

(** Lines 1906-1935: validate the canary (not on the first turn) and the
    collections through the tunnel, then shut mongod down on the secret
    port.  It answers [temp_client_files]. *)
Definition validate_and_shutdown (st : loop_state) : prog globals (list string) :=
  let loop_num := loop_num st + 1 in
  let validate_canary_local := 1 <? loop_num in
  when validate_canary_local
    (let m := Mongo "localhost" (SECRET_PORT (pc e)) in
     ret ← mongo_validate_canary m (DB_NAME (pc e)) (COLLECTION_NAME (pc e)) (canary_doc st);
     log INFO "Local canary validation: %d" [AInt ret];;
     when (negb (ret =? 0)) (local_exit ret));;
  let host_port := "localhost:" +:+ str (SECRET_PORT (pc e)) in
  new_config_file ← NamedTempFile.create ".yml" "tmp";
  let temp_client_files := [new_config_file] in
  let validation_test_data : gmap string test_value :=
    {[ "skipValidationOnNamespaceNotFound" := TBool true ]} in
  trigger (NewResmokeConfig (CONFIG_CRUD_CLIENT (pc e)) new_config_file
             validation_test_data EmptyString);;
  r ← resmoke_client (pc e) (mongo_repo_root_dir e) (mongo_path e) host_port
        "jstests/hooks/run_validate_collections.js" new_config_file 1 false None;
  let '(ret, output) := default (0, EmptyString) r in
  log INFO "Local collection validation: %d %s" [AInt ret; AStr output];;
  when (negb (ret =? 0)) (local_exit ret);;
  let remote_op :=
    "--remoteOperation --mongodPort " +:+ str (SECRET_PORT (pc e)) +:+ " shutdown_mongod" in
  '(ret, output) ← dispatch (local_ops_ st) remote_op;
  log INFO "****shutdown_mongod: %d %s****" [AInt ret; AStr output];;
  when (negb (ret =? 0)) (local_exit ret);;
  Ret temp_client_files.

(** Lines 1937-1958: rsync the data after recovery, start mongod on the
    standard port and read the boot time from the output. *)
Definition start_on_standard_port (st : loop_state) : prog globals (string * boot_time) :=
  let loop_num := loop_num st + 1 in
  let new_path_dir := get_backup_path (backup_path_after st) loop_num in
  let rsync_opt := "--rsyncDest " +:+ backup_path_after st +:+ " " +:+ new_path_dir in
  let backup_path_after := new_path_dir in
  let remote_op :=
    "--remoteOperation"
    +:+ " " +:+ rsync_opt
    +:+ " --mongodHost " +:+ mongod_host e
    +:+ " --mongodPort " +:+ str (STANDARD_PORT (pc e))
    +:+ " " +:+ "rsync_data"
    +:+ " start_mongod" in
  '(ret, output) ← dispatch (local_ops_ st) remote_op;
  log INFO "****%s start mongod: %d %s****"
    [AStr "rsync_data afterrecovery & "; AInt ret; AStr output];;
  when (negb (ret =? 0)) (local_exit ret);;
  match get_boot_datetime (floats e) output with
  | inl exn => Raise exn
  | inr boot_time_after_recovery => Ret (backup_path_after, boot_time_after_recovery)
  end.

(** Lines 1960-1985: start the CRUD and FSM clients. *)
Definition start_clients : prog globals unit :=
  let host_port := "localhost:" +:+ str (STANDARD_PORT (pc e)) in
  for_each (seqZ 0 (num_crud_clients e)) (fun i =>
    crud_config_file ← NamedTempFile.create ".yml" "tmp";
    let crud_test_data :=
      <[ "collectionName" := TStr (COLLECTION_NAME (pc e) +:+ "-" +:+ str i) ]>
        (crud_test_data e) in
    trigger (NewResmokeConfig (CONFIG_CRUD_CLIENT (pc e)) crud_config_file
               crud_test_data (eval_str e));;
    _ ← resmoke_client (pc e) (mongo_repo_root_dir e) (mongo_path e) host_port
          (CRUD_CLIENT (pc e)) crud_config_file 100 true
          (Some ("crud_" +:+ str i +:+ ".log"));
    Ret tt);;
  log INFO "****Started %d CRUD client(s)****" [AInt (num_crud_clients e)];;
  for_each (seqZ 0 (num_fsm_clients e)) (fun i =>
    fsm_config_file ← NamedTempFile.create ".yml" "tmp";
    let fsm_test_data :=
      <[ "validateCollections" := TBool (i =? 0) ]>
        (<[ "dbNamePrefix" := TStr ("fsm-" +:+ str i) ]> (fsm_test_data e)) in
    trigger (NewResmokeConfig (CONFIG_CRUD_CLIENT (pc e)) fsm_config_file
               fsm_test_data (eval_str e));;
    _ ← resmoke_client (pc e) (mongo_repo_root_dir e) (mongo_path e) host_port
          (FSM_CLIENT (pc e)) fsm_config_file 100 true
          (Some ("fsm_" +:+ str i +:+ ".log"));
    Ret tt);;
  log INFO "****Started %d FSM client(s)****" [AInt (num_fsm_clients e)].

(** Lines 1987-2014: write the canary and crash the server.  It answers
    [orig_canary_doc]. *)
Definition crash (st : loop_state) : prog globals document :=
  t ← trigger TimeTime;
  let canary_doc : document := {[ "x" := DFloat t ]} in
  let orig_canary_doc := canary_doc in
  let m := Mongo "localhost" (STANDARD_PORT (pc e)) in
  let crash_canary := Some (m, DB_NAME (pc e), COLLECTION_NAME (pc e), canary_doc) in
  '(ret, output, canary_doc) ← crash_server_or_kill_mongod (IS_WINDOWS e) (pc e) (tc e)
                                 crash_canary (local_ops_ st) (script_name e) (client_args e);
  log INFO "Crash server or Kill mongod: %d %s****" [AInt ret; AStr output];;
  (if negb (String.eqb (crash_method (tc e)) "internal") && negb (ret =? 0) then
     Raise (Exception ("Crash of server failed: " +:+ output))
   else Ret tt);;
  when (negb (String.eqb (crash_method (tc e)) "kill"))
    (ssh_err ← (if String.eqb (crash_method (tc e)) "internal"
                then trigger (SshError (local_ops_ st) output) else Ret false);
     when ssh_err (ssh_failure_exit ret output);;
     let sleep_secs := if IS_WINDOWS e then 120 else 10 in
     trigger (TimeSleep sleep_secs));;
  Ret orig_canary_doc.

(** Lines 2016-2020: kill the clients and the tunnel, delete the temporary
    files. *)
Definition kill_clients (temp_client_files : list string) (ssh_tunnel_proc : proc)
  : prog globals unit :=
  Processes.kill_all;;
  for_each temp_client_files NamedTempFile.delete;;
  _ ← kill_process ssh_tunnel_proc true;
  Ret tt.

(** Lines 2030-2036: the comparison of the boot times. *)
Definition check_boot_time (boot_time_after_crash boot_time_after_recovery : boot_time)
  : prog globals unit :=
  match boot_time_after_crash, boot_time_after_recovery with
  | BootAt after_crash, BootAt after_recovery =>
      if negb (String.eqb (crash_method (tc e)) "kill")
         && datetime_le after_crash after_recovery then
        Raise (Exception
                 "System boot time after crash is not newer than boot time before crash")
      else Ret tt
  | _, _ =>
      log WARNING
        "Cannot compare boot time after recovery: %s with boot time after crash: %s" []
  end.

(** Lines 2022-2036: reestablish remote access after the crash and compare
    the boot times.  It answers the new [local_ops]. *)
Definition reconnect (boot_time_after_recovery : boot_time) : prog globals local_ops :=
  lo ← trigger (LocalToRemoteOperations (ssh_user_host e) (ssh_connection_options e)
                  (ssh_options e));
  verify_remote_access lo;;
  '(ret, output) ← dispatch lo "--remoteOperation noop";
  match get_boot_datetime (floats e) output with
  | inl exn => Raise exn
  | inr boot_time_after_crash =>
      check_boot_time boot_time_after_crash boot_time_after_recovery;;
      Ret lo
  end.

(** Lines 1870-2020: one turn of the loop up to the point where the clients
    and the tunnel have been killed.  It answers the new backup paths, the
    boot time read after recovery, and [orig_canary_doc]. *)
Definition recover_and_crash (st : loop_state)
  : prog globals (string * string * boot_time * document) :=
  '(backup_path_before, ssh_tunnel_proc) ← start_on_secret_port st;
  temp_client_files ← validate_and_shutdown st;
  '(backup_path_after, boot_time_after_recovery) ← start_on_standard_port st;
  start_clients;;
  orig_canary_doc ← crash st;
  kill_clients temp_client_files ssh_tunnel_proc;;
  Ret (backup_path_before, backup_path_after, boot_time_after_recovery, orig_canary_doc).

(** One turn of the [while True] loop of [main], up to the test
    [if loop_num == test_loops]. *)
Definition main_loop_body (st : loop_state) : prog globals loop_state :=
  let loop_num := loop_num st + 1 in
  '(backup_path_before, backup_path_after, boot_time_after_recovery, orig_canary_doc)
    ← recover_and_crash st;
  lo ← reconnect boot_time_after_recovery;
  let canary_doc := CanaryDoc orig_canary_doc in
  now ← trigger TimeTime;
  let test_time := now - start_time e in
  log INFO "****Completed test loop %d test time %d seconds****"
    [AInt loop_num; AInt test_time];;
  Ret (LoopState loop_num test_time backup_path_before backup_path_after canary_doc lo).

(** Lines 2045-2048: the disk check between two turns. *)
Definition check_disk (st : loop_state) : prog globals unit :=
  '(ret, output) ← dispatch (local_ops_ st) "--remoteOperation check_disk";
  when (negb (ret =? 0))
    (log ERROR "****check_disk: %d %s****" [AInt ret; AStr output]).

(** The [while True] loop of [main]. *)
Fixpoint main_loop (fuel : nat) (st : loop_state) : prog globals unit :=
  match fuel with
  | O => Spin
  | S fuel' =>
      st' ← main_loop_body st;
      if loop_num st' =? effective_test_loops e then Ret tt
      else
        check_disk st';;
        main_loop fuel' st'
  end.

(** The loop of [main] and the assignment after it. *)
Definition main (fuel : nat) (lo : local_ops) : prog globals unit :=
  main_loop fuel (initial_loop_state e lo);;
  modify (set_REPORT_JSON_SUCCESS true).

End Controller.

(** Sequencing of outcomes: what [run] does on a bind. *)
Definition then_outcome {W S A B} (o : outcome W S A) (k : A -> S -> W -> outcome W S B)
  : outcome W S B :=
  match res o with
  | Ok a =>
      let o' := k a (final o) (world o) in
      Outcome (trace o ++ trace o') (world o') (final o') (res o')
  | Raised e => Outcome (trace o) (world o) (final o) (Raised e)
  | OutOfFuel => Outcome (trace o) (world o) (final o) OutOfFuel
  end.

(** A program is [quiet] under a handler when it always returns and leaves
    the state as it found it. *)
Definition quiet {W S A} (h : handler W) (p : prog S A) : Prop :=
  forall s w, (exists a, res (run h p s w) = Ok a) /\ final (run h p s w) = s.

Definition still_alive (p : proc) : event :=
  Ev (Log ERROR "Process %d still alive!" [AInt (pid p)]) tt.

(** A kill that went through: [proc.kill()] returned instead of raising. *)
Definition killed (e : event) : bool :=
  match ev_call e in call X return X -> bool with
  | ProcKill _ => fun x => match x with Found _ => true | NoSuchProcess => false end
  | _ => fun _ => false
  end (ev_answer e).

(** The handle [p] is stale in the worlds [gone]: whatever else happens the
    worlds stay in [gone], and there psutil finds that the creation time of
    [p] is not the one of the process holding its pid (or that there is no
    such process), so that [children()] and [kill()] raise
    [psutil.NoSuchProcess]. *)
Definition stale_handle {W} (h : handler W) (p : proc) (gone : W -> Prop) : Prop :=
  (forall X (c : call X) w, gone w -> gone (h X c w).1) /\
  (forall w, gone w ->
     (h _ (ProcChildren p true) w).2 = NoSuchProcess /\
     (h _ (ProcKill p) w).2 = NoSuchProcess).

Definition could_not_kill (p : proc) : event :=
  Ev (Log WARNING "Could not kill process %d, as it no longer exists" [AInt (pid p)]) tt.

(** ** A simulated host to run the programs on *)

(** The processes alive on the host, and the pids that survive a kill. *)
Record ps_table : Type := PsTable { live : list proc; immortal : list Z }.

Definition proc_eqb (p q : proc) : bool :=
  (pid p =? pid q) && (create_time p =? create_time q).

Definition is_running (t : ps_table) (p : proc) : bool := existsb (proc_eqb p) (live t).

Definition pid_exists (t : ps_table) (n : Z) : bool :=
  existsb (fun q => pid q =? n) (live t).

Definition table_kill (t : ps_table) (p : proc) : ps_table :=
  if existsb (Z.eqb (pid p)) (immortal t) then t
  else PsTable (List.filter (fun q => negb (proc_eqb p q)) (live t)) (immortal t).

(** [contains sub s]: [sub in s]. *)
Fixpoint contains (sub s : string) : bool :=
  String.prefix sub s
  || match s with
     | EmptyString => false
     | String _ s' => contains sub s'
     end.

(** The simulated world: a clock, a process table, counters for the pids and
    the file names it hands out, the canary collection, and the answers that
    a scenario fixes ([scripted]); every other call gets a plain answer. *)
Record sim : Type := Sim {
  clock : Z;
  table : ps_table;
  spawned : Z;
  temp_files : Z;
  collection : list document;
  scripted : forall X, call X -> option X
}.

Definition nothing_scripted : forall X, call X -> option X := fun _ _ => None.

Definition new_sim (scripted : forall X, call X -> option X) : sim :=
  Sim 0 (PsTable [] []) 0 0 [] scripted.

Definition doc_matches (filter_doc stored : document) : bool :=
  forallb (fun kv => bool_decide (stored !! fst kv = Some (snd kv))) (map_to_list filter_doc).

(** The plain answers. *)
Definition plain_answer (X : Type) (c : call X) (w : sim) : sim * X :=
  match c in call X return sim * X with
  | Log _ _ _ => (w, tt)
  | ProcChildren p _ => (w, if is_running (table w) p then Found [] else NoSuchProcess)
  | ProcName p => (w, if pid_exists (table w) (pid p) then Found "python" else NoSuchProcess)
  | ProcKill p =>
      if is_running (table w) p
      then (Sim (clock w) (table_kill (table w) p) (spawned w) (temp_files w)
              (collection w) (scripted w), Found tt)
      else (w, NoSuchProcess)
  | ProcWait _ => (w, -9)
  | WaitProcs ps _ =>
      (w, (List.filter (fun p => negb (is_running (table w) p)) ps,
           List.filter (is_running (table w)) ps))
  | OsPathExists _ => (w, true)
  | OsStatSize _ => (w, Some 5)
  | OsPathIsdir _ => (w, true)
  | OsMakedirs _ => (w, tt)
  | OsRename _ _ => (w, tt)
  | OsRemove _ => (w, true)
  | TimeTime => (w, clock w)
  | TimeSleep secs =>
      (Sim (clock w + secs) (table w) (spawned w) (temp_files w) (collection w)
         (scripted w), tt)
  | RandomRandint a _ => (w, a)
  | QueryServiceStatus _ => (w, WinOk 1)
  | StopService _ => (w, WinOk tt)
  | AbsPath path => (w, path)
  | PrintUptime => (w, tt)
  | NewMongodControl _ _ _ _ _ => (w, tt)
  | InternalCrash => (w, (1, "Crash did not occur"))
  | KillMongod => (w, (0, "killed"))
  | MongodInstall _ _ => (w, (0, "installed"))
  | MongodUpdate => (w, (0, "updated"))
  | MongodStart => (w, (0, "started"))
  | MongodStop _ => (w, (0, "stopped"))
  | MongodStatus => (w, "stopped")
  | MongodGetPids => (w, [4242])
  | ChmodWFile _ => (w, tt)
  | SetWindowsBootstatuspolicy => (w, (0, "ok"))
  | AdminCommand _ _ _ => (w, Reply 1 "ok")
  | MongoReconfigReplication _ _ _ => (w, 0)
  | WaitForMongodShutdown => (w, 0)
  | Rsync _ _ _ => (w, (0, "rsync done"))
  | MongoSeedDocs _ _ _ _ => (w, 0)
  | DiskPartitions => (w, [])
  | ExecuteCmd _ _ => (w, (0, "done"))
  | LocalToRemoteOperations user_host _ _ => (w, LocalOps user_host true (0, "connected"))
  | Shell _ _ => (w, (0, "done"))
  | SshError _ _ => (w, false)
  | StartCmd _ _ =>
      let p := Proc (1000 + spawned w) (clock w) in
      (Sim (clock w) (PsTable (live (table w) ++ [p]) (immortal (table w)))
         (spawned w + 1) (temp_files w) (collection w) (scripted w), p)
  | FindOne _ _ _ doc => (w, existsb (doc_matches doc) (collection w))
  | InsertOne _ _ _ doc =>
      let doc' := <[ "_id" := DObjectId (Z.of_nat (length (collection w))) ]> doc in
      (Sim (clock w) (table w) (spawned w) (temp_files w) (collection w ++ [doc'])
         (scripted w), (doc', true))
  | NamedTemporaryFile suffix directory =>
      (Sim (clock w) (table w) (spawned w) (temp_files w + 1) (collection w) (scripted w),
       directory +:+ "/tmp" +:+ str (temp_files w) +:+ suffix)
  | NewResmokeConfig _ _ _ _ => (w, tt)
  end.

(** The handler of the simulated world: the scripted answer when there is
    one (the world then moves as for the plain answer), the plain one
    otherwise. *)
Definition simulate : handler sim :=
  fun X c w =>
    match scripted w X c with
    | Some x => (fst (plain_answer X c w), x)
    | None => plain_answer X c w
    end.

(** A Windows service that stays in stop pending. *)
Definition stop_pending_forever : forall X, call X -> option X :=
  fun X c =>
    match c in call X return option X with
    | QueryServiceStatus _ => Some (WinOk WindowsService.SERVICE_STOP_PENDING)
    | _ => None
    end.

Definition test_service : service :=
  Service "mongod-powercycle-test" "mongod" "/data/mci/bin/mongod" "--port 20000"
    (Some "/data/db") [4242].

(** The service that [MongodControl.install] makes: [db_path=None], and no
    pid before the service is started. *)
Definition installed_service : service :=
  Service "mongod-powercycle-test" "mongod" "/data/mci/bin/mongod" "--port 20000"
    None [].

(** The event is not a status query, or it is one that was answered
    stop pending. *)
Definition status_is_stop_pending (ev : event) : bool :=
  match ev_call ev in call X return X -> bool with
  | QueryServiceStatus _ => fun x =>
      match x with
      | WinOk svc_state => svc_state =? WindowsService.SERVICE_STOP_PENDING
      | WinError _ _ _ => false
      end
  | _ => fun _ => true
  end (ev_answer ev).

(** The last character of a string, and strings without a newline. *)
Fixpoint last_char (s : string) : option ascii :=
  match s with
  | EmptyString => None
  | String c EmptyString => Some c
  | String _ s' => last_char s'
  end.

Fixpoint no_newline (s : string) : bool :=
  match s with
  | EmptyString => true
  | String c s' => negb (Ascii.eqb c newline) && no_newline s'
  end.

(** The event is a directory rename. *)
Definition is_rename (ev : event) : bool :=
  match ev_call ev with
  | OsRename _ _ => true
  | _ => false
  end.

(** The event is one of the two calls that the [stop_mongod] operation
    makes: [mongod.stop()] with its default timeout of 0, and
    [wait_for_mongod_shutdown]. *)
Definition is_stop_mongod_call (ev : event) : bool :=
  match ev_call ev with
  | MongodStop timeout => timeout =? 0
  | WaitForMongodShutdown => true
  | _ => false
  end.

(** A host on which [pkill] finds nothing to kill. *)
Definition kill_mongod_fails : forall X, call X -> option X :=
  fun X c =>
    match c in call X return option X with
    | KillMongod => Some (1, "Error executing cmd pkill -9 mongod")
    | _ => None
    end.

Definition test_constants : powercycle_constants :=
  Constants "/data/mci" "/data/db" "/log/mongod.log" ["diagnostic.data/metrics.interim*"]
    "power" "cycle" 20001 20000 "/data/mci/beforerecovery" "/data/mci/afterrecovery"
    45 5 "jstests/hooks/crud_client.js" "jstests/libs/fsm_serial_client.js"
    "buildscripts/resmokeconfig/suites/with_external_server.yml"
    "buildscripts/resmoke.py" "venv_powercycle".

Definition test_task_config (method : string) (fcv : option string) (loops : Z) : task_config :=
  TaskConfig "--setParameter enableTestCommands=1" None fcv 10001 method loops.

Definition test_agent_options (operations : list string) : agent_options :=
  AgentOptions operations 20000 (Some ("/data/mci/beforerecovery-1", "/data/mci/beforerecovery-2"))
    "latest".

(** The words of a command line: what is left between blanks. *)
Fixpoint words_from (cur s : string) : list string :=
  match s with
  | EmptyString => if String.eqb cur EmptyString then [] else [cur]
  | String c s' =>
      if Ascii.eqb c " " then
        (if String.eqb cur EmptyString then words_from EmptyString s'
         else cur :: words_from EmptyString s')
      else words_from (cur +:+ String c EmptyString) s'
  end.

Definition words (s : string) : list string := words_from EmptyString s.

(** [shlex.split] of a string that has no quotation mark and no backslash:
    its words, and no exception. *)
Definition split_words (s : string) : py_exn + list string := inr (words s).

(** A controller set up for two clients of each kind. *)
Definition test_env (method : string) (fcv : option string) (loops : Z) : main_env :=
  MainEnv false test_constants (test_task_config method fcv loops) decimal_float
    "ec2-user@10.0.0.7" "10.0.0.7" "-o ConnectTimeout=10" "-tt"
    "/data/mci/buildscripts/resmoke.py" "powercycle run --sshUserHost ec2-user@10.0.0.7"
    "/data/mci/dist-test/bin/mongo" "/data/mci/src"
    {[ "dbName" := TStr "power" ]} {[ "fsmDbBlacklist" := TList ["power"] ]}
    EmptyString 2 2 1700000000.

Definition connected : local_ops := LocalOps "ec2-user@10.0.0.7" true (0, "connected").

(** The agent's output carries the uptime line of [print_uptime]; the host
    was booted at [hh:mm:ss] on 4 November 2026. *)
Definition uptime_line (hh mm ss : string) : string :=
  "INFO System was last booted 2026-11-04 " +:+ hh +:+ ":" +:+ mm +:+ ":" +:+ ss
  +:+ ".000000, up 100 seconds".

(** A host that reboots on every crash: the boot time read by the [noop]
    after the crash is later than the one read when mongod was started. *)
Definition rebooting_host : forall X, call X -> option X :=
  fun X c =>
    match c in call X return option X with
    | Shell _ cmds =>
        if contains "noop" cmds then Some (0, uptime_line "10" "30" "00")
        else if contains "crash_server" cmds then Some (255, "Connection closed")
        else Some (0, uptime_line "10" "00" "00")
    | _ => None
    end.

(** The commands sent through [local_ops.shell], in order. *)
Definition shell_commands (tr : list event) : list string :=
  flat_map (fun ev => match ev_call ev with Shell _ cmds => [cmds] | _ => [] end) tr.

(** The message of the boot time check. *)
Definition boot_time_not_newer : py_exn :=
  Exception "System boot time after crash is not newer than boot time before crash".

(** The event is the warning of the boot time check. *)
Definition is_cannot_compare (ev : event) : bool :=
  match ev_call ev with
  | Log WARNING fmt _ =>
      String.eqb fmt
        "Cannot compare boot time after recovery: %s with boot time after crash: %s"
  | _ => false
  end.

(** A host whose sshd refuses the connection when the first batch is sent. *)
Definition start_batch_refused : forall X, call X -> option X :=
  fun X c =>
    match c in call X return option X with
    | Shell _ cmds =>
        if contains "start_mongod" cmds
        then Some (255, "ssh: connect to host 10.0.0.7 port 22: Connection refused")
        else None
    | _ => None
    end.

(** A host that does not come back after the crash. *)
Definition host_stays_down : forall X, call X -> option X :=
  fun X c =>
    match c in call X return option X -> option X with
    | LocalToRemoteOperations user_host _ _ => fun _ =>
        Some (LocalOps user_host false
                (255, "ssh: connect to host 10.0.0.7 port 22: Connection timed out"))
    | _ => fun otherwise => otherwise
    end (rebooting_host X c).

(** An agent that logs errors only: its output has no uptime line. *)
Definition quiet_agent : forall X, call X -> option X :=
  fun X c =>
    match c in call X return option X with
    | Shell _ cmds =>
        if contains "crash_server" cmds then Some (255, "Connection closed")
        else Some (0, EmptyString)
    | _ => None
    end.

(** [a <= b] on what [get_boot_datetime] returns; [None] when Python cannot
    compare the two (a datetime with -1). *)
Definition boot_time_le (a b : boot_time) : option bool :=
  match a, b with
  | BootAt x, BootAt y => Some (datetime_le x y)
  | NoBootTime, NoBootTime => Some true
  | _, _ => None
  end.

(** ** The turns of a run *)

(** A program avoids the calls of [which] when none of them is at a node of
    its tree. *)
Fixpoint avoids (which : forall X, call X -> bool) {St A} (p : prog St A) : Prop :=
  match p with
  | Ret _ | Raise _ | Spin => True
  | Get k => forall s, avoids which (k s)
  | Put _ k => avoids which k
  | Vis c k => which _ c = false /\ forall x, avoids which (k x)
  end.

(** [holds p tr Q]: whatever the state and the answers of the collaborators,
    when [p], started after the calls [tr], returns [a], the calls made up to
    then and [a] satisfy [Q]. *)
Fixpoint holds {St A} (p : prog St A) (tr : list event) (Q : list event -> A -> Prop)
  : Prop :=
  match p with
  | Ret a => Q tr a
  | Raise _ | Spin => True
  | Get k => forall s, holds (k s) tr Q
  | Put _ k => holds k tr Q
  | Vis c k => forall x, holds (k x) (tr ++ [Ev c x]) Q
  end.

Definition none_of (which : forall X, call X -> bool) (tr : list event) : bool :=
  forallb (fun ev => negb (which _ (ev_call ev))) tr.

(** The lookup of the canary: [find_one]. *)
Definition find_one_call (X : Type) (c : call X) : bool :=
  match c with
  | FindOne _ _ _ _ => true
  | _ => false
  end.

(** The turns that a run of the loop makes: for each, the loop variables it
    starts with and how it goes; between two turns, the disk check. *)
Fixpoint turns {W} (h : handler W) (e : main_env) (fuel : nat) (st : loop_state)
    (s : globals) (w : W) : list (loop_state * outcome W globals loop_state) :=
  match fuel with
  | O => []
  | S fuel' =>
      let o := run h (main_loop_body e st) s w in
      (st, o) ::
      match res o with
      | Ok st' =>
          if loop_num st' =? effective_test_loops e then []
          else
            let oc := run h (check_disk e st') (final o) (world o) in
            turns h e fuel' st' (final oc) (world oc)
      | _ => []
      end
  end.

(** The calls of a turn of loop 2 or later, from its start to the lookup of
    the canary [d], when the first batch has succeeded: the start of mongod
    on the secret port, the tunnel, the lookup. *)
Definition starts_with_canary_lookup (e : main_env) (st : loop_state) (d : document)
    (tr : list event) : Prop :=
  exists fmt args cmd output tunnel_cmd tunnel found rest,
    tr = Ev (Log INFO fmt args) tt
         :: Ev (Shell (local_ops_ st) cmd) (0, output)
         :: Ev (Log INFO "****%sstart mongod: %d %s****"
                  [AStr "rsync_data beforerecovery & "; AInt 0; AStr output]) tt
         :: Ev (Log INFO "Tunneling mongod connections through ssh to get around firewall"
                  []) tt
         :: Ev (Log INFO tunnel_cmd []) tt
         :: Ev (StartCmd tunnel_cmd false) tunnel
         :: Ev (Log INFO
                  "The connection is not terminated because the host can be shut down at anytime"
                  []) tt
         :: Ev (Log INFO "Validating canary document using %s.%s.find_one(%s)"
                  [AStr (DB_NAME (pc e)); AStr (COLLECTION_NAME (pc e))]) tt
         :: Ev (FindOne (Mongo "localhost" (SECRET_PORT (pc e))) (DB_NAME (pc e))
                  (COLLECTION_NAME (pc e)) d) found
         :: rest.

(** The calls of a turn whose first batch fails: the run exits there. *)
Definition stops_at_first_batch (st : loop_state) (tr : list event) : Prop :=
  exists fmt args cmd ret output,
    ret <> 0 /\
    tr = [ Ev (Log INFO fmt args) tt;
           Ev (Shell (local_ops_ st) cmd) (ret, output);
           Ev (Log INFO "****%sstart mongod: %d %s****"
                 [AStr "rsync_data beforerecovery & "; AInt ret; AStr output]) tt ].

(** The canary [d] is inserted during the calls [tr], through the standard
    port. *)
Definition inserts_canary (e : main_env) (d : document) (tr : list event) : Prop :=
  exists ans,
    In (Ev (InsertOne (Mongo "localhost" (STANDARD_PORT (pc e))) (DB_NAME (pc e))
              (COLLECTION_NAME (pc e)) d) ans) tr.

(** The calls of one turn together with those of the disk check after it. *)
Definition turn_calls {W} (h : handler W) (e : main_env)
    (t : loop_state * outcome W globals loop_state) : list event :=
  let '(_, o) := t in
  trace o ++
  match res o with
  | Ok st' =>
      if loop_num st' =? effective_test_loops e then []
      else trace (run h (check_disk e st') (final o) (world o))
  | _ => []
  end.

(** ** Scenarios *)

(** A handle made for pid 42 when that pid was held by a process created at
    time 100; the pid is now held by a process created at time 200. *)
Definition stale_proc : proc := Proc 42 100.

Definition reused_pid_world : sim :=
  Sim 300 (PsTable [Proc 42 200] []) 0 0 [] nothing_scripted.

(** The worlds in which [stale_proc] is not running. *)
Definition stale_proc_gone (w : sim) : Prop :=
  (forall X (c : call X), scripted w X c = None) /\
  is_running (table w) stale_proc = false /\ 0 <= spawned w.

(** A host that is up again after the crash with the boot time it had
    before: the crash did not happen. *)
Definition host_not_rebooted : forall X, call X -> option X :=
  fun X c =>
    match c in call X return option X with
    | Shell _ cmds =>
        if contains "crash_server" cmds then Some (255, "Connection closed")
        else Some (0, uptime_line "10" "00" "00")
    | _ => None
    end.

(** ** Every run of a program *)

(** [wp p s tr Q]: whatever the collaborators answer, when [p] is run in the
    state [s] after the calls [tr], the calls made up to the end, the final
    state and the way the run ends satisfy [Q]. *)
Fixpoint wp {St A} (p : prog St A) (s : St) (tr : list event)
    (Q : list event -> St -> result A -> Prop) : Prop :=
  match p with
  | Ret a => Q tr s (Ok a)
  | Raise exn => Q tr s (Raised exn)
  | Spin => Q tr s OutOfFuel
  | Get k => wp (k s) s tr Q
  | Put s' k => wp k s' tr Q
  | Vis c k => forall x, wp (k x) s (tr ++ [Ev c x]) Q
  end.

(** What [wp] asks of the rest of a sequence, given how its first part
    ended. *)
Definition and_then {St A B} (f : A -> prog St B)
    (Q : list event -> St -> result B -> Prop) : list event -> St -> result A -> Prop :=
  fun tr s r =>
    match r with
    | Ok a => wp (f a) s tr Q
    | Raised exn => Q tr s (Raised exn)
    | OutOfFuel => Q tr s OutOfFuel
    end.

(** A program [preserves] a property of the state when every state it
    writes has the property, provided the states it reads have it. *)
Fixpoint preserves {St A} (I : St -> Prop) (p : prog St A) : Prop :=
  match p with
  | Ret _ | Raise _ | Spin => True
  | Get k => forall s, I s -> preserves I (k s)
  | Put s k => I s /\ preserves I k
  | Vis c k => forall x, preserves I (k x)
  end.

(** What is asked of a run only when it ends normally. *)
Definition when_done {St A} (J : list event -> St -> Prop)
  : list event -> St -> result A -> Prop :=
  fun tr s r => match r with Ok _ => J tr s | _ => True end.

(** A program that has no loop left to run out of fuel. *)
Fixpoint no_spin {St A} (p : prog St A) : Prop :=
  match p with
  | Ret _ | Raise _ => True
  | Spin => False
  | Get k => forall s, no_spin (k s)
  | Put _ k => no_spin k
  | Vis c k => forall x, no_spin (k x)
  end.

(** ** What is seen in the calls of a run *)

(** The processes waited for with [proc.wait()], in order. *)
Definition waited (tr : list event) : list proc :=
  flat_map (fun ev => match ev_call ev with ProcWait p => [p] | _ => [] end) tr.

(** The processes whose name was asked for, in order: [kill_process] asks
    for the name of each process right before it kills it. *)
Definition named (tr : list event) : list proc :=
  flat_map (fun ev => match ev_call ev with ProcName p => [p] | _ => [] end) tr.

(** The processes on which [kill()] was called, in order. *)
Definition kill_calls (tr : list event) : list proc :=
  flat_map (fun ev => match ev_call ev with ProcKill p => [p] | _ => [] end) tr.

(** The calls of [children()], with the handle, the flag and the answer. *)
Definition listed_children (tr : list event) : list (proc * bool * psutil (list proc)) :=
  flat_map (fun ev =>
              match ev_call ev in call X return X -> list (proc * bool * psutil (list proc)) with
              | ProcChildren p recursive => fun ans => [(p, recursive, ans)]
              | _ => fun _ => []
              end (ev_answer ev)) tr.

(** The durations of the calls of [time.sleep], in order. *)
Definition slept (tr : list event) : list Z :=
  flat_map (fun ev => match ev_call ev with TimeSleep secs => [secs] | _ => [] end) tr.

(** The answers of [time.time()], in order. *)
Definition clock_readings (tr : list event) : list Z :=
  flat_map (fun ev =>
              match ev_call ev in call X return X -> list Z with
              | TimeTime => fun now => [now]
              | _ => fun _ => []
              end (ev_answer ev)) tr.

(** The answers of [mongod.status()], in order. *)
Definition status_answers (tr : list event) : list string :=
  flat_map (fun ev =>
              match ev_call ev in call X return X -> list string with
              | MongodStatus => fun st => [st]
              | _ => fun _ => []
              end (ev_answer ev)) tr.

(** The commands run with [execute_cmd], with [use_file] and the answer. *)
Definition executed (tr : list event) : list (string * bool * (Z * string)) :=
  flat_map (fun ev =>
              match ev_call ev in call X return X -> list (string * bool * (Z * string)) with
              | ExecuteCmd cmd use_file => fun r => [(cmd, use_file, r)]
              | _ => fun _ => []
              end (ev_answer ev)) tr.

(** The [admin.command] calls, by the name of the command. *)
Definition admin_commands (tr : list event) : list string :=
  flat_map (fun ev => match ev_call ev with AdminCommand _ name _ => [name] | _ => [] end) tr.

(** The directories made with [os.makedirs]. *)
Definition made_dirs (tr : list event) : list string :=
  flat_map (fun ev => match ev_call ev with OsMakedirs path => [path] | _ => [] end) tr.

(** The paths given to [chmod_w_file]. *)
Definition chmod_paths (tr : list event) : list string :=
  flat_map (fun ev => match ev_call ev with ChmodWFile path => [path] | _ => [] end) tr.

(** The files removed with [os.remove]. *)
Definition removed_files (tr : list event) : list string :=
  flat_map (fun ev => match ev_call ev with OsRemove path => [path] | _ => [] end) tr.

(** The calls of [os.path.exists], with the path and the answer. *)
Definition path_exists_answers (tr : list event) : list (string * bool) :=
  flat_map (fun ev =>
              match ev_call ev in call X return X -> list (string * bool) with
              | OsPathExists path => fun ans => [(path, ans)]
              | _ => fun _ => []
              end (ev_answer ev)) tr.

(** The calls of [os.path.isdir], with the path and the answer. *)
Definition isdir_answers (tr : list event) : list (string * bool) :=
  flat_map (fun ev =>
              match ev_call ev in call X return X -> list (string * bool) with
              | OsPathIsdir path => fun ans => [(path, ans)]
              | _ => fun _ => []
              end (ev_answer ev)) tr.

(** The names answered by [tempfile.NamedTemporaryFile]. *)
Definition temp_names (tr : list event) : list string :=
  flat_map (fun ev =>
              match ev_call ev in call X return X -> list string with
              | NamedTemporaryFile _ _ => fun name => [name]
              | _ => fun _ => []
              end (ev_answer ev)) tr.

(** The calls of [win32serviceutil.StopService], with the service name and
    the answer. *)
Definition stop_service_answers (tr : list event) : list (string * win32 unit) :=
  flat_map (fun ev =>
              match ev_call ev in call X return X -> list (string * win32 unit) with
              | StopService name => fun ans => [(name, ans)]
              | _ => fun _ => []
              end (ev_answer ev)) tr.

(** The calls of [win32serviceutil] in their order, with the service name:
    the answers of [QueryServiceStatus] to the left, those of [StopService]
    to the right. *)
Definition win32_calls (tr : list event) : list (string * (win32 Z + win32 unit)) :=
  flat_map (fun ev =>
              match ev_call ev in call X return X -> list (string * (win32 Z + win32 unit)) with
              | QueryServiceStatus name => fun ans => [(name, inl ans)]
              | StopService name => fun ans => [(name, inr ans)]
              | _ => fun _ => []
              end (ev_answer ev)) tr.

(** The string that [WindowsService.status] makes of an answer of
    [QueryServiceStatus]. *)
Definition status_of_answer (ans : win32 Z) : string :=
  match ans with
  | WinOk svc_state =>
      match WindowsService.states_lookup svc_state with
      | Some st => st
      | None => "unknown"
      end
  | WinError _ _ _ => "not installed"
  end.

(** A call of [QueryServiceStatus] for the service [name]. *)
Definition is_status_query (name : string) (c : string * (win32 Z + win32 unit)) : Prop :=
  exists ans, c = (name, inl ans).

(** The answers of [mongod.start()]. *)
Definition mongod_start_answers (tr : list event) : list (Z * string) :=
  flat_map (fun ev =>
              match ev_call ev in call X return X -> list (Z * string) with
              | MongodStart => fun ans => [ans]
              | _ => fun _ => []
              end (ev_answer ev)) tr.

(** The answers of [mongod.install(root_dir, tarball_url)]. *)
Definition mongod_install_answers (tr : list event) : list (Z * string) :=
  flat_map (fun ev =>
              match ev_call ev in call X return X -> list (Z * string) with
              | MongodInstall _ _ => fun ans => [ans]
              | _ => fun _ => []
              end (ev_answer ev)) tr.

(** The answers of [set_windows_bootstatuspolicy()]. *)
Definition bootstatuspolicy_answers (tr : list event) : list (Z * string) :=
  flat_map (fun ev =>
              match ev_call ev in call X return X -> list (Z * string) with
              | SetWindowsBootstatuspolicy => fun ans => [ans]
              | _ => fun _ => []
              end (ev_answer ev)) tr.

(** The answers of the helper [kill_mongod()] of the agent. *)
Definition kill_mongod_answers (tr : list event) : list (Z * string) :=
  flat_map (fun ev =>
              match ev_call ev in call X return X -> list (Z * string) with
              | KillMongod => fun ans => [ans]
              | _ => fun _ => []
              end (ev_answer ev)) tr.

(** The calls of [mongod.stop(timeout)], with the timeout and the answer. *)
Definition mongod_stop_answers (tr : list event) : list (Z * (Z * string)) :=
  flat_map (fun ev =>
              match ev_call ev in call X return X -> list (Z * (Z * string)) with
              | MongodStop timeout => fun ans => [(timeout, ans)]
              | _ => fun _ => []
              end (ev_answer ev)) tr.

(** The [admin.command] calls, with the name of the command and the
    answer. *)
Definition admin_answers (tr : list event) : list (string * mongo_reply) :=
  flat_map (fun ev =>
              match ev_call ev in call X return X -> list (string * mongo_reply) with
              | AdminCommand _ name _ => fun ans => [(name, ans)]
              | _ => fun _ => []
              end (ev_answer ev)) tr.

(** The number of [buildinfo] commands. *)
Definition buildinfo_attempts (tr : list event) : nat :=
  length (List.filter (fun a => String.eqb a.1 "buildinfo") (admin_answers tr)).

(** The event is an [admin.command] call. *)
Definition is_admin_command (ev : event) : bool :=
  match ev_call ev with AdminCommand _ _ _ => true | _ => false end.

(** The calls that go to the mongod server through pymongo. *)
Definition pymongo_call (X : Type) (c : call X) : bool :=
  match c with
  | AdminCommand _ _ _ | MongoReconfigReplication _ _ _ | MongoSeedDocs _ _ _ _
  | FindOne _ _ _ _ | InsertOne _ _ _ _ => true
  | _ => false
  end.

(** The answers of [psutil.disk_partitions()]. *)
Definition disk_partitions_answers (tr : list event) : list (list (string * string)) :=
  flat_map (fun ev =>
              match ev_call ev in call X return X -> list (list (string * string)) with
              | DiskPartitions => fun ans => [ans]
              | _ => fun _ => []
              end (ev_answer ev)) tr.

(** The calls of [find_one], with the document looked for and the answer. *)
Definition find_one_answers (tr : list event) : list (document * bool) :=
  flat_map (fun ev =>
              match ev_call ev in call X return X -> list (document * bool) with
              | FindOne _ _ _ doc => fun found => [(doc, found)]
              | _ => fun _ => []
              end (ev_answer ev)) tr.

(** The commands sent through [local_ops.shell], with the channel and the
    answer. *)
Definition shell_answers (tr : list event) : list (local_ops * string * (Z * string)) :=
  flat_map (fun ev =>
              match ev_call ev in call X return X -> list (local_ops * string * (Z * string)) with
              | Shell lo cmds => fun ans => [(lo, cmds, ans)]
              | _ => fun _ => []
              end (ev_answer ev)) tr.

(** The commands started with [start_cmd], with [use_file]. *)
Definition started (tr : list event) : list (string * bool) :=
  flat_map (fun ev => match ev_call ev with StartCmd cmd use_file => [(cmd, use_file)] | _ => [] end)
    tr.

(** The canary documents given to [insert_one]. *)
Definition inserted (tr : list event) : list document :=
  flat_map (fun ev => match ev_call ev with InsertOne _ _ _ doc => [doc] | _ => [] end) tr.

(** The processes answered by [start_cmd(cmds, use_file=True)], in order:
    these are the ones that [Processes.create] registers. *)
Definition client_procs (tr : list event) : list proc :=
  flat_map (fun ev =>
              match ev_call ev in call X return X -> list proc with
              | StartCmd _ true => fun p => [p]
              | _ => fun _ => []
              end (ev_answer ev)) tr.

(** The calls of [local_ops.ssh_error], with the output looked at and the
    answer. *)
Definition ssh_error_answers (tr : list event) : list (string * bool) :=
  flat_map (fun ev =>
              match ev_call ev in call X return X -> list (string * bool) with
              | SshError _ output => fun ans => [(output, ans)]
              | _ => fun _ => []
              end (ev_answer ev)) tr.

(** The answers of [random.randint]. *)
Definition randint_answers (tr : list event) : list Z :=
  flat_map (fun ev =>
              match ev_call ev in call X return X -> list Z with
              | RandomRandint _ _ => fun n => [n]
              | _ => fun _ => []
              end (ev_answer ev)) tr.

(** The documents given to [insert_one] and the commands sent through
    [local_ops.shell], in the order of the calls. *)
Definition writes_and_commands (tr : list event) : list (document + string) :=
  flat_map (fun ev =>
              match ev_call ev with
              | InsertOne _ _ _ doc => [inl doc]
              | Shell _ cmds => [inr cmds]
              | _ => []
              end) tr.

(** Classes of calls. *)
Definition proc_children_call (X : Type) (c : call X) : bool :=
  match c with ProcChildren _ _ => true | _ => false end.

Definition start_cmd_call (X : Type) (c : call X) : bool :=
  match c with StartCmd _ _ => true | _ => false end.

(** The calls that bear on the registry of client processes: starting a
    client and waiting for a process. *)
Definition registry_call (X : Type) (c : call X) : bool :=
  match c with
  | StartCmd _ true | ProcWait _ => true
  | _ => false
  end.

(** The registry of [Processes] while clients are started: it holds the
    processes [before] and the clients started since, and none has been
    waited for. *)
Definition clients_registered (before : list proc) (tr : list event) (g : globals) : Prop :=
  _PROC_LIST g = before ++ client_procs tr /\ waited tr = [].

(** The registry once [Processes.kill_all] has run: it is empty, and the
    processes waited for are those that were registered. *)
Definition clients_gone (before : list proc) (tr : list event) (g : globals) : Prop :=
  _PROC_LIST g = [] /\ waited tr = before ++ client_procs tr.

(** ** Operations of the agent *)

(** The operations that [remote_handler] knows. *)
Definition operation_names : list string :=
  [ "noop"; "crash_server"; "kill_mongod"; "install_mongod"; "start_mongod"; "stop_mongod";
    "shutdown_mongod"; "rsync_data"; "seed_docs"; "set_fcv"; "check_disk" ].

Definition supported (operation : string) : bool :=
  existsb (String.eqb operation) operation_names.

(** The partitions that the [check_disk] operation does not skip. *)
Definition checked_partition (part : string * string) : bool :=
  let '(fstype, mountpoint) := part in
  String.eqb fstype "NTFS" && negb (String.eqb mountpoint "C:\").

Definition chkdsk_cmd (part : string * string) : string :=
  "chkdsk '" +:+ splitdrive0 part.2 +:+ "'".

(** ** Waiting for mongod to stop *)

Section Shutdown.

Context {St : Type}.

(** [mongod_control.status()], of the [mongod_control] that is given. *)
Variable mongod_control_status : prog St string.

(** The [while status != "stopped":] loop of [wait_for_mongod_shutdown]
    with the lines after it; [status] is the value of the variable when the
    test of the loop is made. *)
Fixpoint wait_until_stopped (fuel : nat) (start timeout : Z) (status : string)
  : prog St Z :=
  if negb (String.eqb status "stopped") then
    match fuel with
    | O => Spin
    | S fuel' =>
        now ← trigger TimeTime;
        if now - start >=? timeout then
          log ERROR "The mongod process has not stopped, current status is %s"
            [AStr status];;
          Ret 1
        else
          log INFO "Waiting for mongod process to stop, current status is %s "
            [AStr status];;
          trigger (TimeSleep 3);;
          status ← mongod_control_status;
          wait_until_stopped fuel' start timeout status
    end
  else
    log INFO "The mongod process has stopped" [];;
    trigger (TimeSleep 5);;
    Ret 0.

(** [wait_for_mongod_shutdown(mongod_control, timeout)] *)
Definition wait_for_mongod_shutdown (fuel : nat) (timeout : Z) : prog St Z :=
  start ← trigger TimeTime;
  status ← mongod_control_status;
  wait_until_stopped fuel start timeout status.

(** The [while True:] loop of [mongo_shell]; [attempt_num] is the value of
    the variable when the body is entered. *)
Fixpoint mongo_shell_loop (fuel : nat) (cmds : string) (retries retry_sleep attempt_num : Z)
  : prog St (Z * string) :=
  match fuel with
  | O => Spin
  | S fuel' =>
      '(ret, output) ← trigger (ExecuteCmd cmds true);
      if ret =? 0 then Ret (ret, output)
      else
        let attempt_num := attempt_num + 1 in
        if attempt_num >? retries then Ret (ret, output)
        else
          trigger (TimeSleep retry_sleep);;
          mongo_shell_loop fuel' cmds retries retry_sleep attempt_num
  end.

(** [mongo_shell(mongo_path, work_dir, host_port, mongo_cmds, retries,
    retry_sleep)] *)
Definition mongo_shell (fuel : nat) (mongo_path work_dir host_port mongo_cmds : string)
    (retries retry_sleep : Z) : prog St (Z * string) :=
  let cmds :=
    "cd " +:+ pipes_quote work_dir +:+ "; echo " +:+ pipes_quote mongo_cmds
    +:+ " | " +:+ pipes_quote mongo_path +:+ " " +:+ host_port in
  let attempt_num := 0 in
  mongo_shell_loop fuel cmds retries retry_sleep attempt_num.

End Shutdown.

(** A handler keeps time in [clock] over the worlds [good]: [time.time()]
    answers the clock, [time.sleep(secs)] moves it by [secs] at least, and
    no call moves it back. *)
Definition duration (X : Type) (c : call X) : Z :=
  match c with TimeSleep secs => secs | _ => 0 end.

Definition keeps_time {W} (h : handler W) (clock : W -> Z) (good : W -> Prop) : Prop :=
  (forall X (c : call X) w,
      good w -> good (h X c w).1 /\ clock w + duration X c <= clock (h X c w).1) /\
  (forall w, good w -> (h _ TimeTime w).2 = clock w).

(** The worlds of the simulation in which no answer is scripted but those of
    [script]. *)
Definition scripted_by (script : forall X, call X -> option X) (w : sim) : Prop :=
  forall X (c : call X), scripted w X c = script X c.

(** A mongod that does not stop. *)
Definition mongod_keeps_running : forall X, call X -> option X :=
  fun X c =>
    match c in call X return option X with
    | MongodStatus => Some "running"
    | _ => None
    end.

(** A mongo shell that cannot connect. *)
Definition shell_never_connects : forall X, call X -> option X :=
  fun X c =>
    match c in call X return option X with
    | ExecuteCmd _ _ => Some (1, "Error executing cmd: connect failed")
    | _ => None
    end.

(** ** The commands of a turn *)

Section Commands.

Variable e : main_env.

(** The command line that [call_remote_operation] sends for [operation]. *)
Definition dispatch_command (operation : string) : string :=
  remote_python e +:+ " " +:+ script_name e +:+ " " +:+ client_args e +:+ " " +:+ operation.

(** The first batch of a turn that starts with the loop variables [st]. *)
Definition start_batch_command (st : loop_state) : string :=
  let loop_num := loop_num st + 1 in
  let new_path_dir := get_backup_path (backup_path_before st) loop_num in
  let rsync_opt := "--rsyncDest " +:+ backup_path_before st +:+ " " +:+ new_path_dir in
  dispatch_command
    ("--remoteOperation"
     +:+ " " +:+ rsync_opt
     +:+ " --mongodHost " +:+ mongod_host e
     +:+ " --mongodPort " +:+ str (SECRET_PORT (pc e))
     +:+ start_operations (set_fcv_cmd (tc e)) loop_num).

(** The command of the tunnel. *)
Definition ssh_tunnel_command : string :=
  let ssh_tunnel_opts :=
    "-L " +:+ str (SECRET_PORT (pc e)) +:+ ":" +:+ mongod_host e +:+ ":"
    +:+ str (SECRET_PORT (pc e))
    +:+ " -L " +:+ str (STANDARD_PORT (pc e)) +:+ ":" +:+ mongod_host e +:+ ":"
    +:+ str (STANDARD_PORT (pc e)) in
  "ssh -N " +:+ ssh_tunnel_opts +:+ " " +:+ ssh_connection_options e +:+ " "
  +:+ ssh_options e +:+ " " +:+ ssh_user_host e.

(** The calls of [start_on_secret_port] when the first batch has been
    answered [(ret, output)], up to the test of [ret]. *)
Definition start_batch_calls (st : loop_state) (ret : Z) (output : string) : list event :=
  [ Ev (Log INFO "****Starting test loop %d test time %d seconds****"
          [AInt (loop_num st + 1); AInt (test_time st)]) tt;
    Ev (Shell (local_ops_ st) (start_batch_command st)) (ret, output);
    Ev (Log INFO "****%sstart mongod: %d %s****"
          [AStr "rsync_data beforerecovery & "; AInt ret; AStr output]) tt ].

(** The calls of [setup_ssh_tunnel]. *)
Definition tunnel_calls (tunnel : proc) : list event :=
  [ Ev (Log INFO "Tunneling mongod connections through ssh to get around firewall" []) tt;
    Ev (Log INFO ssh_tunnel_command []) tt;
    Ev (StartCmd ssh_tunnel_command false) tunnel;
    Ev (Log INFO
          "The connection is not terminated because the host can be shut down at anytime"
          []) tt ].

(** The command that crashes the server, or kills mongod. *)
Definition crash_command : string :=
  let crash_cmd :=
    if String.eqb (crash_method (tc e)) "internal" then "crash_server" else "kill_mongod" in
  get_remote_python (IS_WINDOWS e) (pc e) +:+ " " +:+ script_name e +:+ " " +:+ client_args e
  +:+ " --remoteOperation " +:+ crash_cmd.

End Commands.

(** The success flag of the report has not been set. *)
Definition not_yet_successful (g : globals) : Prop := REPORT_JSON_SUCCESS g = false.

(** ** Scenarios of the loop *)

(** The loop variables at the start of loop 2, a canary having been written
    at time 55. *)
Definition second_turn_state (e : main_env) : loop_state :=
  LoopState 1 60
    (BACKUP_PATH_BEFORE (pc e) +:+ "-1") (BACKUP_PATH_AFTER (pc e) +:+ "-1")
    (CanaryDoc {[ "x" := DFloat 55 ]}) connected.

(** A host on which the install finds no [bin] directory under the root
    directory: [MongodControl.install] then returns code 1. *)
Definition install_finds_no_bin_dir : forall X, call X -> option X :=
  fun X c =>
    match c in call X return option X with
    | MongodInstall root_dir _ => Some (1, "No bin dir can be found under " +:+ root_dir)
    | _ => None
    end.

(** A server that has lost the canary. *)
Definition canary_lost : forall X, call X -> option X :=
  fun X c =>
    match c in call X return option X -> option X with
    | FindOne _ _ _ _ => fun _ => Some false
    | _ => fun otherwise => otherwise
    end (rebooting_host X c).

(** The names that [MongodControl.__init__] sets itself. *)
Definition forced_options (IS_WINDOWS : bool) : list string :=
  [ "dbpath"; "logpath"; "logappend"; "port"; "bind_ip";
    if IS_WINDOWS then "service" else "fork" ].

(** The tokens of the options of a dict, as [mongod_options] writes them. *)
Definition option_tokens (options_map : options_dict) : list string :=
  flat_map (fun '(opt_name, (opt_val, opt_form)) =>
              (opt_form +:+ opt_name)
              :: (if opt_truthy opt_val then [opt_format opt_val] else []))
    options_map.

(** An entry that [parse_options] reads back as it is written: the form is
    a dash or two, the name is not empty, has no equals sign and, with a
    single dash, does not start with a dash; the value is [None] or a
    string that is not empty and does not start with a dash. *)
Definition plain_entry (entry : string * (opt_value * string)) : bool :=
  let '(opt_name, (opt_val, opt_form)) := entry in
  (String.eqb opt_form "--"
   || (String.eqb opt_form "-" && negb (String.prefix "-" opt_name)))
  && negb (String.eqb opt_name EmptyString)
  && negb (contains "=" opt_name)
  && match opt_val with
     | VNone => true
     | VStr s => negb (String.eqb s EmptyString) && negb (String.prefix "-" s)
     | VInt _ => false
     end.

(** The tokens, each with a blank before it. *)
Definition spaced (tokens : list string) : string :=
  fold_right (fun token rest => " " +:+ token +:+ rest) EmptyString tokens.

(** The options of a test task. *)
Definition example_options : options_dict :=
  [ ("storageEngine", (VStr "wiredTiger", "--"));
    ("nojournal", (VNone, "--"));
    ("v", (VNone, "-")) ].

(** ** [rsync] *)

(** The command of [rsync]. *)
Definition rsync_command (exclude_options src_dir dest_dir : string) : string :=
  "rsync -va --delete --quiet " +:+ exclude_options +:+ " " +:+ src_dir +:+ " " +:+ dest_dir.

(** The command that [rsync] runs after an attempt it gives another try. *)
Definition rsync_diag_cmds : string := "ls -ld /data/db /log; df".

(** The test that ends the attempts of [rsync], negated:
    [ret == 0 or "No medium found" not in rsync_output]. *)
Definition rsync_tried_again (answer : Z * string) : bool :=
  negb ((answer.1 =? 0) || negb (contains "No medium found" answer.2)).

Section Rsync.

Context {St : Type}.

(** The [for attempt in range(1, max_attempts + 1):] loop of [rsync] over
    the attempts that are left, with the [return] after it; [last] is
    [(ret, rsync_output)] of the attempt before, if there was one. *)
Fixpoint rsync_attempts (attempts : list Z) (max_attempts : Z) (rsync_cmd : string)
    (last : option (Z * string)) : prog St (Z * string) :=
  match attempts with
  | [] =>
      match last with
      | Some (ret, rsync_output) => Ret (ret, rsync_output)
      | None => Raise (UnboundLocalError "ret")
      end
  | attempt :: attempts' =>
      '(ret, rsync_output) ← trigger (ExecuteCmd rsync_cmd false);
      if (ret =? 0) || negb (contains "No medium found" rsync_output) then
        Ret (ret, rsync_output)
      else
        log WARNING "[%d/%d] rsync command failed (code=%d): %s"
          [AInt attempt; AInt max_attempts; AInt ret; AStr rsync_output];;
        let diag_cmds := rsync_diag_cmds in
        '(_, diag_output) ← trigger (ExecuteCmd diag_cmds true);
        log INFO ("Output from running '%s':" +:+ String newline "%s")
          [AStr diag_cmds; AStr diag_output];;
        rsync_attempts attempts' max_attempts rsync_cmd (Some (ret, rsync_output))
  end.

(** Lines 1351-1368 of [rsync(src_dir, dest_dir, exclude_files)]: what it
    does once it has found the rsync executable. *)
Definition rsync_with_retries (exclude_options src_dir dest_dir : string)
  : prog St (Z * string) :=
  let max_attempts := 5 in
  rsync_attempts (seqZ 1 max_attempts) max_attempts
    (rsync_command exclude_options src_dir dest_dir) None.

End Rsync.

(** The calls of [execute_cmd] in attempts of [rsync] that were followed by
    another try: each is a pair of the answer to the rsync command and the
    answer to the diagnostic command. *)
Definition rsync_rounds (rsync_cmd : string) (failed : list ((Z * string) * (Z * string)))
  : list (string * bool * (Z * string)) :=
  flat_map (fun round => [(rsync_cmd, false, round.1); (rsync_diag_cmds, true, round.2)])
    failed.

(** An rsync that fails with the error of cygwin. *)
Definition no_medium_found : forall X, call X -> option X :=
  fun X c =>
    match c in call X return option X with
    | ExecuteCmd _ false => Some (23, "rsync: mkdir failed: No medium found (135)")
    | _ => None
    end.

(** ** [get_user_host] *)

(** [s.split(sep)] for a separator of one character. *)
Fixpoint split_on (sep : ascii) (s : string) : list string :=
  match s with
  | EmptyString => [EmptyString]
  | String c s' =>
      if Ascii.eqb c sep then EmptyString :: split_on sep s'
      else
        match split_on sep s' with
        | first :: rest => String c first :: rest
        | [] => [String c EmptyString]
        end
  end.

(** [sep.join(parts)] *)
Fixpoint join_with (sep : string) (parts : list string) : string :=
  match parts with
  | [] => EmptyString
  | [part] => part
  | part :: parts' => part +:+ sep +:+ join_with sep parts'
  end.

(** [get_user_host(user_host)]: the tuple it returns, [None] or a string at
    each place. *)
Definition get_user_host (user_host : string) : list (option string) :=
  if contains "@" user_host then map Some (split_on "@" user_host)
  else [None; Some user_host].

(** [_, ssh_host = get_user_host(ssh_user_host)] in [main]. *)
Definition ssh_host_of (ssh_user_host : string) : py_exn + option string :=
  match get_user_host ssh_user_host with
  | [_; ssh_host] => inr ssh_host
  | _ :: _ :: _ :: _ => inl (ValueError "too many values to unpack (expected 2)")
  | [_] => inl (ValueError "not enough values to unpack (expected 2, got 1)")
  | [] => inl (ValueError "not enough values to unpack (expected 2, got 0)")
  end.

(** * Properties *)

(** ** Running programs *)

Lemma run_bind {W S A B} (h : handler W) (p : prog S A) (f : A -> prog S B) s w :
  run h (p ≫= f) s w = then_outcome (run h p s w) (fun a => run h (f a)).
Proof.
  unfold mbind, prog_bind. revert s w.
  induction p as [a|e| |k IH|s' k IH|X c k IH]; intros s w; simpl.
  - unfold then_outcome; simpl. now destruct (run h (f a) s w).
  - reflexivity.
  - reflexivity.
  - apply IH.
  - apply IH.
  - destruct (h X c w) as [w' x]. rewrite IH.
    unfold then_outcome, cons_event; simpl.
    now destruct (res (run h (k x) s w')).
Qed.

Lemma run_trigger {W S X} (h : handler W) (c : call X) (s : S) w :
  run h (trigger c) s w = Outcome [Ev c (h X c w).2] (h X c w).1 s (Ok (h X c w).2).
Proof. simpl. now destruct (h X c w). Qed.

Lemma quiet_ret {W S A} (h : handler W) (a : A) : quiet (S:=S) h (Ret a).
Proof. intros s w; simpl; eauto. Qed.

Lemma quiet_trigger {W S X} (h : handler W) (c : call X) : quiet (S:=S) h (trigger c).
Proof. intros s w. rewrite run_trigger; simpl; eauto. Qed.

Lemma quiet_bind {W S A B} (h : handler W) (p : prog S A) (f : A -> prog S B) :
  quiet h p -> (forall a, quiet h (f a)) -> quiet h (p ≫= f).
Proof.
  intros Hp Hf s w. rewrite run_bind. unfold then_outcome.
  destruct (Hp s w) as [[a Ha] Hs]. rewrite Ha, Hs. simpl. apply Hf.
Qed.

Lemma quiet_for_each {W S A} (h : handler W) (l : list A) (body : A -> prog S unit) :
  (forall x, quiet h (body x)) -> quiet h (for_each l body).
Proof.
  intros Hb. induction l as [|x l IH]; simpl.
  - apply quiet_ret.
  - apply (quiet_bind h (body x)); auto.
Qed.

Create HintDb quiet.
#[local] Hint Resolve quiet_ret quiet_trigger quiet_bind quiet_for_each : quiet.

(** ** [kill_process] *)

Lemma run_log_alive {W S} (h : handler W) (alive : list proc) (s : S) w :
  exists w',
    run h (for_each alive
             (fun p => log ERROR "Process %d still alive!" [AInt (pid p)])) s w
    = Outcome (map still_alive alive) w' s (Ok tt).
Proof.
  revert w. induction alive as [|p l IH]; intros w; simpl.
  - eauto.
  - destruct (h unit _ w) as [w1 []]. destruct (IH w1) as [w' E].
    exists w'. change (bind ?p ?f) with (p ≫= f) in *.
    unfold cons_event. simpl in *. rewrite E. reflexivity.
Qed.

Lemma kill_one_quiet {W S} (h : handler W) (p : proc) :
  quiet (S:=S) h
    (n ← trigger (ProcName p);
     match n with
     | NoSuchProcess =>
         log WARNING "Could not kill process %d, as it no longer exists" [AInt (pid p)]
     | Found name =>
         log DEBUG "Killing process '%s' pid %d" [AStr name; AInt (pid p)];;
         k ← trigger (ProcKill p);
         match k with
         | NoSuchProcess =>
             log WARNING "Could not kill process %d, as it no longer exists" [AInt (pid p)]
         | Found _ => Ret tt
         end
     end).
Proof.
  apply quiet_bind; [apply quiet_trigger|]. intros [name|].
  - apply quiet_bind; [apply quiet_trigger|]. intros _.
    apply quiet_bind; [apply quiet_trigger|]. intros [?|]; auto with quiet.
    apply quiet_trigger.
  - apply quiet_trigger.
Qed.

(** C10: [kill_process] returns 0 on every input and under every answer of
    psutil, and leaves the state alone.  When the 30-second [wait_procs]
    reports survivors, the only thing that follows is one ERROR log line per
    survivor; the return value is still 0. *)
Theorem kill_process_returns_0 :
  forall W (h : handler W) S (parent : proc) (kill_children : bool) (s : S) (w : W),
    let o := run h (kill_process parent kill_children) s w in
    res o = Ok 0 /\ final o = s /\
    (trace o =
       [Ev (ProcChildren parent true) NoSuchProcess;
        Ev (Log WARNING "Could not kill process %d, as it no longer exists"
              [AInt (pid parent)]) tt]
     \/ exists pre ps gone alive,
          trace o = pre ++ Ev (WaitProcs ps 30) (gone, alive) :: map still_alive alive).
Proof.
  intros W h S parent kill_children s w.
  assert (Hmain : forall procs w0,
    let o := run h
      (for_each (procs ++ [parent]) (fun p =>
        n ← trigger (ProcName p);
        match n with
        | NoSuchProcess =>
            log WARNING "Could not kill process %d, as it no longer exists" [AInt (pid p)]
        | Found name =>
            log DEBUG "Killing process '%s' pid %d" [AStr name; AInt (pid p)];;
            k ← trigger (ProcKill p);
            match k with
            | NoSuchProcess =>
                log WARNING "Could not kill process %d, as it no longer exists"
                  [AInt (pid p)]
            | Found _ => Ret tt
            end
        end);;
      '(_, alive) ← trigger (WaitProcs (procs ++ [parent]) 30);
      for_each alive (fun p => log ERROR "Process %d still alive!" [AInt (pid p)]);;
      Ret 0) s w0 in
    res o = Ok 0 /\ final o = s /\
    exists pre ps gone alive,
      trace o = pre ++ Ev (WaitProcs ps 30) (gone, alive) :: map still_alive alive).
  { intros procs w0. cbv zeta. rewrite run_bind. unfold then_outcome.
    pose proof (quiet_for_each h (procs ++ [parent]) _ (kill_one_quiet (S:=S) h)) as Hq.
    destruct (Hq s w0) as [[[] Ha] Hs]. rewrite Ha, Hs. cbn [trace world final res].
    set (o1 := run h (for_each _ _) s w0). clearbody o1.
    simpl. destruct (h _ (WaitProcs (procs ++ [parent]) 30) (world o1)) as [w1 [gone alive]].
    change (bind ?p ?f) with (p ≫= f). rewrite run_bind. unfold then_outcome.
    destruct (run_log_alive h alive s w1) as [w2 E]. rewrite E. simpl.
    repeat split. exists (trace o1), (procs ++ [parent]), gone, alive.
    now rewrite app_nil_r. }
  cbv zeta. unfold kill_process. destruct kill_children.
  - rewrite run_bind, run_trigger. unfold then_outcome. cbn [res final world trace].
    destruct (h _ (ProcChildren parent true) w) as [w1 [procs|]]; cbn [fst snd].
    + specialize (Hmain procs w1). cbv zeta in Hmain.
      destruct Hmain as (Hr & Hf & pre & ps & gone & alive & Ht).
      repeat split; auto. right.
      exists (Ev (ProcChildren parent true) (Found procs) :: pre), ps, gone, alive.
      cbn [trace]. rewrite Ht. reflexivity.
    + simpl. destruct (h unit _ w1) as [w2 []]. simpl. auto.
  - specialize (Hmain [] w). cbv zeta in Hmain.
    destruct Hmain as (Hr & Hf & Ht). auto.
Qed.

Lemma not_killed_still_alive (alive : list proc) :
  forallb (fun e => negb (killed e)) (map still_alive alive) = true.
Proof. induction alive; simpl; auto. Qed.

(** C8: on a stale handle (creation time no longer matching the holder of the
    pid, or no holder at all) [kill_process] kills nothing, logs the warning
    and returns 0; it does not raise. *)
Theorem kill_process_stale_handle :
  forall W (h : handler W) (gone : W -> Prop) S (parent : proc) (kill_children : bool)
         (s : S) (w : W),
    stale_handle h parent gone -> gone w ->
    let o := run h (kill_process parent kill_children) s w in
    res o = Ok 0 /\ final o = s /\
    In (could_not_kill parent) (trace o) /\
    forallb (fun e => negb (killed e)) (trace o) = true.
Proof.
  intros W h gone S parent kill_children s w [Hpres Hst] Hg. cbv zeta.
  unfold kill_process, could_not_kill. destruct kill_children.
  - simpl. destruct (Hst w Hg) as [Hc _].
    destruct (h _ (ProcChildren parent true) w) as [w1 r]. simpl in Hc. subst r.
    simpl. destruct (h unit _ w1) as [w2 []]. simpl. tauto.
  - simpl.
    pose proof (Hpres _ (ProcName parent) w Hg) as Hg1.
    destruct (h _ (ProcName parent) w) as [w1 [name|]]; simpl in Hg1; simpl.
    + pose proof (Hpres _ (Log DEBUG "Killing process '%s' pid %d"
                             [AStr name; AInt (pid parent)]) w1 Hg1) as Hg2.
      destruct (h unit _ w1) as [w2 []]; simpl in Hg2; simpl.
      destruct (Hst w2 Hg2) as [_ Hk].
      destruct (h _ (ProcKill parent) w2) as [w3 r]. simpl in Hk. subst r. simpl.
      destruct (h unit _ w3) as [w4 []]. simpl.
      destruct (h _ (WaitProcs [parent] 30) w4) as [w5 [gone' alive]].
      change (bind ?p ?f) with (p ≫= f). rewrite run_bind. unfold then_outcome.
      destruct (run_log_alive h alive s w5) as [w6 E]. rewrite E. simpl.
      rewrite app_nil_r. repeat split; [tauto | apply not_killed_still_alive].
    + destruct (h unit _ w1) as [w2 []]. simpl.
      destruct (h _ (WaitProcs [parent] 30) w2) as [w3 [gone' alive]].
      change (bind ?p ?f) with (p ≫= f). rewrite run_bind. unfold then_outcome.
      destruct (run_log_alive h alive s w3) as [w4 E]. rewrite E. simpl.
      rewrite app_nil_r. repeat split; [tauto | apply not_killed_still_alive].
Qed.

Example get_backup_path_2 : get_backup_path "/data/db/beforerecovery-1" 2 = "/data/db/beforerecovery-2".
Proof. reflexivity. Qed.
Example get_backup_path_1 : get_backup_path "/data/db/beforerecovery-1" 1 = "/data/db/beforerecovery-1".
Proof. reflexivity. Qed.
Example get_backup_path_11 : get_backup_path "b-10" 11 = "b-11".
Proof. reflexivity. Qed.
Example get_boot_ex :
  get_boot_datetime decimal_float
    "2020-01-01 INFO System was last booted 2020-03-04 05:06:07.123456, up 120 seconds"
  = inr (BootAt (Datetime 2020 3 4 5 6 7 0)).
Proof. reflexivity. Qed.
Example get_boot_none : get_boot_datetime decimal_float "nothing here" = inr NoBootTime.
Proof. reflexivity. Qed.

(** ** [PosixService.status] *)

(** C4: [PosixService.status].  With no tracked pid it answers stopped
    without looking at the disk, whether the service object has a data
    directory or not, and the list of pids stays empty.  With a tracked pid
    and the data directory [dir]: lock file absent, or of size zero: the
    pids are cleared and the answer is stopped; [os.stat] raising OSError:
    running, pids kept; any other size: running, pids kept. *)
Theorem PosixService_status_cases :
  forall W (h : handler W) (self : service) (w : W),
    let o := run h PosixService.status self w in
    (pids self = [] ->
     trace o = [] /\ res o = Ok "stopped" /\ final o = self /\ pids (final o) = []) /\
    (forall dir,
        db_path self = Some dir -> pids self <> [] ->
        let lock_file := os_path_join dir "mongod.lock" in
        let a := h _ (OsPathExists lock_file) w in
        (a.2 = false ->
         res o = Ok "stopped" /\ pids (final o) = [] /\ final o = set_pids [] self) /\
        (a.2 = true ->
         let b := h _ (OsStatSize lock_file) a.1 in
         (b.2 = Some 0 ->
          res o = Ok "stopped" /\ pids (final o) = [] /\ final o = set_pids [] self) /\
         (b.2 = None ->
          res o = Ok "running" /\ pids (final o) = pids self /\ final o = self) /\
         (forall n, b.2 = Some n -> n <> 0 ->
                    res o = Ok "running" /\ pids (final o) = pids self /\ final o = self))).
Proof.
  intros W h self w o. split.
  - intros Hp. subst o. unfold PosixService.status. simpl. rewrite Hp. simpl. auto.
  - intros dir Hdir Hp lock_file. subst o. unfold PosixService.status. simpl.
    rewrite Hdir. fold lock_file.
    destruct (pids self) as [|p ps] eqn:Epids; [congruence|]. simpl.
    destruct (h bool (OsPathExists lock_file) w) as [w1 ex]. simpl.
    split.
    + intros ->. simpl. auto.
    + intros ->. simpl.
      destruct (h (option Z) (OsStatSize lock_file) w1) as [w2 sz]. simpl.
      split; [|split].
      * intros ->. simpl. auto.
      * intros ->. simpl. auto.
      * intros n -> Hn. destruct n; simpl; auto; congruence.
Qed.

(** ** [WindowsService.stop] *)

(** Once the status is a known one and [StopService] has not raised, [stop]
    can only answer 0: the value 1 that the deadline branch puts in [ret]
    is overwritten after the loop. *)
Lemma stop_wait_quiet {W} (h : handler W) fuel start timeout status0 (self : service) w :
  let o := run h (WindowsService.stop_wait fuel start timeout status0) self w in
  final o = self /\ ((exists r, res o = Ok r) \/ res o = OutOfFuel).
Proof.
  revert status0 w. induction fuel as [|fuel IH]; intros status0 w; simpl.
  - destruct (negb _); simpl; eauto.
  - destruct (negb _); simpl; eauto.
    destruct (h Z TimeTime w) as [w1 now]. simpl.
    destruct (now - start >=? timeout); simpl; eauto.
    destruct (h unit (TimeSleep 3) w1) as [w2 []]. simpl.
    destruct (h _ (QueryServiceStatus (svc_name self)) w2) as [w3 [st|? ? ?]]; simpl.
    + destruct (WindowsService.states_lookup st); simpl; apply IH.
    + apply IH.
Qed.

Lemma states_lookup_in_values svc_state st :
  WindowsService.states_lookup svc_state = Some st ->
  WindowsService.in_states_values st = true.
Proof.
  unfold WindowsService.states_lookup, WindowsService.in_states_values.
  induction WindowsService._states as [|[k v] l IH]; simpl; [discriminate|].
  destruct (k =? svc_state); simpl.
  - intros [= <-]. now rewrite String.eqb_refl.
  - intros H. rewrite (IH H). apply orb_true_r.
Qed.

Lemma WindowsService_stop_answers_0 :
  forall W (h : handler W) (fuel : nat) (timeout : Z) (self : service) (w : W),
    let a := h _ (QueryServiceStatus (svc_name self)) w in
    (exists svc_state st,
        a.2 = WinOk svc_state /\ WindowsService.states_lookup svc_state = Some st) ->
    (h _ (StopService (svc_name self)) a.1).2 = WinOk tt ->
    let o := run h (WindowsService.stop fuel timeout) self w in
    res o = Ok (0, "Service '" +:+ svc_name self +:+ "' stopped") \/ res o = OutOfFuel.
Proof.
  intros W h fuel timeout self w a (svc_state & st & Ha & Hst) Hstop o. subst o a.
  unfold WindowsService.stop. simpl.
  destruct (h _ (QueryServiceStatus (svc_name self)) w) as [w1 r]. simpl in *. subst r.
  rewrite Hst. simpl. rewrite (states_lookup_in_values _ _ Hst). simpl.
  destruct (h _ (StopService (svc_name self)) w1) as [w2 r]. simpl in *. subst r. simpl.
  destruct (h Z TimeTime w2) as [w3 start]. simpl.
  destruct (h _ (QueryServiceStatus (svc_name self)) w3) as [w4 r]. simpl.
  change (bind ?p ?f) with (p ≫= f).
  assert (Hk : forall status0,
    let o := run h
      (WindowsService.stop_wait fuel start timeout status0 ≫= fun _ =>
         Ret (0, "Service '" +:+ svc_name self +:+ "' stopped"))
      (set_pids [] self) w4 in
    res o = Ok (0, "Service '" +:+ svc_name self +:+ "' stopped") \/ res o = OutOfFuel).
  { intros status0. cbv zeta. rewrite run_bind. unfold then_outcome.
    destruct (stop_wait_quiet h fuel start timeout status0 (set_pids [] self) w4)
      as [_ [[x ->] | ->]]; simpl; auto. }
  destruct r as [s|? ? ?]; simpl.
  - destruct (WindowsService.states_lookup s); simpl; apply Hk.
  - apply Hk.
Qed.

(** C5 (the code departs from it): a service that is still in stop pending
    when the deadline of 10 seconds has passed.  [stop] polls every 3
    seconds, takes the deadline branch at time 12, and answers 0 and the
    text of a successful stop. *)
Theorem WindowsService_stop_deadline_reports_success :
  let o := run simulate (WindowsService.stop 20 10) test_service
             (new_sim stop_pending_forever) in
  res o = Ok (0, "Service 'mongod-powercycle-test' stopped") /\
  clock (world o) = 12 /\
  last (trace o) = Some (Ev TimeTime 12) /\
  forallb status_is_stop_pending (trace o) = true.
Proof. vm_compute. repeat split. Qed.

(** ** Strings *)

Lemma append_nil_l (t : string) : EmptyString +:+ t = t.
Proof. reflexivity. Qed.

Lemma append_cons (c : ascii) (s t : string) : String c s +:+ t = String c (s +:+ t).
Proof. reflexivity. Qed.

Lemma append_nil_r (s : string) : s +:+ EmptyString = s.
Proof. induction s as [|c s IH]; [reflexivity|]. now rewrite append_cons, IH. Qed.

Lemma append_assoc (s t u : string) : (s +:+ t) +:+ u = s +:+ (t +:+ u).
Proof.
  induction s as [|c s IH]; [reflexivity|].
  now rewrite !append_cons, IH.
Qed.

Lemma length_append (s t : string) :
  String.length (s +:+ t) = (String.length s + String.length t)%nat.
Proof.
  induction s as [|c s IH]; [reflexivity|].
  rewrite append_cons. simpl. now rewrite IH.
Qed.

Lemma strip_prefix_append (p rest : string) : strip_prefix p (p +:+ rest) = Some rest.
Proof.
  induction p as [|a p IH]; [now destruct rest|].
  rewrite append_cons. simpl. now rewrite Ascii.eqb_refl.
Qed.

Lemma strip_prefix_refl (p : string) : strip_prefix p p = Some EmptyString.
Proof. rewrite <- (append_nil_r p) at 2. apply strip_prefix_append. Qed.

Lemma strip_prefix_Some (p s rest : string) :
  strip_prefix p s = Some rest -> s = p +:+ rest.
Proof.
  revert s. induction p as [|a p IH]; intros s; simpl.
  - now intros [= ->].
  - destruct s as [|b s]; [discriminate|].
    destruct (Ascii.eqb_spec a b) as [->|]; [|discriminate].
    intros H. rewrite append_cons. f_equal. auto.
Qed.

Lemma last_char_append (s t : string) :
  t <> EmptyString -> last_char (s +:+ t) = last_char t.
Proof.
  intros Ht. induction s as [|c s IH]; [reflexivity|].
  rewrite append_cons. simpl.
  destruct (s +:+ t) eqn:E; auto.
  destruct s; [rewrite append_nil_l in E | rewrite append_cons in E]; congruence.
Qed.

Lemma last_char_no_newline (s : string) :
  no_newline s = true -> last_char s <> Some newline.
Proof.
  induction s as [|c s IH]; simpl; [discriminate|].
  intros [Hc Hs]%andb_true_iff. destruct s.
  - intros [= ->]. now rewrite Ascii.eqb_refl in Hc.
  - auto.
Qed.

Lemma no_newline_uint (d : uint) : no_newline (NilEmpty.string_of_uint d) = true.
Proof. induction d; simpl; auto. Qed.

Lemma no_newline_str (n : Z) : no_newline (str n) = true.
Proof.
  unfold str. destruct (Z.to_int n) as [d|d]; simpl.
  - destruct d; simpl; auto using no_newline_uint.
  - destruct d; simpl; auto using no_newline_uint.
Qed.

(** ** [get_backup_path] *)

Lemma no_match_inside (lit q rest : string) (c : ascii) :
  lit <> EmptyString -> no_newline lit = true ->
  strip_prefix lit (String c q +:+ lit) = Some rest -> at_end rest = false.
Proof.
  intros Hne Hnl H. apply strip_prefix_Some in H.
  assert (Hlen : String.length rest = S (String.length q)).
  { apply (f_equal String.length) in H. rewrite !length_append in H. simpl in H.
    lia. }
  destruct rest as [|r rest]; [discriminate|]. simpl.
  destruct rest as [|r' rest]; [|reflexivity].
  destruct (Ascii.eqb_spec r newline) as [->|]; [|reflexivity].
  exfalso. apply (last_char_no_newline lit Hnl).
  rewrite <- (last_char_append (String c q) lit Hne), H.
  now rewrite last_char_append.
Qed.

Lemma re_sub_at_end_suffix (lit repl p : string) :
  lit <> EmptyString -> no_newline lit = true ->
  re_sub_at_end lit repl (p +:+ lit) = p +:+ repl.
Proof.
  intros Hne Hnl. induction p as [|c p IH].
  - rewrite !append_nil_l. destruct lit as [|a lit]; [congruence|].
    cbn [re_sub_at_end]. rewrite strip_prefix_refl. simpl. apply append_nil_r.
  - rewrite (append_cons c p lit). cbn [re_sub_at_end].
    rewrite <- (append_cons c p lit).
    destruct (strip_prefix lit (String c p +:+ lit)) as [rest|] eqn:E.
    + rewrite (no_match_inside lit p rest c Hne Hnl E).
      rewrite IH. reflexivity.
    + rewrite IH. reflexivity.
Qed.

Lemma get_backup_path_suffix (p : string) (n : Z) :
  get_backup_path (p +:+ "-" +:+ str (n - 1)) n = p +:+ "-" +:+ str n.
Proof.
  unfold get_backup_path. apply re_sub_at_end_suffix; [discriminate|].
  rewrite append_cons, append_nil_l. simpl. apply no_newline_str.
Qed.

(** ** The [rsync_data] operation *)

Lemma perform_rsync_data {St} IS_WINDOWS pc tc options root_dir db_path log_path :
  perform (St:=St) IS_WINDOWS pc tc options root_dir db_path log_path "rsync_data" =
  match rsync_dest options with
  | None => Raise (TypeError "cannot unpack non-iterable NoneType object")
  | Some (rsync_dir, new_rsync_dir) =>
      '(ret, output) ← trigger (Rsync (DB_PATH pc) rsync_dir (RSYNC_EXCLUDE_FILES pc));
      (if negb (String.eqb output EmptyString) then log INFO output [] else Ret tt);;
      if (ret =? 0) && negb (String.eqb rsync_dir new_rsync_dir) then
        log INFO "Renaming directory %s to %s" [AStr rsync_dir; AStr new_rsync_dir];;
        src ← trigger (AbsPath rsync_dir);
        dst ← trigger (AbsPath new_rsync_dir);
        trigger (OsRename src dst);;
        Ret ret
      else Ret ret
  end.
Proof. reflexivity. Qed.

(** C6: [get_backup_path] turns a path that ends in the dash and number of
    the previous loop into the same path ending in the dash and number of
    this loop; and one [rsync_data] operation renames the copy at most once,
    never when the two paths are equal, and never when rsync failed. *)
Theorem backup_path_suffix_and_single_rename :
  (forall (p : string) (n : Z),
      get_backup_path (p +:+ "-" +:+ str (n - 1)) n = p +:+ "-" +:+ str n) /\
  (forall W (h : handler W) St IS_WINDOWS pc tc operations port tarball root_dir
          db_path log_path (rsync_dir new_rsync_dir : string) (s : St) (w : W),
      let options := AgentOptions operations port (Some (rsync_dir, new_rsync_dir)) tarball in
      let o := run h (perform IS_WINDOWS pc tc options root_dir db_path log_path
                        "rsync_data") s w in
      (length (List.filter is_rename (trace o)) <= 1)%nat /\
      (rsync_dir = new_rsync_dir -> List.filter is_rename (trace o) = []) /\
      ((h _ (Rsync (DB_PATH pc) rsync_dir (RSYNC_EXCLUDE_FILES pc)) w).2.1 <> 0 ->
       List.filter is_rename (trace o) = [])).
Proof.
  split; [apply get_backup_path_suffix|].
  intros W h St IS_WINDOWS pc tc operations port tarball root_dir db_path log_path
         rsync_dir new_rsync_dir s w options o.
  subst o. rewrite perform_rsync_data. subst options. simpl.
  destruct (h _ (Rsync (DB_PATH pc) rsync_dir (RSYNC_EXCLUDE_FILES pc)) w)
    as [w1 [ret output]]. simpl.
  assert (Hrest : forall w2,
    let o := run h
      (if (ret =? 0) && negb (String.eqb rsync_dir new_rsync_dir) then
         log INFO "Renaming directory %s to %s" [AStr rsync_dir; AStr new_rsync_dir];;
         src ← trigger (AbsPath rsync_dir);
         dst ← trigger (AbsPath new_rsync_dir);
         trigger (OsRename src dst);;
         Ret ret
       else Ret ret) s w2 in
    (length (List.filter is_rename (trace o)) <= 1)%nat /\
    (rsync_dir = new_rsync_dir -> List.filter is_rename (trace o) = []) /\
    (ret <> 0 -> List.filter is_rename (trace o) = [])).
  { intros w2. cbv zeta.
    destruct (Z.eqb_spec ret 0) as [->|Hret]; simpl.
    - destruct (String.eqb_spec rsync_dir new_rsync_dir) as [->|Hd]; simpl.
      + repeat split; auto.
      + destruct (h unit _ w2) as [w3 []]. simpl.
        destruct (h string (AbsPath rsync_dir) w3) as [w4 src]. simpl.
        destruct (h string (AbsPath new_rsync_dir) w4) as [w5 dst]. simpl.
        destruct (h unit (OsRename src dst) w5) as [w6 []]. simpl.
        repeat split; auto; congruence.
    - repeat split; auto. }
  destruct (negb (String.eqb output EmptyString)); simpl.
  - destruct (h unit _ w1) as [w2 []]. simpl. apply Hrest.
  - apply Hrest.
Qed.

(** ** [remote_handler] *)

Section PerformAll.

Context {W St : Type} (h : handler W).
Variables (IS_WINDOWS : bool) (pc : powercycle_constants) (tc : task_config)
          (options : agent_options) (root_dir db_path log_path : string).

Local Notation "'P'" :=
  (perform_all (St:=St) IS_WINDOWS pc tc options root_dir db_path log_path).
Local Notation "'P1'" :=
  (perform (St:=St) IS_WINDOWS pc tc options root_dir db_path log_path).

Lemma perform_all_cons op ops s w :
  run h (P (op :: ops)) s w =
  then_outcome (run h (P1 op) s w)
    (fun ret s' w' => if negb (ret =? 0) then Outcome [] w' s' (Ok ret)
                      else run h (P ops) s' w').
Proof.
  cbn [perform_all]. rewrite run_bind. unfold then_outcome.
  destruct (res (run h (P1 op) s w)) as [ret| |]; auto.
  destruct (negb (ret =? 0)); reflexivity.
Qed.

Lemma perform_all_app ops1 ops2 s w :
  res (run h (P ops1) s w) = Ok 0 ->
  run h (P (ops1 ++ ops2)) s w =
  then_outcome (run h (P ops1) s w) (fun _ => run h (P ops2)).
Proof.
  revert s w. induction ops1 as [|op ops1 IH]; intros s w.
  - intros _. simpl. unfold then_outcome. simpl.
    now destruct (run h (P ops2) s w).
  - rewrite <- app_comm_cons, !perform_all_cons. unfold then_outcome.
    destruct (run h (P1 op) s w) as [tr1 w1 s1 [ret| |]]; simpl; try discriminate.
    destruct (Z.eqb_spec ret 0) as [->|Hret]; simpl.
    + intros H. rewrite (IH _ _ H). unfold then_outcome. rewrite H. simpl.
      now rewrite app_assoc.
    + intros [= ->]. congruence.
Qed.

Lemma perform_all_fail_fast ops1 op ops2 s w :
  let o1 := run h (P ops1) s w in
  let o := run h (P1 op) (final o1) (world o1) in
  res o1 = Ok 0 ->
  (exists ret, res o = Ok ret /\ ret <> 0) ->
  run h (P (ops1 ++ op :: ops2)) s w
  = Outcome (trace o1 ++ trace o) (world o) (final o) (res o).
Proof.
  intros o1 o H1 (ret & Hr & Hne). subst o o1.
  rewrite (perform_all_app _ _ _ _ H1). unfold then_outcome at 1. rewrite H1.
  rewrite perform_all_cons. unfold then_outcome. rewrite Hr.
  destruct (Z.eqb_spec ret 0); [congruence|]. simpl. now rewrite app_nil_r.
Qed.

Lemma perform_all_nonzero ops s w ret :
  res (run h (P ops) s w) = Ok ret -> ret <> 0 ->
  exists ops1 op ops2,
    ops = ops1 ++ op :: ops2 /\
    res (run h (P ops1) s w) = Ok 0 /\
    res (run h (P1 op) (final (run h (P ops1) s w)) (world (run h (P ops1) s w))) = Ok ret.
Proof.
  revert s w. induction ops as [|op ops IH]; intros s w.
  - simpl. intros [= <-]. congruence.
  - rewrite perform_all_cons. unfold then_outcome.
    destruct (run h (P1 op) s w) as [tr1 w1 s1 [r| |]] eqn:E; simpl; try discriminate.
    destruct (Z.eqb_spec r 0) as [->|Hr]; simpl.
    + intros H Hne. destruct (IH _ _ H Hne) as (ops1 & op' & ops2 & -> & H1 & H2).
      exists (op :: ops1), op', ops2. split; [reflexivity|].
      rewrite perform_all_cons. unfold then_outcome. rewrite E. simpl.
      split; [assumption|]. exact H2.
    + intros [= ->] _. exists [], op, ops. simpl. rewrite E. auto.
Qed.

End PerformAll.

Lemma perform_kill_mongod {St} IS_WINDOWS pc tc options root_dir db_path log_path :
  perform (St:=St) IS_WINDOWS pc tc options root_dir db_path log_path "kill_mongod" =
  ('(ret, output) ← trigger KillMongod;
   if negb (ret =? 0) then
     log ERROR "kill_mongod failed %s" [AStr output];;
     Ret ret
   else
     '(ret, output) ← trigger (MongodStop (2 * ONE_HOUR_SECS));
     log INFO output [];;
     status ← trigger MongodStatus;
     if negb (String.eqb status "stopped") then
       log ERROR "Unable to stop the mongod service, in state '%s'" [AStr status];;
       Ret 1
     else Ret ret).
Proof. reflexivity. Qed.

Lemma kill_mongod_no_stop_mongod {W St} (h : handler W) IS_WINDOWS pc tc options root_dir
    db_path log_path (s : St) (w : W) :
  forallb (fun ev => negb (is_stop_mongod_call ev))
    (trace (run h (perform IS_WINDOWS pc tc options root_dir db_path log_path
                     "kill_mongod") s w)) = true.
Proof.
  rewrite perform_kill_mongod. simpl.
  destruct (h _ KillMongod w) as [w1 [ret output]]. simpl.
  destruct (negb (ret =? 0)); simpl.
  - destruct (h unit _ w1) as [w2 []]. reflexivity.
  - destruct (h _ (MongodStop (2 * ONE_HOUR_SECS)) w1) as [w2 [ret' output']]. simpl.
    destruct (h unit _ w2) as [w3 []]. simpl.
    destruct (h string MongodStatus w3) as [w4 status]. simpl.
    destruct (negb (String.eqb status "stopped")); simpl.
    + destruct (h unit _ w4) as [w5 []]. reflexivity.
    + reflexivity.
Qed.

(** What [remote_handler] does before its loop: the calls [pre], after which
    either the constructor of [MongodControl] raises the exception of the
    option string, or the loop runs on the absolute paths that were
    answered. *)
Lemma remote_handler_loop {W St} (h : handler W) shlex_split IS_WINDOWS pc tc options root_dir
    (s : St) (w : W) :
  remote_operations options <> [] ->
  exists pre w0 root_dir' db_path log_path,
    run h (remote_handler shlex_split IS_WINDOWS pc options tc root_dir) s w
    = match MongodControl.options_map shlex_split IS_WINDOWS db_path log_path (port options)
              (if truthy (repl_set tc)
               then mongod_options tc +:+ " --replSet " +:+ default EmptyString (repl_set tc)
               else mongod_options tc) with
      | inl exn => Outcome pre w0 s (Raised exn)
      | inr _ =>
          let o := run h (perform_all IS_WINDOWS pc tc options root_dir' db_path log_path
                            (remote_operations options)) s w0 in
          Outcome (pre ++ trace o) (world o) (final o) (res o)
      end.
Proof.
  intros Hne. unfold remote_handler, log.
  rewrite run_bind, run_trigger. unfold then_outcome. cbn [res world final trace].
  destruct (h string (AbsPath root_dir) w) as [w1 root_dir']. cbn [fst snd].
  destruct (remote_operations options) as [|op ops] eqn:E; [congruence|].
  set (ops' := op :: ops). cbn beta iota.
  rewrite run_bind, run_trigger. unfold then_outcome. cbn [res world final trace].
  destruct (h unit PrintUptime w1) as [w2 []]. cbn [fst snd].
  rewrite run_bind, run_trigger. unfold then_outcome. cbn [res world final trace].
  destruct (h unit (Log INFO "Operations to perform %s" (AStr <$> ops')) w2) as [w3 []].
  cbn [fst snd].
  rewrite run_bind, run_trigger. unfold then_outcome. cbn [res world final trace].
  destruct (h string (AbsPath (REMOTE_DIR pc)) w3) as [w4 remote_dir]. cbn [fst snd].
  rewrite run_bind, run_trigger. unfold then_outcome. cbn [res world final trace].
  destruct (h string (AbsPath (DB_PATH pc)) w4) as [w5 db_path]. cbn [fst snd].
  rewrite run_bind, run_trigger. unfold then_outcome. cbn [res world final trace].
  destruct (h string (AbsPath (LOG_PATH pc)) w5) as [w6 log_path]. cbn [fst snd].
  rewrite run_bind, run_trigger. unfold then_outcome. cbn [res world final trace].
  destruct (h unit (NewMongodControl (os_path_join remote_dir "bin") db_path log_path
                      (port options) (if truthy (repl_set tc)
               then mongod_options tc +:+ " --replSet " +:+ default EmptyString (repl_set tc)
               else mongod_options tc)) w6) as [w7 []].
  cbn [fst snd].
  eexists _, w7, root_dir', db_path, log_path.
  destruct (MongodControl.options_map shlex_split IS_WINDOWS db_path log_path (port options)
              (if truthy (repl_set tc)
               then mongod_options tc +:+ " --replSet " +:+ default EmptyString (repl_set tc)
               else mongod_options tc)) as [exn|parsed].
  - cbn [run trace world final res]. rewrite !app_assoc, ?app_nil_r. reflexivity.
  - cbv zeta. rewrite !app_assoc. reflexivity.
Qed.

(** ** The first batch of a turn *)

Lemma words_start_operations (tc : task_config) (n : Z) :
  words (start_operations (set_fcv_cmd tc) n) =
  if n =? 1 then
    ["rsync_data"; "start_mongod"]
    ++ match fcv tc with Some _ => ["set_fcv"] | None => [] end
    ++ ["seed_docs"]
  else ["rsync_data"; "start_mongod"].
Proof.
  unfold start_operations, set_fcv_cmd.
  destruct (n =? 1); destruct (fcv tc); reflexivity.
Qed.

(** ** Reconnecting after the crash *)

Ltac run_step :=
  rewrite ?run_bind, ?run_trigger; unfold then_outcome;
  cbn [res world final trace fst snd].

Lemma run_local_exit {W A} (h : handler W) (code : Z) (s : globals) (w : W) :
  run h (local_exit (A:=A) code) s w
  = Outcome [] w (set_EXIT_YML <[ "exit_code" := YInt code ]> s) (Raised (SystemExit code)).
Proof. reflexivity. Qed.

Lemma run_ssh_failure_exit {W A} (h : handler W) (code : Z) (output : string)
    (s : globals) (w : W) :
  run h (ssh_failure_exit (A:=A) code output) s w
  = Outcome [] w
      (set_EXIT_YML <[ "exit_code" := YInt code ]>
         (set_EXIT_YML <[ "ec2_ssh_failure" := YStr output ]> s))
      (Raised (SystemExit code)).
Proof. reflexivity. Qed.

Lemma run_verify_remote_access_down {W} (h : handler W) (lo : local_ops) s w :
  access_established lo = false ->
  let o := run h (verify_remote_access lo) s w in
  res o = Raised (SystemExit (access_info lo).1) /\
  final o = set_EXIT_YML <[ "exit_code" := YInt (access_info lo).1 ]>
              (set_EXIT_YML <[ "ec2_ssh_failure" := YStr (access_info lo).2 ]> s).
Proof.
  intros H. unfold verify_remote_access. rewrite H. simpl.
  destruct (access_info lo) as [code output]. simpl.
  destruct (h unit _ w) as [w1 []]. simpl. auto.
Qed.

Lemma run_verify_remote_access_up {W} (h : handler W) (lo : local_ops) s w :
  access_established lo = true ->
  run h (verify_remote_access lo) s w = Outcome [] w s (Ok tt).
Proof. intros H. unfold verify_remote_access. now rewrite H. Qed.

Section Reconnect.

Context {W : Type} (h : handler W) (e : main_env).

Local Notation "'connect'" :=
  (LocalToRemoteOperations (ssh_user_host e) (ssh_connection_options e) (ssh_options e)).

Lemma reconnect_down boot s w :
  access_established (h _ connect w).2 = false ->
  let lo := (h _ connect w).2 in
  let o := run h (reconnect e boot) s w in
  res o = Raised (SystemExit (access_info lo).1) /\
  final o = set_EXIT_YML <[ "exit_code" := YInt (access_info lo).1 ]>
              (set_EXIT_YML <[ "ec2_ssh_failure" := YStr (access_info lo).2 ]> s).
Proof.
  intros H lo o. subst lo o. unfold reconnect. run_step.
  destruct (h _ connect w) as [w1 lo]. cbn [fst snd] in *.
  rewrite run_bind. unfold then_outcome.
  destruct (run_verify_remote_access_down h lo s w1 H) as [-> ->]. auto.
Qed.

(** A turn ends the way its last part does once the first part has
    returned. *)
Lemma main_loop_body_after st s w x :
  res (run h (recover_and_crash e st) s w) = Ok x ->
  let o1 := run h (recover_and_crash e st) s w in
  forall boot,
    boot = x.1.2 ->
    (forall exn,
        res (run h (reconnect e boot) (final o1) (world o1)) = Raised exn ->
        res (run h (main_loop_body e st) s w) = Raised exn /\
        final (run h (main_loop_body e st) s w)
        = final (run h (reconnect e boot) (final o1) (world o1))) /\
    (forall lo,
        res (run h (reconnect e boot) (final o1) (world o1)) = Ok lo ->
        exists st' post,
          res (run h (main_loop_body e st) s w) = Ok st' /\
          trace (run h (main_loop_body e st) s w)
          = trace o1 ++ trace (run h (reconnect e boot) (final o1) (world o1)) ++ post).
Proof.
  intros Hx o1 boot ->. subst o1. unfold main_loop_body.
  rewrite run_bind. unfold then_outcome. rewrite Hx.
  destruct x as [[[bpb bpa] boot] orig]. cbn [fst snd].
  set (o1 := run h (recover_and_crash e st) s w).
  rewrite run_bind. unfold then_outcome.
  destruct (run h (reconnect e boot) (final o1) (world o1)) as [tr2 w2 s2 r2].
  cbn [res final world trace]. split.
  - intros exn ->. auto.
  - intros lo ->. run_step. destruct (h Z TimeTime w2) as [w3 now]. cbn [fst snd].
    unfold log. run_step. destruct (h unit _ w3) as [w4 []]. cbn [fst snd app].
    eexists _, _. split; reflexivity.
Qed.

Lemma main_loop_raises fuel st s w exn :
  res (run h (main_loop_body e st) s w) = Raised exn ->
  res (run h (main_loop e (S fuel) st) s w) = Raised exn /\
  final (run h (main_loop e (S fuel) st) s w) = final (run h (main_loop_body e st) s w).
Proof.
  intros H. cbn [main_loop]. rewrite run_bind. unfold then_outcome. now rewrite H.
Qed.

Lemma run_check_boot_time after_crash after_recovery s w :
  let o := run h (check_boot_time e after_crash after_recovery) s w in
  final o = s /\
  match after_crash, after_recovery with
  | BootAt a, BootAt r =>
      trace o = [] /\
      res o = if negb (String.eqb (crash_method (tc e)) "kill") && datetime_le a r
              then Raised boot_time_not_newer else Ok tt
  | _, _ => res o = Ok tt /\ existsb is_cannot_compare (trace o) = true
  end.
Proof.
  unfold check_boot_time.
  destruct after_crash as [a|], after_recovery as [r|]; simpl.
  - destruct (negb _ && datetime_le a r); simpl; auto.
  - destruct (h unit _ w) as [w1 []]; simpl; auto.
  - destruct (h unit _ w) as [w1 []]; simpl; auto.
  - destruct (h unit _ w) as [w1 []]; simpl; auto.
Qed.

Local Notation "'noop_cmd'" :=
  (remote_python e +:+ " " +:+ script_name e +:+ " " +:+ client_args e +:+ " "
   +:+ "--remoteOperation noop").

Lemma reconnect_up after_recovery s w after_crash :
  let a := h _ connect w in
  access_established a.2 = true ->
  let b := h _ (Shell a.2 noop_cmd) a.1 in
  get_boot_datetime (floats e) b.2.2 = inr after_crash ->
  let o := run h (reconnect e after_recovery) s w in
  let oc := run h (check_boot_time e after_crash after_recovery) s b.1 in
  trace o = Ev connect a.2 :: Ev (Shell a.2 noop_cmd) b.2 :: trace oc /\
  final o = s /\
  res o = match res oc with
          | Ok _ => Ok a.2
          | Raised exn => Raised exn
          | OutOfFuel => OutOfFuel
          end.
Proof.
  intros a Hup b Hboot o oc. subst o oc b a.
  unfold reconnect, dispatch, call_remote_operation. run_step.
  destruct (h _ connect w) as [w1 lo]. cbn [fst snd] in *.
  rewrite run_bind, (run_verify_remote_access_up h lo s w1 Hup).
  unfold then_outcome. cbn [res world final trace app]. run_step.
  destruct (h _ (Shell lo noop_cmd) w1) as [w2 [ret output]]. cbn [fst snd] in *.
  rewrite Hboot. rewrite run_bind. unfold then_outcome.
  destruct (run_check_boot_time after_crash after_recovery s w2) as [Hf _].
  cbv zeta in Hf.
  destruct (run h (check_boot_time e after_crash after_recovery) s w2)
    as [tr3 w3 s3 [[]| |]]; cbn [res world final trace] in *; subst;
    rewrite ?app_nil_r; auto.
Qed.

End Reconnect.

(** C7, as the code has it: when the turn has got as far as killing the
    clients and the probe of the new channel has not succeeded, the run ends
    through [ssh_failure_exit]: it exits with the return code of the probe,
    and the exit file records the output of the probe under
    [ec2_ssh_failure] (whatever the crash method).  An exit through
    [local_exit] alone leaves that entry as it was.  The exit code is the
    one of the probe; nothing makes it differ from the code of another
    failure. *)
Theorem ssh_failure_terminal_state :
  forall W (h : handler W) (e : main_env) (fuel : nat) (st : loop_state)
         (s : globals) (w : W) x,
    let o1 := run h (recover_and_crash e st) s w in
    res o1 = Ok x ->
    let lo := (h _ (LocalToRemoteOperations (ssh_user_host e) (ssh_connection_options e)
                      (ssh_options e)) (world o1)).2 in
    access_established lo = false ->
    let o := run h (main_loop e (S fuel) st) s w in
    res o = Raised (SystemExit (access_info lo).1) /\
    EXIT_YML (final o) !! "ec2_ssh_failure" = Some (YStr (access_info lo).2) /\
    EXIT_YML (final o) !! "exit_code" = Some (YInt (access_info lo).1) /\
    (forall code (s' : globals) (w' : W),
        let o' := run h (local_exit (A:=unit) code) s' w' in
        res o' = Raised (SystemExit code) /\
        EXIT_YML (final o') !! "exit_code" = Some (YInt code) /\
        EXIT_YML (final o') !! "ec2_ssh_failure" = EXIT_YML s' !! "ec2_ssh_failure").
Proof.
  intros W h e fuel st s w x o1 Hx lo Hdown o.
  destruct (reconnect_down h e x.1.2 (final o1) (world o1) Hdown) as [Hr Hf].
  destruct (main_loop_body_after h e st s w x Hx x.1.2 eq_refl) as [Hraise _].
  destruct (Hraise _ Hr) as [Hb Hbf].
  destruct (main_loop_raises h e fuel st s w _ Hb) as [Hm Hmf].
  subst o. rewrite Hm, Hmf, Hbf. fold o1. rewrite Hf.
  repeat split.
  - simpl. rewrite lookup_insert_ne by discriminate. apply lookup_insert_eq.
  - simpl. apply lookup_insert_eq.
  - simpl. apply lookup_insert_eq.
  - simpl. now rewrite lookup_insert_ne by discriminate.
Qed.

(** C3, as the code has it.  The turn has got as far as killing the clients,
    the new channel is up and a boot time, or -1, has been read from the
    output of the noop.  With the crash method kill the turn goes on
    whatever the two boot times are.  With the crash method internal, when
    both boot times were found: the run raises if the boot time after the
    crash is not later than the one recorded after recovery, and goes on
    otherwise; when one of them is -1 only a warning is logged. *)
Theorem boot_time_check :
  forall W (h : handler W) (e : main_env) (fuel : nat) (st : loop_state)
         (s : globals) (w : W) x,
    let o1 := run h (recover_and_crash e st) s w in
    res o1 = Ok x ->
    let boot_time_after_recovery := x.1.2 in
    let a := h _ (LocalToRemoteOperations (ssh_user_host e) (ssh_connection_options e)
                    (ssh_options e)) (world o1) in
    access_established a.2 = true ->
    let b := h _ (Shell a.2 (remote_python e +:+ " " +:+ script_name e +:+ " "
                             +:+ client_args e +:+ " " +:+ "--remoteOperation noop")) a.1 in
    forall boot_time_after_crash,
      get_boot_datetime (floats e) b.2.2 = inr boot_time_after_crash ->
      let o := run h (main_loop_body e st) s w in
      (crash_method (tc e) = "kill" -> exists st', res o = Ok st') /\
      (crash_method (tc e) = "internal" ->
         match boot_time_after_crash, boot_time_after_recovery with
         | BootAt after_crash, BootAt after_recovery =>
             if datetime_le after_crash after_recovery
             then res o = Raised boot_time_not_newer /\
                  res (run h (main_loop e (S fuel) st) s w) = Raised boot_time_not_newer
             else exists st', res o = Ok st'
         | _, _ =>
             (exists st', res o = Ok st') /\ existsb is_cannot_compare (trace o) = true
         end).
Proof.
  intros W h e fuel st s w x o1 Hx after_recovery a Hup b after_crash Hboot o.
  destruct (reconnect_up h e after_recovery (final o1) (world o1) after_crash Hup Hboot)
    as (Ht & Hf & Hr).
  destruct (main_loop_body_after h e st s w x Hx after_recovery eq_refl) as [Hraise Hok].
  fold o1 in Hraise, Hok.
  destruct (run_check_boot_time h e after_crash after_recovery (final o1) b.1) as [_ Hc].
  cbv zeta in Hc. fold a b in Ht, Hr.
  assert (Hgo : forall lo,
             res (run h (reconnect e after_recovery) (final o1) (world o1)) = Ok lo ->
             exists st', res o = Ok st').
  { intros lo H. destruct (Hok lo H) as (st' & post & H1 & _). eauto. }
  assert (Hwarn : forall lo,
             res (run h (reconnect e after_recovery) (final o1) (world o1)) = Ok lo ->
             existsb is_cannot_compare
               (trace (run h (check_boot_time e after_crash after_recovery)
                         (final o1) b.1)) = true ->
             existsb is_cannot_compare (trace o) = true).
  { intros lo H Hw. destruct (Hok lo H) as (st' & post & _ & H2).
    subst o. rewrite H2, Ht, !existsb_app. cbn [existsb]. rewrite Hw.
    rewrite !orb_true_r. reflexivity. }
  split.
  - intros Hkill. rewrite Hkill in Hc.
    assert (Hk : res (run h (check_boot_time e after_crash after_recovery)
                        (final o1) b.1) = Ok tt).
    { destruct after_crash, after_recovery; cbn beta iota in Hc; tauto. }
    rewrite Hk in Hr. eapply Hgo, Hr.
  - intros Hint. rewrite Hint in Hc.
    destruct after_crash as [ac|], after_recovery as [ar|]; cbn beta iota in Hc.
    + destruct Hc as [_ Hc].
      change (negb (String.eqb "internal" "kill")) with true in Hc. cbn [andb] in Hc.
      rewrite Hc in Hr.
      destruct (datetime_le ac ar).
      * destruct (Hraise _ Hr) as [Hb _]. split; [exact Hb|].
        apply (main_loop_raises h e fuel st s w _ Hb).
      * eapply Hgo, Hr.
    + destruct Hc as [Hc Hw]. rewrite Hc in Hr. split; [eapply Hgo, Hr|].
      eapply Hwarn; eauto.
    + destruct Hc as [Hc Hw]. rewrite Hc in Hr. split; [eapply Hgo, Hr|].
      eapply Hwarn; eauto.
    + destruct Hc as [Hc Hw]. rewrite Hc in Hr. split; [eapply Hgo, Hr|].
      eapply Hwarn; eauto.
Qed.

(** ** Calls that a program never makes *)

Lemma avoids_sound which {W St A} (h : handler W) (p : prog St A) s w :
  avoids which p -> none_of which (trace (run h p s w)) = true.
Proof.
  revert s w. induction p as [a|exn| |k IH|s' k IH|X c k IH]; intros s w; simpl; auto.
  intros [Hc Hk]. destruct (h X c w) as [w' x]. simpl.
  rewrite Hc. simpl. apply IH, Hk.
Qed.

Lemma avoids_bind which {St A B} (p : prog St A) (f : A -> prog St B) :
  avoids which p -> (forall a, avoids which (f a)) -> avoids which (p ≫= f).
Proof.
  unfold mbind, prog_bind.
  induction p as [a|exn| |k IH|s' k IH|X c k IH]; simpl; auto.
  intros [Hc Hk] Hf. split; auto.
Qed.

Lemma avoids_for_each which {St A} (l : list A) (body : A -> prog St unit) :
  (forall x, avoids which (body x)) -> avoids which (for_each l body).
Proof.
  intros Hb. induction l as [|x l IH]; simpl; auto.
  apply (avoids_bind which (body x)); auto.
Qed.

Lemma avoids_trigger (which : forall X, call X -> bool) {St X} (c : call X) :
  which X c = false -> avoids which (trigger (S:=St) c).
Proof. simpl. auto. Qed.

Lemma avoids_when which {St} (b : bool) (p : prog St unit) :
  avoids which p -> avoids which (when b p).
Proof. destruct b; simpl; auto. Qed.

Ltac avoid_step :=
  first
    [ match goal with |- avoids _ (when false _) => exact I end
    | apply avoids_bind; [|intros]
    | apply avoids_for_each; intros
    | apply avoids_when
    | apply avoids_trigger; reflexivity
    | match goal with
      | |- avoids _ (if ?b then _ else _) => destruct b
      | |- avoids _ (match ?x with _ => _ end) => destruct x
      | |- avoids _ (Ret _) => exact I
      | |- avoids _ (Raise _) => exact I
      | |- avoids _ (modify _) => intro; exact I
      | |- avoids _ (put _) => exact I
      | |- avoids _ get => intro; exact I
      | |- avoids _ (Get _) => intro
      | |- avoids _ (log _ _ _) => apply avoids_trigger; reflexivity
      | |- avoids _ (local_exit _) => intro; exact I
      | |- avoids _ (ssh_failure_exit _ _) => intro; intro; exact I
      end ].

Ltac avoid := repeat avoid_step.

Lemma avoids_kill_process {St} (p : proc) (kill_children : bool) :
  avoids find_one_call (kill_process (S:=St) p kill_children).
Proof. unfold kill_process. avoid. Qed.

Lemma avoids_kill_processes {St} (l : list proc) (kill_children : bool) :
  avoids find_one_call (kill_processes (S:=St) l kill_children).
Proof.
  unfold kill_processes. avoid; try apply avoids_kill_process.
Qed.

Lemma avoids_NamedTempFile_create suffix directory :
  avoids find_one_call (NamedTempFile.create suffix directory).
Proof. unfold NamedTempFile.create. avoid. Qed.

Lemma avoids_NamedTempFile_delete name :
  avoids find_one_call (NamedTempFile.delete name).
Proof. unfold NamedTempFile.delete. avoid. Qed.

Lemma avoids_resmoke_client pc wd mp hp js suite n no_wait lf :
  avoids find_one_call (resmoke_client pc wd mp hp js suite n no_wait lf).
Proof. unfold resmoke_client, Processes.create. avoid. Qed.

Section AvoidFindOne.

Variable e : main_env.

Lemma avoids_start_on_secret_port st :
  avoids find_one_call (start_on_secret_port e st).
Proof.
  unfold start_on_secret_port, dispatch, call_remote_operation, setup_ssh_tunnel. avoid.
Qed.

Lemma avoids_start_on_standard_port st :
  avoids find_one_call (start_on_standard_port e st).
Proof.
  unfold start_on_standard_port, dispatch, call_remote_operation. avoid.
Qed.

Lemma avoids_start_clients : avoids find_one_call (start_clients e).
Proof.
  unfold start_clients. avoid;
    try first [apply avoids_NamedTempFile_create | apply avoids_resmoke_client].
Qed.

Lemma avoids_crash st : avoids find_one_call (crash e st).
Proof.
  unfold crash, crash_server_or_kill_mongod, mongo_insert_canary. avoid.
Qed.

Lemma avoids_kill_clients files tunnel :
  avoids find_one_call (kill_clients files tunnel).
Proof.
  unfold kill_clients, Processes.kill_all, Processes.kill. avoid;
    try first [apply avoids_kill_processes | apply avoids_NamedTempFile_delete
          | apply avoids_kill_process].
Qed.

Lemma avoids_reconnect boot : avoids find_one_call (reconnect e boot).
Proof.
  unfold reconnect, verify_remote_access, dispatch, call_remote_operation,
    check_boot_time. avoid.
Qed.

Lemma avoids_validate_and_shutdown st :
  loop_num st = 0 -> avoids find_one_call (validate_and_shutdown e st).
Proof.
  intros H. unfold validate_and_shutdown. cbv zeta. rewrite H.
  change (1 <? 0 + 1) with false. unfold dispatch, call_remote_operation.
  avoid; try first [apply avoids_NamedTempFile_create | apply avoids_resmoke_client].
Qed.

Lemma avoids_main_loop_body st :
  loop_num st = 0 -> avoids find_one_call (main_loop_body e st).
Proof.
  intros H. unfold main_loop_body, recover_and_crash.
  repeat first
    [ apply avoids_start_on_secret_port | apply (avoids_validate_and_shutdown st H)
    | apply avoids_start_on_standard_port | apply avoids_start_clients
    | apply avoids_crash | apply avoids_kill_clients | apply avoids_reconnect
    | avoid_step ].
Qed.

End AvoidFindOne.

(** ** The canary from one turn to the next *)

Lemma run_bind_Ok {W St A B} (h : handler W) (p : prog St A) (f : A -> prog St B) s w b :
  res (run h (p ≫= f) s w) = Ok b ->
  exists a,
    let o1 := run h p s w in
    let o2 := run h (f a) (final o1) (world o1) in
    res o1 = Ok a /\ res o2 = Ok b /\
    trace (run h (p ≫= f) s w) = trace o1 ++ trace o2.
Proof.
  rewrite run_bind. unfold then_outcome.
  destruct (res (run h p s w)) as [a| |] eqn:E; simpl; try discriminate.
  intros H. exists a. auto.
Qed.

Lemma trace_then_prefix {W St A B} (o : outcome W St A)
    (k : A -> St -> W -> outcome W St B) :
  exists rest, trace (then_outcome o k) = trace o ++ rest.
Proof.
  unfold then_outcome. destruct (res o); simpl; eauto using app_nil_r.
Qed.

Lemma trace_bind_prefix {W St A B} (h : handler W) (p : prog St A) (f : A -> prog St B) s w :
  exists rest, trace (run h (p ≫= f) s w) = trace (run h p s w) ++ rest.
Proof.
  rewrite run_bind. unfold then_outcome.
  destruct (res (run h p s w)); simpl; eauto using app_nil_r.
Qed.

Lemma trace_bind_raised {W St A B} (h : handler W) (p : prog St A) (f : A -> prog St B)
    s w exn :
  res (run h p s w) = Raised exn ->
  trace (run h (p ≫= f) s w) = trace (run h p s w).
Proof. intros H. rewrite run_bind. unfold then_outcome. now rewrite H. Qed.

Lemma holds_sound {W St A} (h : handler W) (p : prog St A) tr Q s w a :
  holds p tr Q -> res (run h p s w) = Ok a -> Q (tr ++ trace (run h p s w)) a.
Proof.
  revert tr s w. induction p as [a'|exn| |k IH|s' k IH|X c k IH]; intros tr s w; simpl.
  - intros H [= <-]. now rewrite app_nil_r.
  - discriminate.
  - discriminate.
  - intros H. apply IH, H.
  - apply IH.
  - intros H. destruct (h X c w) as [w' x]. simpl. intros Hr.
    specialize (IH x _ s w' (H x) Hr). now rewrite <- app_assoc in IH.
Qed.

Lemma holds_bind {St A B} (p : prog St A) (f : A -> prog St B) tr Q :
  holds p tr (fun tr' a => holds (f a) tr' Q) -> holds (p ≫= f) tr Q.
Proof.
  unfold mbind, prog_bind. revert tr.
  induction p as [a'|exn| |k IH|s' k IH|X c k IH]; intros tr; simpl; auto.
Qed.

Lemma holds_weaken {St A} (p : prog St A) tr (Q Q' : list event -> A -> Prop) :
  (forall tr' a, Q tr' a -> Q' tr' a) -> holds p tr Q -> holds p tr Q'.
Proof.
  intros HQ. revert tr.
  induction p as [a'|exn| |k IH|s' k IH|X c k IH]; intros tr; simpl; auto.
Qed.

Lemma holds_extends {St A} (p : prog St A) tr :
  holds p tr (fun tr' _ => exists ext, tr' = tr ++ ext).
Proof.
  revert tr. induction p as [a'|exn| |k IH|s' k IH|X c k IH]; intros tr; simpl; auto.
  - exists []. now rewrite app_nil_r.
  - intros x. eapply holds_weaken; [|apply IH].
    intros tr' _ [ext ->]. exists (Ev c x :: ext). now rewrite <- app_assoc.
Qed.

Lemma holds_trigger {St X} (c : call X) tr (Q : list event -> X -> Prop) :
  (forall x, Q (tr ++ [Ev c x]) x) -> holds (trigger (S:=St) c) tr Q.
Proof. simpl. auto. Qed.

Ltac hold_step :=
  first
    [ match goal with
      | |- holds (if ?b then _ else _) _ _ => destruct b eqn:?
      | |- holds (match ?x with _ => _ end) _ _ => destruct x
      | |- holds (when _ _) _ _ => unfold when
      | |- holds (log _ _ _) _ _ => apply holds_trigger; intros []; cbv beta
      | |- holds (trigger _) _ _ => apply holds_trigger; intros ?; cbv beta
      | |- holds (Ret _) _ _ => cbn [holds]
      | |- holds (Raise _) _ _ => exact I
      | |- holds (local_exit _) _ _ => intro; exact I
      | |- holds (ssh_failure_exit _ _) _ _ => intro; intro; exact I
      end
    | apply holds_bind ].

Ltac hold := repeat hold_step.

(** What has been seen in the calls so far stays seen. *)
Lemma holds_keeps {St A} (p : prog St A) tr (seen : list event -> Prop) :
  (forall tr1 ext, seen tr1 -> seen (tr1 ++ ext)) ->
  seen tr -> holds p tr (fun tr' _ => seen tr').
Proof.
  intros Hmono Hs. eapply holds_weaken; [|apply holds_extends].
  intros tr' _ [ext ->]. auto.
Qed.

Lemma inserts_canary_app e d tr ext : inserts_canary e d tr -> inserts_canary e d (tr ++ ext).
Proof. intros [ans H]. exists ans. apply in_or_app. auto. Qed.

Lemma res_bind_raised {W St A B} (h : handler W) (p : prog St A) (f : A -> prog St B)
    s w exn :
  res (run h p s w) = Raised exn -> res (run h (p ≫= f) s w) = Raised exn.
Proof. intros H. rewrite run_bind. unfold then_outcome. now rewrite H. Qed.

Section Turn.

Context {W : Type} (h : handler W) (e : main_env).

Lemma run_start_on_secret_port st s w :
  let o := run h (start_on_secret_port e st) s w in
  exists fmt args cmd ret output,
    (ret <> 0 /\ (exists exn, res o = Raised exn) /\
     trace o = [ Ev (Log INFO fmt args) tt;
                 Ev (Shell (local_ops_ st) cmd) (ret, output);
                 Ev (Log INFO "****%sstart mongod: %d %s****"
                       [AStr "rsync_data beforerecovery & "; AInt ret; AStr output]) tt ])
    \/
    (ret = 0 /\ (exists x, res o = Ok x) /\
     exists tunnel_cmd tunnel,
       trace o =
       [ Ev (Log INFO fmt args) tt;
         Ev (Shell (local_ops_ st) cmd) (0, output);
         Ev (Log INFO "****%sstart mongod: %d %s****"
               [AStr "rsync_data beforerecovery & "; AInt 0; AStr output]) tt;
         Ev (Log INFO "Tunneling mongod connections through ssh to get around firewall"
               []) tt;
         Ev (Log INFO tunnel_cmd []) tt;
         Ev (StartCmd tunnel_cmd false) tunnel;
         Ev (Log INFO
               "The connection is not terminated because the host can be shut down at anytime"
               []) tt ]).
Proof.
  unfold start_on_secret_port, dispatch, call_remote_operation, setup_ssh_tunnel, log.
  cbv zeta. run_step. destruct (h unit _ w) as [w1 []]. cbn [fst snd].
  run_step.
  match goal with |- context [h _ (Shell ?lo ?cmd) w1] =>
    destruct (h _ (Shell lo cmd) w1) as [w2 [ret output]] end.
  cbn [fst snd]. run_step. destruct (h unit _ w2) as [w3 []]. cbn [fst snd].
  eexists _, _, _, ret, output.
  destruct (Z.eqb_spec ret 0) as [->|Hret].
  - right. split; [reflexivity|]. cbn [negb when].
    rewrite run_bind. cbn [run]. unfold then_outcome. cbn [res world final trace app].
    run_step. destruct (h unit _ w3) as [w4 []]. cbn [fst snd].
    run_step. destruct (h unit _ w4) as [w5 []]. cbn [fst snd].
    run_step.
    match goal with |- context [h _ (StartCmd ?c false) w5] =>
      destruct (h _ (StartCmd c false) w5) as [w6 tunnel] end.
    cbn [fst snd]. run_step. destruct (h unit _ w6) as [w7 []]. cbn [fst snd].
    cbn [run res trace app]. split; [eauto|]. eexists _, tunnel. reflexivity.
  - left. split; [assumption|]. cbn [negb when].
    rewrite run_bind, run_local_exit. unfold then_outcome. cbn [res world final trace app].
    split; [eauto|reflexivity].
Qed.

Lemma run_validate_and_shutdown st s w d :
  1 <= loop_num st -> canary_doc st = CanaryDoc d -> d <> ∅ ->
  exists found rest,
    trace (run h (validate_and_shutdown e st) s w) =
    Ev (Log INFO "Validating canary document using %s.%s.find_one(%s)"
          [AStr (DB_NAME (pc e)); AStr (COLLECTION_NAME (pc e))]) tt
    :: Ev (FindOne (Mongo "localhost" (SECRET_PORT (pc e))) (DB_NAME (pc e))
             (COLLECTION_NAME (pc e)) d) found
    :: rest.
Proof.
  intros Hn Hd Hne. unfold validate_and_shutdown. cbv zeta.
  assert ((1 <? loop_num st + 1) = true) as -> by (apply Z.ltb_lt; lia).
  rewrite Hd. unfold when at 1, mongo_validate_canary, log.
  rewrite bool_decide_eq_false_2 by assumption.
  rewrite run_bind.
  match goal with |- context [trace (then_outcome ?o ?k)] =>
    destruct (trace_then_prefix o k) as [r1 ->] end.
  unfold when at 1. rewrite run_bind.
  match goal with |- context [trace (then_outcome ?o ?k)] =>
    destruct (trace_then_prefix o k) as [r2 ->] end.
  run_step. destruct (h unit _ w) as [w1 []]. cbn [fst snd].
  run_step.
  destruct (h bool (FindOne (Mongo "localhost" (SECRET_PORT (pc e))) (DB_NAME (pc e))
                      (COLLECTION_NAME (pc e)) d) w1) as [w2 found].
  cbn [fst snd run trace app]. eexists found, _. reflexivity.
Qed.

Lemma holds_crash st tr :
  holds (crash e st) tr
    (fun tr' orig => exists t, orig = {[ "x" := DFloat t ]} /\ inserts_canary e orig tr').
Proof.
  unfold crash, crash_server_or_kill_mongod, mongo_insert_canary, inserts_canary.
  hold; try (eexists; split; [reflexivity|]; eexists; rewrite !in_app_iff; simpl;
              tauto);
    destruct (String.eqb (crash_method (tc e)) "internal"),
             (String.eqb (crash_method (tc e)) "kill"); simpl in *; congruence.
Qed.

Lemma holds_recover_and_crash st :
  holds (recover_and_crash e st) []
    (fun tr x => exists t, x.2 = {[ "x" := DFloat t ]} /\ inserts_canary e x.2 tr).
Proof.
  unfold recover_and_crash.
  apply holds_bind. eapply holds_weaken; [|apply (holds_extends _ [])].
  intros tr1 [bpb tunnel] _.
  apply holds_bind. eapply holds_weaken; [|apply (holds_extends _ tr1)].
  intros tr2 files _.
  apply holds_bind. eapply holds_weaken; [|apply (holds_extends _ tr2)].
  intros tr3 [bpa boot] _.
  apply holds_bind. eapply holds_weaken; [|apply (holds_extends _ tr3)].
  intros tr4 [] _.
  apply holds_bind. eapply holds_weaken; [|apply holds_crash].
  intros tr5 orig (t & -> & Hin).
  apply holds_bind. eapply holds_weaken;
    [|apply (holds_keeps _ tr5 (inserts_canary e {[ "x" := DFloat t ]}))];
    [|intros; now apply inserts_canary_app|assumption].
  intros tr6 [] Hin6. simpl. eauto.
Qed.

Lemma main_loop_body_hands_over st s w st' :
  res (run h (main_loop_body e st) s w) = Ok st' ->
  loop_num st' = loop_num st + 1 /\
  exists t,
    canary_doc st' = CanaryDoc {[ "x" := DFloat t ]} /\
    inserts_canary e {[ "x" := DFloat t ]} (trace (run h (main_loop_body e st) s w)).
Proof.
  intros H.
  assert (Hh : holds (main_loop_body e st) []
            (fun tr st' =>
               loop_num st' = loop_num st + 1 /\
               exists t, canary_doc st' = CanaryDoc {[ "x" := DFloat t ]} /\
                         inserts_canary e {[ "x" := DFloat t ]} tr)).
  { unfold main_loop_body. apply holds_bind.
    eapply holds_weaken; [|apply holds_recover_and_crash].
    intros tr1 [[[bpb bpa] boot] orig] (t & Ht & Hin). simpl in Ht. subst orig.
    simpl in Hin.
    apply holds_bind. eapply holds_weaken;
      [|apply (holds_keeps _ tr1 (inserts_canary e {[ "x" := DFloat t ]}))];
      [|intros; now apply inserts_canary_app|assumption].
    intros tr2 lo Hin2. simpl. intros now []. split; [reflexivity|].
    exists t. split; [reflexivity|]. now repeat apply inserts_canary_app. }
  apply (holds_sound h _ [] _ s w st' Hh H).
Qed.

Lemma main_loop_body_shape st s w d :
  1 <= loop_num st -> canary_doc st = CanaryDoc d -> d <> ∅ ->
  let tr := trace (run h (main_loop_body e st) s w) in
  starts_with_canary_lookup e st d tr \/ stops_at_first_batch st tr.
Proof.
  intros Hn Hd Hne tr. subst tr. unfold main_loop_body, recover_and_crash.
  destruct (run_start_on_secret_port st s w)
    as (fmt & args & cmd & ret & output &
        [(Hret & [exn Hres] & Htr) | (-> & [x Hres] & tunnel_cmd & tunnel & Htr)]).
  - right. exists fmt, args, cmd, ret, output. split; [assumption|].
    erewrite trace_bind_raised by (apply res_bind_raised; exact Hres).
    erewrite trace_bind_raised by exact Hres. exact Htr.
  - left. rewrite run_bind.
    match goal with |- context [trace (then_outcome ?o ?k)] =>
      destruct (trace_then_prefix o k) as [r1 ->] end.
    rewrite run_bind. unfold then_outcome at 1. rewrite Hres. cbn [trace].
    destruct x as [bpb tun]. rewrite run_bind.
    match goal with |- context [trace (then_outcome ?o ?k)] =>
      destruct (trace_then_prefix o k) as [r2 ->] end.
    match goal with |- context [run h (validate_and_shutdown e st) ?s' ?w'] =>
      destruct (run_validate_and_shutdown st s' w' d Hn Hd Hne) as (found & rest & ->) end.
    rewrite Htr. unfold starts_with_canary_lookup.
    exists fmt, args, cmd, output, tunnel_cmd, tunnel, found, ((rest ++ r2) ++ r1).
    cbn [app]. rewrite <- !app_assoc. reflexivity.
Qed.

End Turn.

(** ** The turns of a run *)

Section Turns.

Context {W : Type} (h : handler W) (e : main_env).

Lemma main_loop_turns fuel st s w :
  trace (run h (main_loop e fuel st) s w) = flat_map (turn_calls h e) (turns h e fuel st s w).
Proof.
  revert st s w. induction fuel as [|fuel IH]; intros st s w; [reflexivity|].
  cbn [main_loop turns flat_map turn_calls]. rewrite run_bind. unfold then_outcome.
  set (o := run h (main_loop_body e st) s w).
  destruct (res o) as [st'| |]; cbn [trace flat_map]; rewrite ?app_nil_r; auto.
  destruct (loop_num st' =? effective_test_loops e).
  - cbn [run trace flat_map]. now rewrite !app_nil_r.
  - rewrite run_bind. unfold then_outcome.
    assert (Hc : exists u, res (run h (check_disk e st') (final o) (world o)) = Ok u).
    { unfold check_disk, dispatch, call_remote_operation, log. run_step.
      match goal with |- context [h _ (Shell ?lo ?cmd) ?w0] =>
        destruct (h _ (Shell lo cmd) w0) as [w1 [ret output]] end.
      cbn [fst snd]. destruct (negb (ret =? 0)); cbn [when].
      - rewrite run_trigger. cbn [res]. eauto.
      - cbn [run res]. eauto. }
    destruct Hc as [[] Hc]. rewrite Hc. cbn [trace]. rewrite IH.
    now rewrite app_assoc.
Qed.

Lemma turns_first fuel st s w t :
  turns h e fuel st s w !! 0%nat = Some t ->
  t = (st, run h (main_loop_body e st) s w).
Proof. destruct fuel; simpl; congruence. Qed.

Lemma turns_next k : forall fuel st s w st' o',
  turns h e fuel st s w !! S k = Some (st', o') ->
  exists st0 o0,
    turns h e fuel st s w !! k = Some (st0, o0) /\ res o0 = Ok st' /\
    exists s' w', o' = run h (main_loop_body e st') s' w'.
Proof.
  induction k as [|k IH]; intros fuel st s w st' o'.
  - destruct fuel as [|fuel]; [discriminate|]. cbn [turns].
    set (o := run h (main_loop_body e st) s w).
    change ((?x :: ?l) !! 1%nat) with (l !! 0%nat).
    destruct (res o) as [st1| |] eqn:E; try discriminate.
    destruct (loop_num st1 =? effective_test_loops e); [discriminate|].
    intros H%turns_first. injection H as -> ->.
    exists st, o. repeat split; auto. eauto.
  - destruct fuel as [|fuel]; [discriminate|]. cbn [turns].
    set (o := run h (main_loop_body e st) s w).
    change ((?x :: ?l) !! S (S k)) with (l !! S k).
    destruct (res o) as [st1| |] eqn:E; try discriminate.
    destruct (loop_num st1 =? effective_test_loops e); [discriminate|].
    intros H. destruct (IH _ _ _ _ _ _ H) as (st0 & o0 & H0 & Hr & Hrun).
    exists st0, o0. repeat split; auto.
Qed.

Lemma turns_elem k fuel st s w st' o' :
  turns h e fuel st s w !! k = Some (st', o') ->
  exists s' w', o' = run h (main_loop_body e st') s' w'.
Proof.
  destruct k as [|k].
  - intros H%turns_first. injection H as -> ->. eauto.
  - intros H. destruct (turns_next _ _ _ _ _ _ _ H) as (_ & _ & _ & _ & Hrun). exact Hrun.
Qed.

Lemma turns_loop_num k : forall fuel st s w st' o',
  turns h e fuel st s w !! k = Some (st', o') ->
  loop_num st' = loop_num st + Z.of_nat k.
Proof.
  induction k as [|k IH]; intros fuel st s w st' o' H.
  - apply turns_first in H. injection H as -> _. simpl. lia.
  - destruct (turns_next _ _ _ _ _ _ _ H) as (st0 & o0 & H0 & Hr & _).
    pose proof (IH _ _ _ _ _ _ H0) as Hn.
    destruct (turns_elem _ _ _ _ _ _ _ H0) as (s0 & w0 & ->).
    destruct (main_loop_body_hands_over h e st0 s0 w0 st' Hr) as [Hl _]. lia.
Qed.

End Turns.

(** C1: the calls of a run of the loop are those of its turns, and for every
    turn: on loop 1 the canary is not looked up; on loop n, for n at least 2,
    the previous turn has returned, it has inserted a canary, which is the
    value of [canary_doc] now, and the calls of this turn start with the
    first batch (mongod started on the secret port), the tunnel, and the
    lookup of exactly that canary through the secret port, before anything
    else; unless the first batch fails, which ends the run. *)
Theorem canary_validated_on_next_turn :
  forall W (h : handler W) (e : main_env) (fuel : nat) (lo : local_ops)
         (s : globals) (w : W),
    let T := turns h e fuel (initial_loop_state e lo) s w in
    trace (run h (main_loop e fuel (initial_loop_state e lo)) s w)
    = flat_map (turn_calls h e) T /\
    forall (k : nat) st o,
      T !! k = Some (st, o) ->
      loop_num st + 1 = Z.of_nat (S k) /\
      match k with
      | O => none_of find_one_call (trace o) = true
      | S k' =>
          exists st_prev o_prev d,
            T !! k' = Some (st_prev, o_prev) /\
            res o_prev = Ok st /\
            inserts_canary e d (trace o_prev) /\
            canary_doc st = CanaryDoc d /\
            (starts_with_canary_lookup e st d (trace o) \/ stops_at_first_batch st (trace o))
      end.
Proof.
  intros W h e fuel lo s w T. split; [apply main_loop_turns|].
  intros k st o Hk.
  pose proof (turns_loop_num h e _ _ _ _ _ _ _ Hk) as Hn. simpl in Hn.
  split; [lia|].
  destruct k as [|k].
  - apply turns_first in Hk. injection Hk as -> ->.
    apply (avoids_sound find_one_call h (main_loop_body e (initial_loop_state e lo)) s w).
    apply avoids_main_loop_body. reflexivity.
  - destruct (turns_next h e _ _ _ _ _ _ _ Hk) as (st0 & o0 & H0 & Hr & s' & w' & ->).
    destruct (turns_elem h e _ _ _ _ _ _ _ H0) as (s0 & w0 & ->).
    destruct (main_loop_body_hands_over h e st0 s0 w0 st Hr) as (_ & t & Hd & Hin).
    exists st0, (run h (main_loop_body e st0) s0 w0), {[ "x" := DFloat t ]}.
    split; [assumption|]. split; [assumption|]. split; [assumption|].
    split; [assumption|].
    apply main_loop_body_shape; [lia|assumption|apply insert_non_empty].
Qed.

(** ** Scenarios *)

Lemma is_running_table_kill t q p :
  is_running t p = false -> is_running (table_kill t q) p = false.
Proof.
  unfold is_running, table_kill. destruct (existsb _ (immortal t)); [auto|]. simpl.
  induction (live t) as [|r l IH]; simpl; [auto|].
  intros [Hr Hl]%orb_false_iff. destruct (negb (proc_eqb q r)); simpl; auto.
  rewrite Hr. auto.
Qed.

Lemma stale_proc_is_stale : stale_handle simulate stale_proc stale_proc_gone.
Proof.
  split.
  - intros X c w (Hs & Hr & Hn). unfold simulate. rewrite Hs.
    destruct c; simpl;
      try (destruct (is_running (table w) p) eqn:?; simpl);
      (split; [exact Hs|split; [|simpl; lia]]);
      auto using is_running_table_kill.
    + simpl. now apply is_running_table_kill.
    + unfold is_running in *. cbn [table live]. rewrite existsb_app, Hr.
      unfold proc_eqb, stale_proc. cbn [existsb pid create_time orb].
      rewrite (proj2 (Z.eqb_neq 42 (1000 + spawned w))) by lia. reflexivity.
  - intros w (Hs & Hr & Hn). unfold simulate. rewrite !Hs. simpl. rewrite Hr. auto.
Qed.

(** C8 at an example: pid 42 has been reused. *)
Lemma kill_process_stale_handle_witness :
  let o := run simulate (kill_process (S:=unit) stale_proc false) tt reused_pid_world in
  res o = Ok 0 /\ final o = tt /\
  In (could_not_kill stale_proc) (trace o) /\
  forallb (fun e => negb (killed e)) (trace o) = true.
Proof.
  apply (kill_process_stale_handle sim simulate stale_proc_gone unit stale_proc false tt
           reused_pid_world stale_proc_is_stale).
  split; [reflexivity|]. split; [reflexivity|]. simpl. lia.
Defined.

(** C4 at an example: the service that [MongodControl.install] makes, with
    no data directory and no tracked pid, answers stopped; a service with
    one tracked pid and the data directory [/data/db] follows the lock
    file. *)
Lemma PosixService_status_cases_witness :
  let w := new_sim nothing_scripted in
  (let o := run simulate PosixService.status installed_service w in
   trace o = [] /\ res o = Ok "stopped" /\ final o = installed_service /\
   pids (final o) = []) /\
  (let self := test_service in
   let lock_file := os_path_join "/data/db" "mongod.lock" in
   let o := run simulate PosixService.status self w in
   let a := simulate _ (OsPathExists lock_file) w in
   (a.2 = false ->
    res o = Ok "stopped" /\ pids (final o) = [] /\ final o = set_pids [] self) /\
   (a.2 = true ->
    let b := simulate _ (OsStatSize lock_file) a.1 in
    (b.2 = Some 0 ->
     res o = Ok "stopped" /\ pids (final o) = [] /\ final o = set_pids [] self) /\
    (b.2 = None ->
     res o = Ok "running" /\ pids (final o) = pids self /\ final o = self) /\
    (forall n, b.2 = Some n -> n <> 0 ->
               res o = Ok "running" /\ pids (final o) = pids self /\ final o = self))).
Proof.
  split.
  - apply (PosixService_status_cases sim simulate installed_service
             (new_sim nothing_scripted)).
    reflexivity.
  - apply (PosixService_status_cases sim simulate test_service (new_sim nothing_scripted)).
    + reflexivity.
    + discriminate.
Defined.

(** C6 at an example: the copy already has the name of this loop. *)
Lemma backup_path_suffix_and_single_rename_witness :
  get_backup_path ("/data/mci/beforerecovery" +:+ "-" +:+ str (2 - 1)) 2
  = "/data/mci/beforerecovery" +:+ "-" +:+ str 2 /\
  let options := AgentOptions ["rsync_data"] 20001 (Some ("/data/b-1", "/data/b-1")) "latest" in
  let o := run simulate
             (perform false test_constants (test_task_config "internal" None 2) options
                "/data/mci" "/data/db" "/log/mongod.log" "rsync_data")
             tt (new_sim nothing_scripted) in
  List.filter is_rename (trace o) = [].
Proof.
  destruct backup_path_suffix_and_single_rename as [Hpath Hrename]. split.
  - apply Hpath.
  - destruct (Hrename sim simulate unit false test_constants
                (test_task_config "internal" None 2)
                ["rsync_data"] 20001 "latest" "/data/mci" "/data/db" "/log/mongod.log"
                "/data/b-1" "/data/b-1" tt (new_sim nothing_scripted)) as (_ & H & _).
    apply H. reflexivity.
Defined.

(** C9: with no compatibility version in the task configuration, the first
    batch of loop 1 has no [set_fcv]. *)
Lemma start_batch_without_set_fcv :
  let e := test_env "internal" None 2 in
  let st := initial_loop_state e connected in
  let o := run simulate (start_on_secret_port e st) initial_globals
             (new_sim rebooting_host) in
  loop_num st + 1 = 1 /\
  shell_commands (trace o) =
  [ ". venv_powercycle/bin/activate; python -u /data/mci/buildscripts/resmoke.py powercycle run --sshUserHost ec2-user@10.0.0.7 --remoteOperation --rsyncDest /data/mci/beforerecovery-1 /data/mci/beforerecovery-1 --mongodHost 10.0.0.7 --mongodPort 20001 rsync_data start_mongod  seed_docs" ] /\
  words (start_operations (set_fcv_cmd (tc e)) (loop_num st + 1))
  = ["rsync_data"; "start_mongod"; "seed_docs"] /\
  ~ In "set_fcv" (words (start_operations (set_fcv_cmd (tc e)) (loop_num st + 1))).
Proof.
  vm_compute. repeat split. intros [H|[H|[H|[]]]]; discriminate.
Qed.

(** C7: two runs that end with the same exit code, 255.  In the first the
    first batch cannot be sent, an ordinary failure; in the second the host
    does not come back after the crash. *)
Lemma ssh_failure_exit_code_not_distinct :
  let e := test_env "internal" (Some "4.4") 2 in
  let ordinary :=
    run simulate (main e 3 connected) initial_globals (new_sim start_batch_refused) in
  let ssh_failure :=
    run simulate (main e 3 connected) initial_globals (new_sim host_stays_down) in
  res ordinary = Raised (SystemExit 255) /\
  EXIT_YML (final ordinary) !! "ec2_ssh_failure" = None /\
  res ssh_failure = Raised (SystemExit 255) /\
  EXIT_YML (final ssh_failure) !! "ec2_ssh_failure"
  = Some (YStr "ssh: connect to host 10.0.0.7 port 22: Connection timed out").
Proof. vm_compute. repeat split. Qed.

(** C7 at an example: the host does not come back after the crash of the
    first turn. *)
Lemma ssh_failure_terminal_state_witness :
  let e := test_env "internal" (Some "4.4") 2 in
  let o := run simulate (main_loop e 1 (initial_loop_state e connected)) initial_globals
             (new_sim host_stays_down) in
  res o = Raised (SystemExit 255) /\
  EXIT_YML (final o) !! "ec2_ssh_failure"
  = Some (YStr "ssh: connect to host 10.0.0.7 port 22: Connection timed out") /\
  EXIT_YML (final o) !! "exit_code" = Some (YInt 255).
Proof.
  intros e o.
  edestruct (ssh_failure_terminal_state sim simulate e 0%nat
               (initial_loop_state e connected) initial_globals (new_sim host_stays_down))
    as (H1 & H2 & H3 & _).
  - vm_compute. reflexivity.
  - vm_compute. reflexivity.
  - split; [exact H1|]. split; [exact H2|exact H3].
Defined.

(** C3: the crash method is internal and the agent logs errors only, so
    that no boot time is found in its output: both boot times are -1, the
    one after the crash is not later than the other, and the run completes;
    the check is replaced by a warning. *)
Lemma boot_time_check_skipped_without_uptime :
  let e := test_env "internal" (Some "4.4") 1 in
  let o := run simulate (main e 2 connected) initial_globals (new_sim quiet_agent) in
  crash_method (tc e) = "internal" /\
  get_boot_datetime (floats e) EmptyString = inr NoBootTime /\
  boot_time_le NoBootTime NoBootTime = Some true /\
  res o = Ok tt /\
  REPORT_JSON_SUCCESS (final o) = true /\
  existsb is_cannot_compare (trace o) = true.
Proof. vm_compute. repeat split. Qed.

(** C3 at an example: the crash method is internal and the host comes back
    with the boot time it had. *)
Lemma boot_time_check_witness :
  let e := test_env "internal" (Some "4.4") 2 in
  let st := initial_loop_state e connected in
  let w := new_sim host_not_rebooted in
  res (run simulate (main_loop_body e st) initial_globals w) = Raised boot_time_not_newer /\
  res (run simulate (main_loop e 1 st) initial_globals w) = Raised boot_time_not_newer.
Proof.
  intros e st w.
  edestruct (boot_time_check sim simulate e 0%nat st initial_globals w) as [_ H].
  - vm_compute. reflexivity.
  - vm_compute. reflexivity.
  - vm_compute. reflexivity.
  - exact (H eq_refl).
Defined.

(** C1 at an example: the second turn of a run of two loops. *)
Lemma canary_validated_on_next_turn_witness :
  let e := test_env "internal" (Some "4.4") 2 in
  let T := turns simulate e 3 (initial_loop_state e connected) initial_globals
             (new_sim rebooting_host) in
  exists st o,
    T !! 1%nat = Some (st, o) /\
    loop_num st + 1 = 2 /\
    exists st_prev o_prev d,
      T !! 0%nat = Some (st_prev, o_prev) /\
      res o_prev = Ok st /\
      inserts_canary e d (trace o_prev) /\
      canary_doc st = CanaryDoc d /\
      (starts_with_canary_lookup e st d (trace o) \/ stops_at_first_batch st (trace o)).
Proof.
  intros e T.
  destruct (T !! 1%nat) as [[st o]|] eqn:E.
  - exists st, o. split; [reflexivity|].
    exact (proj2 (canary_validated_on_next_turn sim simulate e 3%nat connected
                    initial_globals (new_sim rebooting_host)) 1%nat st o E).
  - vm_compute in E. discriminate.
Defined.
(** * More properties of the module *)

(** ** Every run of a program *)

Lemma wp_sound {W St A} (h : handler W) (p : prog St A) s w tr Q :
  wp p s tr Q ->
  Q (tr ++ trace (run h p s w)) (final (run h p s w)) (res (run h p s w)).
Proof.
  revert s w tr. induction p as [a|exn| |k IH|s' k IH|X c k IH]; intros s w tr; simpl;
    rewrite ?app_nil_r; auto.
  intros H. destruct (h X c w) as [w' x]. simpl.
  specialize (IH x s w' _ (H x)). now rewrite <- app_assoc in IH.
Qed.

Lemma wp_run {W St A} (h : handler W) (p : prog St A) s w Q :
  wp p s [] Q -> Q (trace (run h p s w)) (final (run h p s w)) (res (run h p s w)).
Proof. intros H. apply (wp_sound h p s w [] Q H). Qed.

Lemma wp_bind {St A B} (p : prog St A) (f : A -> prog St B) s tr Q :
  wp p s tr (and_then f Q) -> wp (p ≫= f) s tr Q.
Proof.
  unfold mbind, prog_bind. revert s tr.
  induction p as [a|exn| |k IH|s' k IH|X c k IH]; intros s tr; simpl; auto.
Qed.

Lemma wp_weaken {St A} (p : prog St A) s tr (Q Q' : list event -> St -> result A -> Prop) :
  (forall tr' s' r, Q tr' s' r -> Q' tr' s' r) -> wp p s tr Q -> wp p s tr Q'.
Proof.
  intros HQ. revert s tr.
  induction p as [a|exn| |k IH|s' k IH|X c k IH]; intros s tr; simpl; auto.
Qed.

Lemma wp_trigger {St X} (c : call X) (s : St) tr Q :
  (forall x, Q (tr ++ [Ev c x]) s (Ok x)) -> wp (trigger c) s tr Q.
Proof. simpl. auto. Qed.

Lemma wp_modify {St} (f : St -> St) (s : St) tr Q :
  Q tr (f s) (Ok tt) -> wp (modify f) s tr Q.
Proof. simpl. auto. Qed.

(** The calls made so far are a prefix of the calls at the end. *)
Lemma wp_extends {St A} (p : prog St A) s tr :
  wp p s tr (fun tr' _ _ => exists ext, tr' = tr ++ ext).
Proof.
  revert s tr. induction p as [a|exn| |k IH|s' k IH|X c k IH]; intros s tr; simpl;
    try (exists []; now rewrite app_nil_r); auto.
  intros x. eapply wp_weaken; [|apply IH].
  intros tr' _ _ [ext ->]. exists (Ev c x :: ext). now rewrite <- app_assoc.
Qed.

Lemma wp_conj {St A} (p : prog St A) s tr (Q1 Q2 : list event -> St -> result A -> Prop) :
  wp p s tr Q1 -> wp p s tr Q2 -> wp p s tr (fun tr' s' r => Q1 tr' s' r /\ Q2 tr' s' r).
Proof.
  revert s tr. induction p as [a|exn| |k IH|s' k IH|X c k IH]; intros s tr; simpl; auto.
Qed.

Lemma wp_any {St A} (p : prog St A) s tr : wp p s tr (fun _ _ _ => True).
Proof.
  revert s tr. induction p as [a|exn| |k IH|s' k IH|X c k IH]; intros s tr; simpl; auto.
Qed.

Lemma wp_avoids which {St A} (p : prog St A) s tr :
  avoids which p ->
  wp p s tr (fun tr' _ _ => exists ext, tr' = tr ++ ext /\ none_of which ext = true).
Proof.
  revert s tr. induction p as [a|exn| |k IH|s' k IH|X c k IH]; intros s tr; simpl;
    try (intros _; exists []; now rewrite app_nil_r); auto.
  intros [Hc Hk] x. eapply wp_weaken; [|apply IH, Hk].
  intros tr' _ _ (ext & -> & He). exists (Ev c x :: ext). rewrite <- app_assoc.
  split; [reflexivity|]. cbn [none_of forallb ev_call ev_type]. rewrite Hc. exact He.
Qed.

Lemma wp_preserves {St A} (I : St -> Prop) (p : prog St A) s tr :
  preserves I p -> I s -> wp p s tr (fun _ s' _ => I s').
Proof.
  revert s tr. induction p as [a|exn| |k IH|s' k IH|X c k IH]; intros s tr; simpl; auto.
  intros [Hs Hk] _. auto.
Qed.

Ltac wp_step :=
  lazymatch goal with
  | |- wp (_ ≫= _) _ _ _ => apply wp_bind
  | |- wp (log _ _ _) _ _ _ => apply wp_trigger; intros []; cbn beta iota delta [and_then]
  | |- wp (trigger _) _ _ _ => apply wp_trigger; intros ?; cbn beta iota delta [and_then]
  | |- wp (modify _) _ _ _ => apply wp_modify; cbn beta iota delta [and_then]
  | |- wp get _ _ _ => cbn [get wp]; cbn beta iota delta [and_then]
  | |- wp (put _) _ _ _ => cbn [put wp]; cbn beta iota delta [and_then]
  | |- wp (Ret _) _ _ _ => cbn [wp]; cbn beta iota delta [and_then]
  | |- wp (Raise _) _ _ _ => cbn [wp]; cbn beta iota delta [and_then]
  | |- wp (when ?b _) _ _ _ => unfold when
  | |- wp (let '(_, _) := ?x in _) _ _ _ => destruct x
  | |- wp (if ?b then _ else _) _ _ _ => destruct b eqn:?
  | |- wp (match ?x with _ => _ end) _ _ _ => destruct x eqn:?
  end.

Ltac wp_steps := repeat wp_step.

(** ** Properties of the state that a program preserves *)

Lemma preserves_sound {W St A} (I : St -> Prop) (h : handler W) (p : prog St A) s w :
  preserves I p -> I s -> I (final (run h p s w)).
Proof.
  revert s w. induction p as [a|exn| |k IH|s' k IH|X c k IH]; intros s w; simpl; auto.
  - intros [Hs Hk] _. auto.
  - intros H Hs. destruct (h X c w) as [w' x]. simpl. auto.
Qed.

Lemma preserves_bind {St A B} (I : St -> Prop) (p : prog St A) (f : A -> prog St B) :
  preserves I p -> (forall a, preserves I (f a)) -> preserves I (p ≫= f).
Proof.
  unfold mbind, prog_bind.
  induction p as [a|exn| |k IH|s' k IH|X c k IH]; simpl; auto.
  intros [Hs Hk] Hf. auto.
Qed.

Lemma preserves_for_each {St A} (I : St -> Prop) (l : list A) (body : A -> prog St unit) :
  (forall x, preserves I (body x)) -> preserves I (for_each l body).
Proof.
  intros Hb. induction l as [|x l IH]; simpl; auto.
  apply (preserves_bind I (body x)); auto.
Qed.

Lemma preserves_trigger {St X} (I : St -> Prop) (c : call X) : preserves I (trigger (S:=St) c).
Proof. simpl. auto. Qed.

Lemma preserves_modify {St} (I : St -> Prop) (f : St -> St) :
  (forall s, I s -> I (f s)) -> preserves I (modify f).
Proof. simpl. auto. Qed.

(** ** Selections from the calls *)

Lemma waited_app tr1 tr2 : waited (tr1 ++ tr2) = waited tr1 ++ waited tr2.
Proof. apply flat_map_app. Qed.

Lemma named_app tr1 tr2 : named (tr1 ++ tr2) = named tr1 ++ named tr2.
Proof. apply flat_map_app. Qed.

Lemma kill_calls_app tr1 tr2 : kill_calls (tr1 ++ tr2) = kill_calls tr1 ++ kill_calls tr2.
Proof. apply flat_map_app. Qed.

Lemma slept_app tr1 tr2 : slept (tr1 ++ tr2) = slept tr1 ++ slept tr2.
Proof. apply flat_map_app. Qed.

Lemma clock_readings_app tr1 tr2 :
  clock_readings (tr1 ++ tr2) = clock_readings tr1 ++ clock_readings tr2.
Proof. apply flat_map_app. Qed.

Lemma status_answers_app tr1 tr2 :
  status_answers (tr1 ++ tr2) = status_answers tr1 ++ status_answers tr2.
Proof. apply flat_map_app. Qed.

Lemma executed_app tr1 tr2 : executed (tr1 ++ tr2) = executed tr1 ++ executed tr2.
Proof. apply flat_map_app. Qed.

Lemma admin_commands_app tr1 tr2 :
  admin_commands (tr1 ++ tr2) = admin_commands tr1 ++ admin_commands tr2.
Proof. apply flat_map_app. Qed.

Lemma temp_names_app tr1 tr2 : temp_names (tr1 ++ tr2) = temp_names tr1 ++ temp_names tr2.
Proof. apply flat_map_app. Qed.

Lemma path_exists_answers_app tr1 tr2 :
  path_exists_answers (tr1 ++ tr2) = path_exists_answers tr1 ++ path_exists_answers tr2.
Proof. apply flat_map_app. Qed.

Lemma removed_files_app tr1 tr2 :
  removed_files (tr1 ++ tr2) = removed_files tr1 ++ removed_files tr2.
Proof. apply flat_map_app. Qed.

Lemma none_of_app which tr1 tr2 :
  none_of which (tr1 ++ tr2) = none_of which tr1 && none_of which tr2.
Proof. apply forallb_app. Qed.

(** ** [kill_process] and [kill_processes] *)

(** The loop of [kill_process] over [procs]: it returns, leaves the state
    alone, asks for the name of each process in order, and kills only
    processes of [procs]. *)
Lemma kill_each_spec {St} (procs : list proc) (s : St) tr :
  wp (for_each procs (fun p =>
        n ← trigger (ProcName p);
        match n with
        | NoSuchProcess =>
            log WARNING "Could not kill process %d, as it no longer exists" [AInt (pid p)]
        | Found name =>
            log DEBUG "Killing process '%s' pid %d" [AStr name; AInt (pid p)];;
            k ← trigger (ProcKill p);
            match k with
            | NoSuchProcess =>
                log WARNING "Could not kill process %d, as it no longer exists" [AInt (pid p)]
            | Found _ => Ret tt
            end
        end)) s tr
    (fun tr' s' r =>
       s' = s /\ r = Ok tt /\
       exists ext, tr' = tr ++ ext /\ named ext = procs /\ waited ext = [] /\
                   incl (kill_calls ext) procs /\
                   none_of proc_children_call ext = true).
Proof.
  revert tr. induction procs as [|p procs IH]; intros tr.
  - simpl. repeat split; auto. exists []. rewrite app_nil_r. repeat split; auto.
    intros x [].
  - cbn [for_each]. apply wp_bind.
    assert (Hrest : forall ext1,
               named ext1 = [p] -> waited ext1 = [] -> incl (kill_calls ext1) [p] ->
               none_of proc_children_call ext1 = true ->
               wp (for_each procs (fun p =>
                     n ← trigger (ProcName p);
                     match n with
                     | NoSuchProcess =>
                         log WARNING "Could not kill process %d, as it no longer exists"
                           [AInt (pid p)]
                     | Found name =>
                         log DEBUG "Killing process '%s' pid %d" [AStr name; AInt (pid p)];;
                         k ← trigger (ProcKill p);
                         match k with
                         | NoSuchProcess =>
                             log WARNING "Could not kill process %d, as it no longer exists"
                               [AInt (pid p)]
                         | Found _ => Ret tt
                         end
                     end)) s (tr ++ ext1)
                 (fun tr' s' r =>
                    s' = s /\ r = Ok tt /\
                    exists ext, tr' = tr ++ ext /\ named ext = p :: procs /\ waited ext = [] /\
                                incl (kill_calls ext) (p :: procs) /\
                                none_of proc_children_call ext = true)).
    { intros ext1 Hn Hw Hk Hc. eapply wp_weaken; [|apply IH].
      intros tr' s' r (-> & -> & ext & -> & Hn' & Hw' & Hk' & Hc').
      repeat split; auto. exists (ext1 ++ ext). rewrite app_assoc.
      rewrite named_app, waited_app, kill_calls_app, none_of_app, Hn, Hw, Hn', Hw', Hc, Hc'.
      repeat split; auto.
      apply incl_app; [intros x Hx; left; destruct (Hk x Hx) as [|[]]; auto
                      |now apply incl_tl]. }
    wp_step. wp_step. destruct x as [name|].
    + wp_step. wp_step. wp_step. wp_step. destruct x as [[]|].
      * wp_step. rewrite <- !app_assoc. apply Hrest; auto.
        intros x [<-|[]]. now left.
      * wp_step. rewrite <- !app_assoc. apply Hrest; auto.
        intros x [<-|[]]. now left.
    + wp_step. rewrite <- !app_assoc. apply Hrest; auto. intros x [].
Qed.

Lemma wp_log_alive {St} (alive : list proc) (s : St) tr (Q : list event -> St -> result unit -> Prop) :
  Q (tr ++ map still_alive alive) s (Ok tt) ->
  wp (for_each alive (fun p => log ERROR "Process %d still alive!" [AInt (pid p)])) s tr Q.
Proof.
  revert tr. induction alive as [|p alive IH]; intros tr; simpl.
  - now rewrite app_nil_r.
  - intros H []. apply IH. now rewrite <- app_assoc.
Qed.

Lemma selected_still_alive (alive : list proc) :
  named (map still_alive alive) = [] /\ waited (map still_alive alive) = [] /\
  kill_calls (map still_alive alive) = [] /\
  none_of proc_children_call (map still_alive alive) = true.
Proof. induction alive as [|p l (H1 & H2 & H3 & H4)]; simpl; auto. Qed.

Lemma listed_children_app tr1 tr2 :
  listed_children (tr1 ++ tr2) = listed_children tr1 ++ listed_children tr2.
Proof. apply flat_map_app. Qed.

Lemma none_listed tr : none_of proc_children_call tr = true -> listed_children tr = [].
Proof.
  induction tr as [|[X c x] tr IH]; [reflexivity|].
  cbn [none_of forallb ev_call]. intros [Hc Ht]%andb_true_iff.
  destruct c; try discriminate; cbn [listed_children flat_map ev_call ev_answer app];
    now apply IH.
Qed.

(** What [kill_process] does, whatever psutil answers. *)
Lemma kill_process_spec {St} (parent : proc) (kill_children : bool) (s : St) tr :
  wp (kill_process parent kill_children) s tr
    (fun tr' s' r =>
       s' = s /\ r = Ok 0 /\
       exists ext, tr' = tr ++ ext /\ waited ext = [] /\
         match listed_children ext with
         | [] =>
             kill_children = false /\ named ext = [parent] /\
             incl (kill_calls ext) [parent]
         | [(p, recursive, Found children)] =>
             kill_children = true /\ p = parent /\ recursive = true /\
             named ext = children ++ [parent] /\
             incl (kill_calls ext) (children ++ [parent])
         | [(p, recursive, NoSuchProcess)] =>
             kill_children = true /\ p = parent /\ recursive = true /\
             named ext = [] /\ kill_calls ext = []
         | _ => False
         end).
Proof.
  assert (Hmain : forall procs pre,
    named pre = [] -> waited pre = [] -> kill_calls pre = [] ->
    wp (for_each (procs ++ [parent]) (fun p =>
          n ← trigger (ProcName p);
          match n with
          | NoSuchProcess =>
              log WARNING "Could not kill process %d, as it no longer exists" [AInt (pid p)]
          | Found name =>
              log DEBUG "Killing process '%s' pid %d" [AStr name; AInt (pid p)];;
              k ← trigger (ProcKill p);
              match k with
              | NoSuchProcess =>
                  log WARNING "Could not kill process %d, as it no longer exists"
                    [AInt (pid p)]
              | Found _ => Ret tt
              end
          end);;
        '(_, alive) ← trigger (WaitProcs (procs ++ [parent]) 30);
        for_each alive (fun p => log ERROR "Process %d still alive!" [AInt (pid p)]);;
        Ret 0) s (tr ++ pre)
      (fun tr' s' r =>
         s' = s /\ r = Ok 0 /\
         exists ext, tr' = tr ++ ext /\ waited ext = [] /\
           listed_children ext = listed_children pre /\
           named ext = procs ++ [parent] /\
           incl (kill_calls ext) (procs ++ [parent]))).
  { intros procs pre Hn0 Hw0 Hk0.
    apply wp_bind. eapply wp_weaken; [|apply kill_each_spec].
    intros tr1 s1 r1 (-> & -> & ext1 & -> & Hn & Hw & Hk & Hc). cbn [and_then].
    wp_step. wp_step. destruct x as [gone alive]. wp_step.
    apply wp_log_alive. cbn [and_then wp]. repeat split; auto.
    destruct (selected_still_alive alive) as (Hn2 & Hw2 & Hk2 & Hc2).
    exists (pre ++ ext1 ++ Ev (WaitProcs (procs ++ [parent]) 30) (gone, alive)
                 :: map still_alive alive).
    rewrite <- !app_assoc. split; [reflexivity|].
    rewrite !waited_app, !listed_children_app, !named_app, !kill_calls_app.
    cbn [waited listed_children named kill_calls flat_map ev_call ev_answer app].
    fold (waited (map still_alive alive)). fold (named (map still_alive alive)).
    fold (kill_calls (map still_alive alive)).
    fold (listed_children (map still_alive alive)).
    rewrite Hn0, Hw0, Hk0, Hn, Hw, Hn2, Hw2, Hk2, (none_listed _ Hc), (none_listed _ Hc2).
    rewrite !app_nil_r. cbn [app]. auto. }
  unfold kill_process. apply wp_bind. destruct kill_children.
  - wp_step. destruct x as [procs|].
    + eapply wp_weaken; [|apply (Hmain procs [Ev (ProcChildren parent true) (Found procs)])];
        auto.
      intros tr' s' r (-> & -> & ext & -> & Hw & Hl & Hn & Hk).
      repeat split; auto. exists ext. split; [reflexivity|]. split; [assumption|].
      rewrite Hl. cbn. repeat split; auto.
    + wp_step. wp_step. repeat split; auto. eexists. rewrite <- app_assoc.
      split; [reflexivity|]. cbn. repeat split; auto.
  - wp_step. rewrite <- (app_nil_r tr).
    eapply wp_weaken; [|apply (Hmain [] [])]; auto.
    intros tr' s' r (-> & -> & ext & -> & Hw & Hl & Hn & Hk).
    repeat split; auto. exists ext. rewrite app_nil_r. split; [reflexivity|].
    split; [assumption|]. rewrite Hl. cbn. repeat split; auto.
Qed.

(** X1: [kill_process] asks psutil for the children at most once, and only
    when [kill_children] is set.  The processes it handles are the children,
    in the order psutil gave them, and then the parent, so the parent comes
    last; [kill()] is called on no process outside that list.  When the
    handle is stale ([children()] raises NoSuchProcess) no process is named
    or killed. *)
Theorem kill_process_children_before_parent :
  forall W (h : handler W) St (parent : proc) (kill_children : bool) (s : St) (w : W),
    let o := run h (kill_process parent kill_children) s w in
    match listed_children (trace o) with
    | [] =>
        kill_children = false /\ named (trace o) = [parent] /\
        incl (kill_calls (trace o)) [parent]
    | [(p, recursive, Found children)] =>
        kill_children = true /\ p = parent /\ recursive = true /\
        named (trace o) = children ++ [parent] /\
        incl (kill_calls (trace o)) (children ++ [parent])
    | [(p, recursive, NoSuchProcess)] =>
        kill_children = true /\ p = parent /\ recursive = true /\
        named (trace o) = [] /\ kill_calls (trace o) = []
    | _ => False
    end.
Proof.
  intros W h St parent kill_children s w o.
  destruct (wp_run h _ s w _ (kill_process_spec parent kill_children s []))
    as (_ & _ & ext & Hext & _ & H).
  subst o. cbn [app] in Hext. now rewrite Hext.
Qed.

Lemma kill_processes_spec {St} (procs : list proc) (kill_children : bool) (s : St) tr :
  wp (kill_processes procs kill_children) s tr
    (fun tr' s' r =>
       s' = s /\ r = Ok tt /\ exists ext, tr' = tr ++ ext /\ waited ext = procs).
Proof.
  unfold kill_processes. revert tr. induction procs as [|p procs IH]; intros tr.
  - simpl. repeat split; auto. exists []. now rewrite app_nil_r.
  - cbn [for_each]. wp_step. wp_step. wp_step. wp_step.
    eapply wp_weaken; [|apply kill_process_spec].
    intros tr1 s1 r1 (-> & -> & ext1 & -> & Hw & _). cbn [and_then].
    wp_step. wp_step. wp_step.
    eapply wp_weaken; [|apply IH].
    intros tr2 s2 r2 (-> & -> & ext2 & -> & Hw2). repeat split; auto.
    eexists. rewrite <- !app_assoc. split; [reflexivity|].
    rewrite !waited_app, Hw, Hw2. reflexivity.
Qed.

(** X2: Whatever psutil answers, [kill_processes] returns normally, leaves
    the state alone, and calls [proc.wait()] on each process of [procs], in
    the order of the list. *)
Theorem kill_processes_waits_for_each :
  forall W (h : handler W) St (procs : list proc) (kill_children : bool) (s : St) (w : W),
    let o := run h (kill_processes procs kill_children) s w in
    res o = Ok tt /\ final o = s /\ waited (trace o) = procs.
Proof.
  intros W h St procs kill_children s w o.
  destruct (wp_run h _ s w _ (kill_processes_spec procs kill_children s []))
    as (Hs & Hr & ext & Hext & Hw).
  subst o. cbn [app] in Hext. rewrite Hext. auto.
Qed.

(** ** [Processes] *)

Lemma Processes_kill_spec (p : proc) (s : globals) tr :
  wp (Processes.kill p) s tr
    (fun tr' s' r =>
       exists ext, tr' = tr ++ ext /\ waited ext = [p] /\
         match list_remove p (_PROC_LIST s) with
         | Some l => r = Ok tt /\ s' = set_PROC_LIST (fun _ => l) s
         | None => r = Raised (ValueError "list.remove(x): x not in list") /\ s' = s
         end).
Proof.
  unfold Processes.kill. wp_step.
  eapply wp_weaken; [|apply kill_processes_spec].
  intros tr1 s1 r1 (-> & -> & ext & -> & Hw). cbn [and_then]. cbn [mbind prog_bind bind get wp].
  destruct (list_remove p (_PROC_LIST s)) as [l|]; cbn [wp put]; eauto.
Qed.

Lemma list_remove_head (p : proc) (l : list proc) : list_remove p (p :: l) = Some l.
Proof. simpl. now rewrite bool_decide_eq_true_2. Qed.

Lemma list_remove_In (p : proc) (l : list proc) :
  In p l ->
  exists l1 l2, l = l1 ++ p :: l2 /\ ~ In p l1 /\ list_remove p l = Some (l1 ++ l2).
Proof.
  induction l as [|q l IH]; [intros []|].
  intros Hin. simpl. destruct (bool_decide_reflect (p = q)) as [->|Hne].
  - exists [], l. auto.
  - destruct Hin as [->|Hin]; [congruence|].
    destruct (IH Hin) as (l1 & l2 & -> & Hn & ->).
    exists (q :: l1), l2. repeat split; auto. intros [->|H]; auto.
Qed.

Lemma list_remove_not_In (p : proc) (l : list proc) : ~ In p l -> list_remove p l = None.
Proof.
  induction l as [|q l IH]; [reflexivity|].
  intros Hn. simpl. destruct (bool_decide_reflect (p = q)) as [->|Hne].
  - exfalso. apply Hn. now left.
  - rewrite IH; [reflexivity|]. intros H. apply Hn. now right.
Qed.

(** X3: [Processes.kill(proc)] waits for [proc] and for no other process.
    When [proc] is registered, its first occurrence is removed from
    [_PROC_LIST] and the rest of the list keeps its order.  When it is not
    registered, the kill is done all the same, [list.remove] raises
    ValueError and the list is left as it was. *)
Theorem Processes_kill_unregisters :
  forall W (h : handler W) (p : proc) (s : globals) (w : W),
    let o := run h (Processes.kill p) s w in
    waited (trace o) = [p] /\
    (In p (_PROC_LIST s) ->
       res o = Ok tt /\
       exists l1 l2,
         _PROC_LIST s = l1 ++ p :: l2 /\ ~ In p l1 /\
         final o = set_PROC_LIST (fun _ => l1 ++ l2) s) /\
    (~ In p (_PROC_LIST s) ->
       res o = Raised (ValueError "list.remove(x): x not in list") /\ final o = s).
Proof.
  intros W h p s w o.
  destruct (wp_run h _ s w _ (Processes_kill_spec p s [])) as (ext & Hext & Hw & H).
  subst o. cbn [app] in Hext. rewrite Hext. split; [assumption|]. split.
  - intros Hin. destruct (list_remove_In p _ Hin) as (l1 & l2 & E & Hn & Hr).
    rewrite Hr in H. destruct H as [-> ->]. split; [reflexivity|].
    exists l1, l2. auto.
  - intros Hn. rewrite (list_remove_not_In p _ Hn) in H. exact H.
Qed.

Lemma Processes_kill_each_spec (procs : list proc) (s : globals) tr :
  _PROC_LIST s = procs ->
  wp (for_each procs Processes.kill) s tr
    (fun tr' s' r =>
       r = Ok tt /\ s' = set_PROC_LIST (fun _ => []) s /\
       exists ext, tr' = tr ++ ext /\ waited ext = procs).
Proof.
  revert s tr. induction procs as [|p procs IH]; intros s tr Hs.
  - simpl. repeat split; auto.
    + destruct s. simpl in *. now subst.
    + exists []. now rewrite app_nil_r.
  - cbn [for_each]. wp_step.
    eapply wp_weaken; [|apply Processes_kill_spec].
    intros tr1 s1 r1 (ext1 & -> & Hw1 & H). rewrite Hs, list_remove_head in H.
    destruct H as [-> ->]. cbn [and_then].
    eapply wp_weaken; [|apply IH; reflexivity].
    intros tr2 s2 r2 (-> & -> & ext2 & -> & Hw2). repeat split; auto.
    eexists. rewrite <- !app_assoc. split; [reflexivity|].
    now rewrite waited_app, Hw1, Hw2.
Qed.

Lemma Processes_kill_all_spec (s : globals) tr :
  wp Processes.kill_all s tr
    (fun tr' s' r =>
       r = Ok tt /\ s' = set_PROC_LIST (fun _ => []) s /\
       exists ext, tr' = tr ++ ext /\ waited ext = _PROC_LIST s).
Proof.
  unfold Processes.kill_all. cbn [mbind prog_bind bind get wp].
  now apply Processes_kill_each_spec.
Qed.

(** X4: [Processes.kill_all()] returns normally, waits for every registered
    process in the order of the registry (a process registered twice is
    waited for twice), and leaves [_PROC_LIST] empty. *)
Theorem Processes_kill_all_empties_the_list :
  forall W (h : handler W) (s : globals) (w : W),
    let o := run h Processes.kill_all s w in
    res o = Ok tt /\
    final o = set_PROC_LIST (fun _ => []) s /\
    waited (trace o) = _PROC_LIST s.
Proof.
  intros W h s w o.
  destruct (wp_run h _ s w _ (Processes_kill_all_spec s []))
    as (Hr & Hs & ext & Hext & Hw).
  subst o. cbn [app] in Hext. rewrite Hext. auto.
Qed.

(** ** [NamedTempFile] *)

Lemma NamedTempFile_delete_spec (name : string) (s : globals) tr :
  wp (NamedTempFile.delete name) s tr
    (fun tr' s' r =>
       exists ext, tr' = tr ++ ext /\ temp_names ext = [] /\
         if bool_decide (name ∈ _FILE_MAP s) then
           r = Ok tt /\
           match path_exists_answers ext with
           | [(p, false)] =>
               p = name /\ removed_files ext = [] /\
               s' = set_FILE_MAP (fun m => m ∖ {[ name ]}) s
           | [(p, true); (q, still_there)] =>
               p = name /\ q = name /\ removed_files ext = [name] /\
               s' = if still_there then s else set_FILE_MAP (fun m => m ∖ {[ name ]}) s
           | _ => False
           end
         else
           r = Raised (Exception ("Unknown temporary file " +:+ name +:+ ".")) /\
           ext = [] /\ s' = s).
Proof.
  unfold NamedTempFile.delete. cbn [mbind prog_bind bind get wp].
  destruct (bool_decide (name ∈ _FILE_MAP s)); cbn [negb].
  - intros [|].
    + intros removed. destruct removed; cbn [negb when].
      * cbn [bind wp]. intros [|]; cbn [negb when modify wp].
        -- eexists. rewrite <- ?app_assoc. split; [reflexivity|]. cbn. auto 10.
        -- eexists. rewrite <- ?app_assoc. split; [reflexivity|]. cbn. auto 10.
      * cbn [bind log trigger wp]. intros [] [|]; cbn [negb when modify wp].
        -- eexists. rewrite <- ?app_assoc. split; [reflexivity|]. cbn. auto 10.
        -- eexists. rewrite <- ?app_assoc. split; [reflexivity|]. cbn. auto 10.
    + cbn [bind log trigger modify wp]. intros [].
      eexists. rewrite <- ?app_assoc. split; [reflexivity|]. cbn. auto 10.
  - cbn [wp]. exists []. now rewrite app_nil_r.
Qed.

(** X5: [NamedTempFile.delete(name)]: for a name that is not in [_FILE_MAP]
    it raises the exception Unknown temporary file before any call; for a
    known file that is no longer there it forgets the name without calling
    [os.remove]; otherwise it calls [os.remove] once, and forgets the name
    exactly when the file is gone afterwards: a file that could not be
    removed stays registered. *)
Theorem NamedTempFile_delete_outcome :
  forall W (h : handler W) (name : string) (s : globals) (w : W),
    let o := run h (NamedTempFile.delete name) s w in
    if bool_decide (name ∈ _FILE_MAP s) then
      res o = Ok tt /\
      match path_exists_answers (trace o) with
      | [(p, false)] =>
          p = name /\ removed_files (trace o) = [] /\
          final o = set_FILE_MAP (fun m => m ∖ {[ name ]}) s
      | [(p, true); (q, still_there)] =>
          p = name /\ q = name /\ removed_files (trace o) = [name] /\
          final o = if still_there then s else set_FILE_MAP (fun m => m ∖ {[ name ]}) s
      | _ => False
      end
    else
      res o = Raised (Exception ("Unknown temporary file " +:+ name +:+ ".")) /\
      trace o = [] /\ final o = s.
Proof.
  intros W h name s w o.
  destruct (wp_run h _ s w _ (NamedTempFile_delete_spec name s [])) as (ext & Hext & _ & H).
  subst o. cbn [app] in Hext. rewrite Hext. exact H.
Qed.

Lemma union_difference_same (m : gset string) (name : string) :
  ({[ name ]} ∪ m) ∖ {[ name ]} = m ∖ {[ name ]}.
Proof.
  apply set_eq. intros x. rewrite !elem_of_difference, elem_of_union. tauto.
Qed.

Lemma set_DIR_LIST_nil (s : globals) : set_DIR_LIST (fun l => l ++ []) s = s.
Proof. destruct s. unfold set_DIR_LIST. cbn. now rewrite app_nil_r. Qed.

Lemma NamedTempFile_create_spec (suffix directory : string) (s : globals) tr :
  wp (NamedTempFile.create suffix directory) s tr
    (fun tr' s' r =>
       exists ext name, tr' = tr ++ ext /\ r = Ok name /\ temp_names ext = [name] /\
         removed_files ext = [] /\ path_exists_answers ext = [] /\
         exists dirs,
           s' = set_FILE_MAP (fun m => {[ name ]} ∪ m) (set_DIR_LIST (fun l => l ++ dirs) s) /\
           made_dirs ext = dirs /\
           match isdir_answers ext with
           | [] => directory = EmptyString /\ dirs = []
           | [(d, isdir)] =>
               d = directory /\ directory <> EmptyString /\
               dirs = if isdir then [] else [directory]
           | _ => False
           end).
Proof.
  unfold NamedTempFile.create. wp_step.
  destruct (String.eqb_spec directory EmptyString) as [->|Hne]; cbn [negb].
  - wp_step. wp_step. wp_step. wp_step. wp_step. wp_step.
    eexists _, x. rewrite <- ?app_assoc. split; [reflexivity|].
    cbn. repeat split; auto. exists []. repeat split; auto.
    now rewrite set_DIR_LIST_nil.
  - wp_step. wp_step. destruct x as [|]; cbn [negb when].
    + wp_step. wp_step. wp_step. wp_step. wp_step. wp_step.
      eexists _, x. rewrite <- ?app_assoc. split; [reflexivity|].
      cbn. repeat split; auto. exists []. repeat split; auto.
      now rewrite set_DIR_LIST_nil.
    + wp_step. wp_step. wp_step. wp_step. wp_step. wp_step. wp_step. wp_step.
      wp_step. wp_step.
      eexists _, x0. rewrite <- ?app_assoc. split; [reflexivity|].
      cbn. repeat split; auto. exists [directory]. repeat split; auto.
Qed.

(** X6: A file made by [NamedTempFile.create] can be deleted right away:
    [delete] does not raise for the name that [create] returned.  Afterwards
    [_FILE_MAP] is what it was before [create], without the name, unless the
    file still exists after [os.remove]: then the name stays registered. *)
Theorem NamedTempFile_create_then_delete :
  forall W (h : handler W) (suffix directory : string) (s : globals) (w : W),
    let o := run h (name ← NamedTempFile.create suffix directory;
                    NamedTempFile.delete name;;
                    Ret name) s w in
    exists name,
      res o = Ok name /\ temp_names (trace o) = [name] /\
      match path_exists_answers (trace o) with
      | [(p, false)] =>
          p = name /\ removed_files (trace o) = [] /\
          _FILE_MAP (final o) = _FILE_MAP s ∖ {[ name ]}
      | [(p, true); (q, still_there)] =>
          p = name /\ q = name /\ removed_files (trace o) = [name] /\
          _FILE_MAP (final o) = if still_there then {[ name ]} ∪ _FILE_MAP s
                                else _FILE_MAP s ∖ {[ name ]}
      | _ => False
      end.
Proof.
  intros W h suffix directory s w o.
  assert (H : wp (name ← NamedTempFile.create suffix directory;
                  NamedTempFile.delete name;;
                  Ret name) s []
                (fun tr' s' r =>
                   exists name,
                     r = Ok name /\ temp_names tr' = [name] /\
                     match path_exists_answers tr' with
                     | [(p, false)] =>
                         p = name /\ removed_files tr' = [] /\
                         _FILE_MAP s' = _FILE_MAP s ∖ {[ name ]}
                     | [(p, true); (q, still_there)] =>
                         p = name /\ q = name /\ removed_files tr' = [name] /\
                         _FILE_MAP s' = if still_there then {[ name ]} ∪ _FILE_MAP s
                                        else _FILE_MAP s ∖ {[ name ]}
                     | _ => False
                     end)).
  { wp_step. eapply wp_weaken; [|apply NamedTempFile_create_spec].
    intros tr1 s1 r1 (ext1 & name & -> & -> & Hn1 & Hr1 & He1 & dirs & -> & _).
    cbn [and_then app]. wp_step.
    eapply wp_weaken; [|apply NamedTempFile_delete_spec].
    intros tr2 s2 r2 (ext2 & -> & Ht2 & H2).
    rewrite bool_decide_eq_true_2 in H2 by (destruct s; cbn; apply elem_of_union_l, elem_of_singleton_2; reflexivity).
    destruct H2 as [-> H2]. cbn [and_then wp]. exists name. split; [reflexivity|].
    rewrite temp_names_app, path_exists_answers_app, removed_files_app.
    rewrite Hn1, Hr1, He1, Ht2. cbn [app]. split; [reflexivity|].
    destruct (path_exists_answers ext2) as [|[p [|]] [|[q b] [|? ?]]]; try contradiction.
    - destruct H2 as (-> & -> & Hr2 & ->). repeat split; auto.
      destruct b; destruct s; cbn; [reflexivity|apply union_difference_same].
    - destruct H2 as (-> & Hr2 & ->). repeat split; auto.
      destruct s; cbn. apply union_difference_same. }
  subst o. apply (wp_run h _ s w _ H).
Qed.

(** ** Services *)

(** X7: [PosixService.status()] answers stopped or running and nothing else.
    Once it has answered stopped it has emptied [pids], and every later call
    answers stopped without looking at the lock file.  When it answers
    running the object is unchanged.  It raises only for an object that
    tracks pids but has no data directory, before any call. *)
Theorem PosixService_stopped_is_remembered :
  forall W (h : handler W) (self : service) (w : W),
    let o := run h PosixService.status self w in
    match res o with
    | Ok st =>
        (st = "stopped" /\ final o = set_pids [] self /\
         forall W' (h' : handler W') (w' : W'),
           run h' PosixService.status (final o) w' = Outcome [] w' (final o) (Ok "stopped"))
        \/ (st = "running" /\ final o = self /\ pids self <> [])
    | Raised exn =>
        pids self <> [] /\ db_path self = None /\ trace o = [] /\ final o = self
    | OutOfFuel => False
    end.
Proof.
  intros W h self w o. subst o. unfold PosixService.status. simpl.
  destruct (pids self) as [|p ps] eqn:Hp.
  - simpl. left. split; [reflexivity|].
    split; [destruct self; simpl in *; now subst|]. intros. now rewrite Hp.
  - destruct (db_path self) as [dir|]; simpl; [|auto].
    destruct (h bool _ w) as [w1 [|]]; simpl.
    + destruct (h (option Z) _ w1) as [w2 [[|n|n]|]]; simpl;
        first [ left; split; [reflexivity|]; split; [reflexivity|]; intros; reflexivity
              | right; repeat split; auto; discriminate ].
    + left. auto.
Qed.

Lemma win32_calls_app tr1 tr2 :
  win32_calls (tr1 ++ tr2) = win32_calls tr1 ++ win32_calls tr2.
Proof. apply flat_map_app. Qed.

Lemma WindowsService_status_spec (self : service) tr
    (Q : list event -> service -> result string -> Prop) :
  (forall ans,
      Q (tr ++ [Ev (QueryServiceStatus (svc_name self)) ans]) self
        (Ok (status_of_answer ans))) ->
  wp WindowsService.status self tr Q.
Proof.
  intros H. unfold WindowsService.status. cbn [mbind prog_bind bind get trigger wp].
  intros [svc_state|code f msg]; [|apply H].
  specialize (H (WinOk svc_state)). cbn [status_of_answer] in H.
  destruct (WindowsService.states_lookup svc_state); exact H.
Qed.

Lemma stop_wait_spec fuel start timeout status0 (self : service) tr :
  wp (WindowsService.stop_wait fuel start timeout status0) self tr
    (fun tr' s' r =>
       s' = self /\ ((exists x, r = Ok x) \/ r = OutOfFuel) /\
       exists ext, tr' = tr ++ ext /\
         Forall (is_status_query (svc_name self)) (win32_calls ext)).
Proof.
  revert status0 tr. induction fuel as [|fuel IH]; intros status0 tr;
    cbn [WindowsService.stop_wait].
  - destruct (negb _); cbn [wp]; (split; [reflexivity|]); (split; [eauto|]);
      exists []; rewrite app_nil_r; (split; [reflexivity|constructor]).
  - destruct (negb _).
    + cbn [wp]. split; [reflexivity|]. split; [eauto|]. exists []. rewrite app_nil_r.
      split; [reflexivity|constructor].
    + wp_step. wp_step. wp_step. wp_step. destruct (x - start >=? timeout).
      * wp_step. split; [reflexivity|]. split; [eauto|]. eexists.
        split; [reflexivity|]. constructor.
      * wp_step. wp_step. destruct x0. wp_step.
        apply WindowsService_status_spec. intros ans. cbn [and_then].
        eapply wp_weaken; [|apply IH].
        intros tr' s' r (-> & Hr & ext & -> & He). split; [reflexivity|].
        split; [assumption|]. eexists. rewrite <- !app_assoc. split; [reflexivity|].
        rewrite !win32_calls_app. cbn [win32_calls flat_map ev_call ev_answer app].
        constructor; [now exists ans|exact He].
Qed.

(** X8: [WindowsService.stop(timeout)] always empties [pids], and its first
    call asks the status of the service.  If that status is not one of the
    known states (it is unknown, or the service is not installed),
    [StopService] is not called: the status is asked once more and the code
    is 1, with the second status in the message.  Otherwise [StopService] is
    called next.  If it does not raise, only status queries follow and the
    code can only be 0.  If it raises, no call follows and the code is the
    Windows error code, except for ERROR_BROKEN_PIPE (109), which is
    reported as 0 with a message that says so. *)
Theorem WindowsService_stop_codes :
  forall W (h : handler W) (fuel : nat) (timeout : Z) (self : service) (w : W),
    let o := run h (WindowsService.stop fuel timeout) self w in
    final o = set_pids [] self /\
    match win32_calls (trace o) with
    | (name, inl first) :: rest =>
        name = svc_name self /\
        if WindowsService.in_states_values (status_of_answer first) then
          match rest with
          | (name', inr (WinOk _)) :: polls =>
              name' = svc_name self /\
              Forall (is_status_query (svc_name self)) polls /\
              (res o = Ok (0, "Service '" +:+ svc_name self +:+ "' stopped")
               \/ res o = OutOfFuel)
          | [(name', inr (WinError code funcname strerror))] =>
              name' = svc_name self /\
              res o = Ok (if code =? WindowsService.ERROR_BROKEN_PIPE
                          then (0, "Assuming service '" +:+ svc_name self
                                   +:+ "' stopped despite error: " +:+ funcname +:+ ": "
                                   +:+ strerror)
                          else (code, funcname +:+ ": " +:+ strerror))
          | _ => False
          end
        else
          exists second,
            rest = [(svc_name self, inl second)] /\
            res o = Ok (1, "Service '" +:+ svc_name self +:+ "' status: "
                           +:+ status_of_answer second)
    | _ => False
    end.
Proof.
  intros W h fuel timeout self w o.
  assert (H : wp (WindowsService.stop fuel timeout) self []
                (fun tr' s' r =>
                   s' = set_pids [] self /\
                   match win32_calls tr' with
                   | (name, inl first) :: rest =>
                       name = svc_name self /\
                       if WindowsService.in_states_values (status_of_answer first) then
                         match rest with
                         | (name', inr (WinOk _)) :: polls =>
                             name' = svc_name self /\
                             Forall (is_status_query (svc_name self)) polls /\
                             (r = Ok (0, "Service '" +:+ svc_name self +:+ "' stopped")
                              \/ r = OutOfFuel)
                         | [(name', inr (WinError code funcname strerror))] =>
                             name' = svc_name self /\
                             r = Ok (if code =? WindowsService.ERROR_BROKEN_PIPE
                                     then (0, "Assuming service '" +:+ svc_name self
                                              +:+ "' stopped despite error: " +:+ funcname
                                              +:+ ": " +:+ strerror)
                                     else (code, funcname +:+ ": " +:+ strerror))
                         | _ => False
                         end
                       else
                         exists second,
                           rest = [(svc_name self, inl second)] /\
                           r = Ok (1, "Service '" +:+ svc_name self +:+ "' status: "
                                      +:+ status_of_answer second)
                   | _ => False
                   end)).
  { unfold WindowsService.stop. wp_step. wp_step. wp_step. wp_step. wp_step.
    change (svc_name self) with (svc_name (set_pids [] self)) at 1.
    apply WindowsService_status_spec. intros ans. cbn [and_then app].
    change (svc_name (set_pids [] self)) with (svc_name self).
    destruct (WindowsService.in_states_values (status_of_answer ans)) eqn:Hknown;
      cbn [negb].
    - wp_step. wp_step. destruct x as [[]|code funcname strerror].
      + wp_step. wp_step. wp_step.
        apply WindowsService_status_spec. intros ans'. cbn [and_then app].
        change (svc_name (set_pids [] self)) with (svc_name self).
        wp_step. eapply wp_weaken; [|apply stop_wait_spec].
        intros tr' s' r (-> & Hr & ext & -> & He).
        change (svc_name (set_pids [] self)) with (svc_name self) in He.
        destruct Hr as [[x0 ->]| ->]; cbn [and_then wp];
          rewrite !win32_calls_app;
          cbn [win32_calls flat_map ev_call ev_answer app]; rewrite Hknown;
          (split; [reflexivity|]); (split; [reflexivity|]); (split; [reflexivity|]);
          (split; [constructor; [now exists ans'|exact He]|]); auto.
      + destruct (code =? WindowsService.ERROR_BROKEN_PIPE) eqn:E; wp_step;
          cbn [win32_calls flat_map ev_call ev_answer app]; rewrite Hknown, E; auto.
    - wp_step. change (svc_name self) with (svc_name (set_pids [] self)) at 1.
      apply WindowsService_status_spec. intros ans'. cbn [and_then app].
      change (svc_name (set_pids [] self)) with (svc_name self).
      wp_step. split; [reflexivity|].
      cbn [win32_calls flat_map ev_call ev_answer app]. rewrite Hknown.
      split; [reflexivity|]. exists ans'. split; reflexivity. }
  subst o. apply (wp_run h _ self w _ H).
Qed.

(** ** [wait_for_mongod_shutdown] *)

Lemma PosixService_status_spec (self : service) tr
    (Q : list event -> service -> result string -> Prop) :
  (pids self = [] -> Q tr self (Ok "stopped")) ->
  (pids self <> [] -> db_path self = None ->
   Q tr self (Raised (TypeError "expected str, bytes or os.PathLike object, not NoneType"))) ->
  (forall dir ext,
      pids self <> [] -> db_path self = Some dir ->
      slept ext = [] -> clock_readings ext = [] ->
      Q (tr ++ ext) (set_pids [] self) (Ok "stopped") /\ Q (tr ++ ext) self (Ok "running")) ->
  wp PosixService.status self tr Q.
Proof.
  intros Hempty Hnone Hsome. unfold PosixService.status.
  cbn [mbind prog_bind bind get wp].
  destruct (pids self) as [|p ps] eqn:Hp; [cbn [wp]; auto|].
  destruct (db_path self) as [dir|] eqn:Hd; [|cbn [wp]; apply Hnone; congruence].
  wp_step. wp_step. destruct x; cbn [negb].
  - wp_step. wp_step.
    assert (H : Q ((tr ++ [Ev (OsPathExists (os_path_join dir "mongod.lock")) true])
                   ++ [Ev (OsStatSize (os_path_join dir "mongod.lock")) x])
                  (set_pids [] self) (Ok "stopped")
                /\ Q ((tr ++ [Ev (OsPathExists (os_path_join dir "mongod.lock")) true])
                      ++ [Ev (OsStatSize (os_path_join dir "mongod.lock")) x])
                     self (Ok "running")).
    { rewrite <- app_assoc. apply (Hsome dir); [congruence|reflexivity|reflexivity|reflexivity]. }
    destruct H as [Hs Hr].
    destruct x as [[|n|n]|]; repeat wp_step; assumption.
  - wp_step. wp_step. wp_step.
    apply (Hsome dir [Ev (OsPathExists (os_path_join dir "mongod.lock")) false]);
      [congruence|reflexivity|reflexivity|reflexivity].
Qed.

Lemma set_pids_nil (self : service) : pids self = [] -> set_pids [] self = self.
Proof. destruct self. cbn. now intros ->. Qed.

Lemma repeat_snoc {A} (x : A) (n : nat) : repeat x n ++ [x] = x :: repeat x n.
Proof. induction n as [|n IH]; [reflexivity|]. cbn. now rewrite IH. Qed.

(** The loop on a [PosixService], entered after a call of [status] has
    answered [status0]. *)
Lemma wait_until_stopped_posix fuel start timeout status0 (self : service) tr :
  (status0 = "stopped" /\ pids self = []) \/
  (status0 <> "stopped" /\ pids self <> [] /\ db_path self <> None) ->
  wp (wait_until_stopped PosixService.status fuel start timeout status0) self tr
    (fun tr' s' r =>
       exists ext, tr' = tr ++ ext /\
         match r with
         | Ok ret =>
             (ret = 0 /\ s' = set_pids [] self /\
              exists polls, slept ext = repeat 3 polls ++ [5])
             \/ (ret = 1 /\ s' = self /\ pids self <> [] /\
                 (exists polls, slept ext = repeat 3 polls) /\
                 exists now, last (clock_readings ext) = Some now /\ now - start >= timeout)
         | Raised _ => False
         | OutOfFuel => status0 <> "stopped" /\ s' = self /\ slept ext = repeat 3 fuel
         end).
Proof.
  revert status0 tr self. induction fuel as [|fuel IH]; intros status0 tr self Hpre;
    cbn [wait_until_stopped]; destruct (String.eqb_spec status0 "stopped") as [->|Hne];
    cbn [negb].
  - destruct Hpre as [[_ Hp]|[Hn _]]; [|congruence].
    wp_step. wp_step. wp_step. wp_step. wp_step.
    eexists. rewrite <- !app_assoc. split; [reflexivity|]. left.
    split; [reflexivity|]. split; [now rewrite set_pids_nil|]. now exists 0%nat.
  - cbn [wp]. exists []. rewrite app_nil_r. split; [reflexivity|].
    split; [assumption|]. split; reflexivity.
  - destruct Hpre as [[_ Hp]|[Hn _]]; [|congruence].
    wp_step. wp_step. wp_step. wp_step. wp_step.
    eexists. rewrite <- !app_assoc. split; [reflexivity|]. left.
    split; [reflexivity|]. split; [now rewrite set_pids_nil|]. now exists 0%nat.
  - destruct Hpre as [[Hs _]|(_ & Hp & Hd)]; [congruence|].
    wp_step. wp_step. destruct (Z.geb_spec (x - start) timeout) as [Hge|Hlt].
    + wp_step. wp_step. wp_step.
      eexists. rewrite <- !app_assoc. split; [reflexivity|]. right.
      split; [reflexivity|]. split; [reflexivity|]. split; [assumption|].
      split; [now exists 0%nat|]. exists x. split; [reflexivity|lia].
    + wp_step. wp_step. wp_step. wp_step. wp_step.
      apply PosixService_status_spec.
      * intros Hp'. congruence.
      * intros _ Hd'. congruence.
      * intros dir ext Hp' Hd' Hsl Hcl. cbn [and_then]. split.
        -- eapply wp_weaken; [|apply IH; left; split; reflexivity].
           intros tr' s' r (ext' & -> & Hr).
           eexists. rewrite <- !app_assoc. split; [reflexivity|].
           rewrite !slept_app, !clock_readings_app, Hsl, Hcl.
           cbn [app slept clock_readings flat_map ev_call ev_answer].
           fold (slept ext'). fold (clock_readings ext').
           destruct r as [ret| |]; [|assumption|].
           ++ destruct Hr as [(-> & -> & polls & Hs)|(-> & _ & Hp'' & _)];
                [|now cbn in Hp''].
              left. split; [reflexivity|]. split; [reflexivity|].
              exists (S polls). rewrite Hs. reflexivity.
           ++ destruct Hr as [Hs _]. congruence.
        -- eapply wp_weaken;
             [|apply IH; right; split; [discriminate|split; assumption]].
           intros tr' s' r (ext' & -> & Hr).
           eexists. rewrite <- !app_assoc. split; [reflexivity|].
           rewrite !slept_app, !clock_readings_app, Hsl, Hcl.
           cbn [app slept clock_readings flat_map ev_call ev_answer].
           fold (slept ext'). fold (clock_readings ext').
           destruct r as [ret| |]; [|assumption|].
           ++ destruct Hr as [(-> & -> & polls & Hs)
                             |(-> & -> & Hp'' & (polls & Hs) & now & Hn & Hge)].
              ** left. split; [reflexivity|]. split; [reflexivity|].
                 exists (S polls). rewrite Hs. reflexivity.
              ** right. split; [reflexivity|]. split; [reflexivity|].
                 split; [assumption|]. split; [exists (S polls); now rewrite Hs|].
                 exists now. split; [|assumption]. rewrite last_cons, Hn. reflexivity.
           ++ destruct Hr as (_ & -> & Hs). split; [assumption|].
              split; [reflexivity|]. now rewrite Hs.
Qed.

(** The loop on a [WindowsService], entered after [QueryServiceStatus] has
    answered [ans0]. *)
Lemma wait_until_stopped_windows fuel start timeout ans0 (self : service) tr :
  wp (wait_until_stopped WindowsService.status fuel start timeout (status_of_answer ans0))
    self tr
    (fun tr' s' r =>
       s' = self /\
       exists ext, tr' = tr ++ ext /\
         match r with
         | Ok ret =>
             exists ans,
               last ((svc_name self, inl ans0) :: win32_calls ext)
               = Some (svc_name self, inl ans) /\
               ((ret = 0 /\ status_of_answer ans = "stopped" /\
                 exists polls, slept ext = repeat 3 polls ++ [5])
                \/ (ret = 1 /\ status_of_answer ans <> "stopped" /\
                    (exists polls, slept ext = repeat 3 polls) /\
                    exists now, last (clock_readings ext) = Some now /\ now - start >= timeout))
         | Raised _ => False
         | OutOfFuel => slept ext = repeat 3 fuel
         end).
Proof.
  revert ans0 tr. induction fuel as [|fuel IH]; intros ans0 tr;
    cbn [wait_until_stopped];
    destruct (String.eqb_spec (status_of_answer ans0) "stopped") as [Heq|Hne];
    cbn [negb].
  - wp_step. wp_step. wp_step. wp_step. wp_step. split; [reflexivity|].
    eexists. rewrite <- !app_assoc. split; [reflexivity|]. exists ans0.
    split; [reflexivity|]. left. split; [reflexivity|]. split; [assumption|].
    now exists 0%nat.
  - cbn [wp]. split; [reflexivity|]. exists []. rewrite app_nil_r. split; reflexivity.
  - wp_step. wp_step. wp_step. wp_step. wp_step. split; [reflexivity|].
    eexists. rewrite <- !app_assoc. split; [reflexivity|]. exists ans0.
    split; [reflexivity|]. left. split; [reflexivity|]. split; [assumption|].
    now exists 0%nat.
  - wp_step. wp_step. destruct (Z.geb_spec (x - start) timeout) as [Hge|Hlt].
    + wp_step. wp_step. wp_step. split; [reflexivity|].
      eexists. rewrite <- !app_assoc. split; [reflexivity|]. exists ans0.
      split; [reflexivity|]. right. split; [reflexivity|]. split; [assumption|].
      split; [now exists 0%nat|]. exists x. split; [reflexivity|lia].
    + wp_step. wp_step. wp_step. wp_step. wp_step.
      apply WindowsService_status_spec. intros ans. cbn [and_then].
      eapply wp_weaken; [|apply IH].
      intros tr' s' r (-> & ext' & -> & Hr). split; [reflexivity|].
      eexists. rewrite <- !app_assoc. split; [reflexivity|].
      rewrite ?win32_calls_app, ?slept_app, ?clock_readings_app.
      cbn [app slept clock_readings win32_calls flat_map ev_call ev_answer].
      fold (slept ext'). fold (clock_readings ext'). fold (win32_calls ext').
      destruct r as [ret| |]; [|assumption|now rewrite Hr].
      destruct Hr as (ans' & Hl & Hr). exists ans'. split.
      * rewrite last_cons. rewrite Hl. reflexivity.
      * destruct Hr as [(-> & Hst & polls & Hs)|(-> & Hst & (polls & Hs) & now & Hn & Hge)].
        -- left. split; [reflexivity|]. split; [assumption|].
           exists (S polls). now rewrite Hs.
        -- right. split; [reflexivity|]. split; [assumption|].
           split; [exists (S polls); now rewrite Hs|].
           exists now. split; [|assumption]. rewrite last_cons, Hn. reflexivity.
Qed.

(** X9: [wait_for_mongod_shutdown] on a [MongodControl], whose [status()] is
    that of a [WindowsService] on Windows and of a [PosixService] otherwise.
    On a [PosixService] that tracks a pid and has no data directory
    ([db_path=None], as [MongodControl.install] makes it), the first
    [status()] raises TypeError, after the clock has been read once and
    before any sleep.  In every other case nothing is raised.  It returns 0
    after sleeps of 3 seconds followed by one last sleep of 5 seconds, the
    status being stopped: on POSIX the pids are cleared, on Windows the last
    answer of [QueryServiceStatus] is the stopped state.  It returns 1, the
    service object unchanged, after sleeps of 3 seconds only, when the
    status is still not stopped and the clock reads at least [timeout]
    seconds after its first reading.  A run that is out of fuel has slept 3
    seconds [fuel] times. *)
Theorem wait_for_mongod_shutdown_outcome :
  forall W (h : handler W) (IS_WINDOWS : bool) (fuel : nat) (timeout : Z)
         (self : service) (w : W),
    let o := run h (wait_for_mongod_shutdown (MongodControl.status IS_WINDOWS) fuel timeout)
               self w in
    match IS_WINDOWS, pids self, db_path self with
    | false, _ :: _, None =>
        res o = Raised (TypeError "expected str, bytes or os.PathLike object, not NoneType") /\
        final o = self /\ exists start, trace o = [Ev TimeTime start]
    | _, _, _ =>
        match res o with
        | Ok ret =>
            (ret = 0 /\
             (exists polls, slept (trace o) = repeat 3 polls ++ [5]) /\
             if IS_WINDOWS
             then final o = self /\
                  exists ans,
                    last (win32_calls (trace o)) = Some (svc_name self, inl ans) /\
                    status_of_answer ans = "stopped"
             else final o = set_pids [] self)
            \/ (ret = 1 /\ final o = self /\
                (exists polls, slept (trace o) = repeat 3 polls) /\
                (if IS_WINDOWS
                 then exists ans,
                        last (win32_calls (trace o)) = Some (svc_name self, inl ans) /\
                        status_of_answer ans <> "stopped"
                 else pids self <> []) /\
                exists start now,
                  head (clock_readings (trace o)) = Some start /\
                  last (clock_readings (trace o)) = Some now /\ now - start >= timeout)
        | Raised _ => False
        | OutOfFuel => final o = self /\ slept (trace o) = repeat 3 fuel
        end
    end.
Proof.
  intros W h IS_WINDOWS fuel timeout self w o.
  assert (Hwin : IS_WINDOWS = true ->
            wp (wait_for_mongod_shutdown WindowsService.status fuel timeout) self []
              (fun tr' s' r =>
                 match r with
                 | Ok ret =>
                     (ret = 0 /\
                      (exists polls, slept tr' = repeat 3 polls ++ [5]) /\
                      s' = self /\
                      exists ans,
                        last (win32_calls tr') = Some (svc_name self, inl ans) /\
                        status_of_answer ans = "stopped")
                     \/ (ret = 1 /\ s' = self /\
                         (exists polls, slept tr' = repeat 3 polls) /\
                         (exists ans,
                            last (win32_calls tr') = Some (svc_name self, inl ans) /\
                            status_of_answer ans <> "stopped") /\
                         exists start now,
                           head (clock_readings tr') = Some start /\
                           last (clock_readings tr') = Some now /\ now - start >= timeout)
                 | Raised _ => False
                 | OutOfFuel => s' = self /\ slept tr' = repeat 3 fuel
                 end)).
  { intros _. unfold wait_for_mongod_shutdown. wp_step. wp_step. wp_step.
    apply WindowsService_status_spec. intros ans0. cbn [and_then].
    eapply wp_weaken; [|apply wait_until_stopped_windows].
    intros tr' s' r (-> & ext & -> & Hr).
    rewrite ?win32_calls_app, ?slept_app, ?clock_readings_app.
    cbn [app slept clock_readings win32_calls flat_map ev_call ev_answer].
    fold (slept ext). fold (clock_readings ext). fold (win32_calls ext).
    destruct r as [ret| |]; [|assumption|auto].
    destruct Hr as (ans & Hl & [(-> & Hst & Hs)|(-> & Hst & Hs & now & Hn & Hge)]).
    - left. split; [reflexivity|]. split; [assumption|]. split; [reflexivity|]. eauto.
    - right. split; [reflexivity|]. split; [reflexivity|]. split; [assumption|].
      split; [eauto|]. exists x, now. split; [reflexivity|]. split; [|assumption].
      rewrite last_cons, Hn. reflexivity. }
  assert (Hposix : IS_WINDOWS = false ->
            wp (wait_for_mongod_shutdown PosixService.status fuel timeout) self []
              (fun tr' s' r =>
                 (pids self <> [] /\ db_path self = None /\
                  r = Raised (TypeError
                                "expected str, bytes or os.PathLike object, not NoneType") /\
                  s' = self /\ exists start, tr' = [Ev TimeTime start])
                 \/ ((pids self = [] \/ db_path self <> None) /\
                     match r with
                     | Ok ret =>
                         (ret = 0 /\
                          (exists polls, slept tr' = repeat 3 polls ++ [5]) /\
                          s' = set_pids [] self)
                         \/ (ret = 1 /\ s' = self /\
                             (exists polls, slept tr' = repeat 3 polls) /\
                             pids self <> [] /\
                             exists start now,
                               head (clock_readings tr') = Some start /\
                               last (clock_readings tr') = Some now /\
                               now - start >= timeout)
                     | Raised _ => False
                     | OutOfFuel => s' = self /\ slept tr' = repeat 3 fuel
                     end))).
  { intros _. unfold wait_for_mongod_shutdown. wp_step. wp_step. wp_step.
    assert (Hloop : forall status0 (s0 : service) ext0,
               slept ext0 = [] -> clock_readings ext0 = [] ->
               (status0 = "stopped" /\ pids s0 = [] /\ s0 = set_pids [] self) \/
               (status0 <> "stopped" /\ pids s0 <> [] /\ db_path s0 <> None /\ s0 = self) ->
               wp (wait_until_stopped PosixService.status fuel x timeout status0) s0
                 (([] ++ [Ev TimeTime x]) ++ ext0)
                 (fun tr' s' r =>
                    match r with
                    | Ok ret =>
                        (ret = 0 /\
                         (exists polls, slept tr' = repeat 3 polls ++ [5]) /\
                         s' = set_pids [] self)
                        \/ (ret = 1 /\ s' = self /\
                            (exists polls, slept tr' = repeat 3 polls) /\
                            pids self <> [] /\
                            exists start now,
                              head (clock_readings tr') = Some start /\
                              last (clock_readings tr') = Some now /\
                              now - start >= timeout)
                    | Raised _ => False
                    | OutOfFuel => s' = self /\ slept tr' = repeat 3 fuel
                    end)).
    { intros status0 s0 ext0 Hsl Hcl Hpre.
      eapply wp_weaken; [|apply wait_until_stopped_posix].
      - intros tr' s' r (ext & -> & Hr).
        rewrite ?slept_app, ?clock_readings_app, Hsl, Hcl.
        cbn [app slept clock_readings flat_map ev_call ev_answer].
        fold (slept ext). fold (clock_readings ext).
        destruct r as [ret| |]; [|assumption|].
        + destruct Hr as [(-> & -> & Hs)|(-> & -> & Hp & Hs & now & Hn & Hge)].
          * left. split; [reflexivity|]. split; [assumption|].
            destruct Hpre as [(_ & _ & ->)|(_ & _ & _ & ->)]; reflexivity.
          * right. split; [reflexivity|].
            destruct Hpre as [(_ & Hp' & _)|(_ & _ & _ & ->)]; [congruence|].
            split; [reflexivity|]. split; [assumption|]. split; [assumption|].
            exists x, now. split; [reflexivity|]. split; [|assumption].
            rewrite last_cons, Hn. reflexivity.
        + destruct Hr as (Hne & -> & Hs).
          destruct Hpre as [(? & _)|(_ & _ & _ & ->)]; [congruence|]. auto.
      - destruct Hpre as [(? & ? & _)|(? & ? & ? & _)]; auto. }
    apply PosixService_status_spec.
    - intros Hp. cbn [and_then].
      eapply wp_weaken; [intros tr' s' r Hr; right; split; [now left|exact Hr]|].
      rewrite <- (app_nil_r ([] ++ [Ev TimeTime x])).
      apply Hloop; [reflexivity|reflexivity|]. left. split; [reflexivity|].
      split; [assumption|]. now rewrite set_pids_nil.
    - intros Hp Hd. cbn [and_then]. left. repeat split; auto. now exists x.
    - intros dir ext Hp Hd Hsl Hcl. cbn [and_then]. split.
      + eapply wp_weaken;
          [intros tr' s' r Hr; right; split; [right; congruence|exact Hr]|].
        apply (Hloop "stopped" (set_pids [] self) ext Hsl Hcl).
        left. split; [reflexivity|]. split; reflexivity.
      + eapply wp_weaken;
          [intros tr' s' r Hr; right; split; [right; congruence|exact Hr]|].
        apply (Hloop "running" self ext Hsl Hcl).
        right. split; [discriminate|]. split; [assumption|].
        split; [congruence|reflexivity]. }
  subst o. destruct IS_WINDOWS; cbn [MongodControl.status].
  - pose proof (wp_run h _ self w _ (Hwin eq_refl)) as H. cbv beta in H.
    destruct (res (run h (wait_for_mongod_shutdown WindowsService.status fuel timeout) self w))
      as [ret| |]; [|destruct (pids self); destruct (db_path self); exact H
                    |destruct (pids self); destruct (db_path self); exact H].
    assert (H' : (ret = 0 /\
                  (exists polls,
                      slept (trace (run h (wait_for_mongod_shutdown WindowsService.status
                                             fuel timeout) self w))
                      = repeat 3 polls ++ [5]) /\
                  final (run h (wait_for_mongod_shutdown WindowsService.status fuel timeout)
                           self w) = self /\
                  exists ans,
                    last (win32_calls (trace (run h (wait_for_mongod_shutdown
                                                        WindowsService.status fuel timeout)
                                                self w)))
                    = Some (svc_name self, inl ans) /\
                    status_of_answer ans = "stopped")
                 \/ (ret = 1 /\
                     final (run h (wait_for_mongod_shutdown WindowsService.status fuel timeout)
                              self w) = self /\
                     (exists polls,
                         slept (trace (run h (wait_for_mongod_shutdown WindowsService.status
                                                fuel timeout) self w))
                         = repeat 3 polls) /\
                     (exists ans,
                         last (win32_calls (trace (run h (wait_for_mongod_shutdown
                                                             WindowsService.status fuel timeout)
                                                     self w)))
                         = Some (svc_name self, inl ans) /\
                         status_of_answer ans <> "stopped") /\
                     exists start now,
                       head (clock_readings (trace (run h (wait_for_mongod_shutdown
                                                             WindowsService.status fuel
                                                             timeout) self w)))
                       = Some start /\
                       last (clock_readings (trace (run h (wait_for_mongod_shutdown
                                                             WindowsService.status fuel
                                                             timeout) self w)))
                       = Some now /\ now - start >= timeout)).
    { destruct H as [(H1 & H2 & H3 & H4)|H]; [left; auto|right; exact H]. }
    destruct (pids self); destruct (db_path self); exact H'.
  - pose proof (wp_run h _ self w _ (Hposix eq_refl)) as H. cbv beta in H.
    destruct H as [(Hp & Hd & Hr & Hf & Ht)|[Hcase H]].
    + rewrite Hd. destruct (pids self); [congruence|]. auto.
    + assert (Hgoal :
          match res (run h (wait_for_mongod_shutdown PosixService.status fuel timeout)
                       self w) with
          | Ok ret =>
              (ret = 0 /\
               (exists polls,
                   slept (trace (run h (wait_for_mongod_shutdown PosixService.status fuel
                                          timeout) self w)) = repeat 3 polls ++ [5]) /\
               final (run h (wait_for_mongod_shutdown PosixService.status fuel timeout)
                        self w) = set_pids [] self)
              \/ (ret = 1 /\
                  final (run h (wait_for_mongod_shutdown PosixService.status fuel timeout)
                           self w) = self /\
                  (exists polls,
                      slept (trace (run h (wait_for_mongod_shutdown PosixService.status fuel
                                             timeout) self w)) = repeat 3 polls) /\
                  pids self <> [] /\
                  exists start now,
                    head (clock_readings (trace (run h (wait_for_mongod_shutdown
                                                          PosixService.status fuel timeout)
                                                  self w))) = Some start /\
                    last (clock_readings (trace (run h (wait_for_mongod_shutdown
                                                          PosixService.status fuel timeout)
                                                  self w))) = Some now /\
                    now - start >= timeout)
          | Raised _ => False
          | OutOfFuel =>
              final (run h (wait_for_mongod_shutdown PosixService.status fuel timeout)
                       self w) = self /\
              slept (trace (run h (wait_for_mongod_shutdown PosixService.status fuel timeout)
                              self w)) = repeat 3 fuel
          end).
      { destruct (res _) as [ret| |]; [|exact H|exact H].
        destruct H as [H|H]; [left|right]; exact H. }
      destruct (pids self) as [|p ps]; [destruct (db_path self); exact Hgoal|].
      destruct (db_path self); [exact Hgoal|]. destruct Hcase; congruence.
Qed.

Lemma polls_left_step (remaining : Z) :
  0 < remaining -> (remaining - 3 + 2) / 3 = (remaining + 2) / 3 - 1.
Proof.
  intros _. replace (remaining - 3 + 2) with (remaining + 2 + (-1) * 3) by lia.
  rewrite Z.div_add by lia. lia.
Qed.

Lemma wait_until_stopped_returns {W St} (h : handler W) (clock : W -> Z) (good : W -> Prop)
    fuel start timeout status (s : St) w :
  keeps_time h clock good -> good w ->
  (Z.to_nat ((timeout - (clock w - start) + 2) / 3) < fuel)%nat ->
  exists ret, res (run h (wait_until_stopped (trigger MongodStatus) fuel start timeout status) s w)
             = Ok ret.
Proof.
  intros [Hstep Hnow]. revert status w.
  induction fuel as [|fuel IH]; intros status w Hg Hfuel; [lia|].
  cbn [wait_until_stopped]. destruct (negb (String.eqb status "stopped")).
  - unfold log. run_step.
    pose proof (Hnow w Hg) as Hn. destruct (Hstep _ TimeTime w Hg) as [Hg1 Hc1].
    destruct (h Z TimeTime w) as [w1 now]. cbn [fst snd duration] in *. subst now.
    destruct (Z.geb_spec (clock w - start) timeout) as [Hge|Hlt].
    + run_step. destruct (h unit _ w1) as [w2 []]. cbn [fst snd run res]. eauto.
    + run_step.
      match goal with |- context [h unit ?c w1] =>
        destruct (Hstep _ c w1 Hg1) as [Hg2 Hc2]; destruct (h unit c w1) as [w2 []] end.
      cbn [fst snd duration] in *. run_step.
      destruct (Hstep _ (TimeSleep 3) w2 Hg2) as [Hg3 Hc3].
      destruct (h unit (TimeSleep 3) w2) as [w3 []]. cbn [fst snd duration] in *. run_step.
      destruct (Hstep _ MongodStatus w3 Hg3) as [Hg4 Hc4].
      destruct (h string MongodStatus w3) as [w4 status']. cbn [fst snd duration] in *.
      destruct (IH status' w4 Hg4) as [ret Hret].
      * assert (Hle : (timeout - (clock w4 - start) + 2) / 3
                      <= (timeout - (clock w - start) - 3 + 2) / 3)
          by (apply Z.div_le_mono; lia).
        rewrite polls_left_step in Hle by lia.
        assert (1 <= (timeout - (clock w - start) + 2) / 3)
          by (apply Z.div_le_lower_bound; lia).
        lia.
      * rewrite Hret. cbn [res]. eauto.
  - unfold log. run_step. destruct (h unit _ w) as [w1 []]. cbn [fst snd]. run_step.
    destruct (h unit (TimeSleep 5) w1) as [w2 []]. cbn [fst snd run res]. eauto.
Qed.

(** X10: With a clock that moves forward by at least the time slept,
    [wait_for_mongod_shutdown] returns after at most (timeout + 2) / 3
    rounds of its loop, whatever status mongod answers: given more fuel than
    that, the run ends with a return code. *)
Theorem wait_for_mongod_shutdown_returns :
  forall W (h : handler W) (clock : W -> Z) (good : W -> Prop) St (fuel : nat)
         (timeout : Z) (s : St) (w : W),
    keeps_time h clock good -> good w ->
    (Z.to_nat ((timeout + 2) / 3) < fuel)%nat ->
    exists ret,
      res (run h (wait_for_mongod_shutdown (trigger MongodStatus) fuel timeout) s w) = Ok ret.
Proof.
  intros W h clock good St fuel timeout s w Hk Hg Hfuel.
  unfold wait_for_mongod_shutdown. run_step.
  pose proof (proj2 Hk w Hg) as Hn. destruct (proj1 Hk _ TimeTime w Hg) as [Hg1 Hc1].
  destruct (h Z TimeTime w) as [w1 start]. cbn [fst snd duration] in *. subst start.
  run_step.
  destruct (proj1 Hk _ MongodStatus w1 Hg1) as [Hg2 Hc2].
  destruct (h string MongodStatus w1) as [w2 status]. cbn [fst snd duration] in *.
  destruct (wait_until_stopped_returns h clock good fuel (clock w) timeout status s w2 Hk Hg2)
    as [ret Hret].
  - assert (Hle : (timeout - (clock w2 - clock w) + 2) / 3 <= (timeout + 2) / 3)
      by (apply Z.div_le_mono; lia).
    lia.
  - rewrite Hret. cbn [res]. eauto.
Qed.

(** The simulated host keeps time. *)
Lemma simulate_world (X : Type) (c : call X) (w : sim) :
  (simulate X c w).1 = (plain_answer X c w).1.
Proof. unfold simulate. now destruct (scripted w X c). Qed.

Lemma plain_answer_scripted (X : Type) (c : call X) (w : sim) :
  scripted (plain_answer X c w).1 = scripted w.
Proof. destruct c; simpl; try reflexivity. now destruct (is_running (table w) p). Qed.

Lemma plain_answer_clock (X : Type) (c : call X) (w : sim) :
  clock (plain_answer X c w).1 = clock w + duration X c.
Proof.
  destruct c; simpl; try lia. destruct (is_running (table w) p); simpl; lia.
Qed.

Lemma simulate_keeps_time (script : forall X, call X -> option X) :
  script _ TimeTime = None -> keeps_time simulate clock (scripted_by script).
Proof.
  intros Hs. split.
  - intros X c w Hg. rewrite simulate_world, plain_answer_clock. split; [|lia].
    intros Y d. rewrite plain_answer_scripted. apply Hg.
  - intros w Hg. unfold simulate. now rewrite (Hg _ TimeTime), Hs.
Qed.

(** X10 at an example: a mongod that keeps running, with a deadline of 10
    seconds and the clock of the simulation. *)
Lemma wait_for_mongod_shutdown_returns_witness :
  exists ret,
    res (run simulate (wait_for_mongod_shutdown (St:=unit) (trigger MongodStatus) 5 10) tt
           (new_sim mongod_keeps_running)) = Ok ret.
Proof.
  apply (wait_for_mongod_shutdown_returns sim simulate clock
           (scripted_by mongod_keeps_running)).
  - apply simulate_keeps_time. reflexivity.
  - intros X c. reflexivity.
  - vm_compute. lia.
Defined.

(** ** [mongo_shell] *)

Lemma mongo_shell_loop_spec {St} fuel cmds retries retry_sleep attempt_num (s : St) tr :
  (Z.to_nat (retries - attempt_num) < fuel)%nat ->
  wp (mongo_shell_loop fuel cmds retries retry_sleep attempt_num) s tr
    (fun tr' s' r =>
       s' = s /\
       exists ext failed ret output,
         tr' = tr ++ ext /\ r = Ok (ret, output) /\
         executed ext = failed ++ [(cmds, true, (ret, output))] /\
         Forall (fun run => run.1 = (cmds, true) /\ run.2.1 <> 0) failed /\
         slept ext = repeat retry_sleep (length failed) /\
         (length failed <= Z.to_nat (retries - attempt_num))%nat /\
         (ret <> 0 -> length failed = Z.to_nat (retries - attempt_num))).
Proof.
  revert attempt_num tr. induction fuel as [|fuel IH]; intros attempt_num tr Hfuel; [lia|].
  cbn [mongo_shell_loop]. wp_step. wp_step. destruct x as [ret output].
  destruct (Z.eqb_spec ret 0) as [->|Hret].
  - wp_step. split; [reflexivity|]. exists [Ev (ExecuteCmd cmds true) (0, output)], [], 0, output.
    repeat split; auto; cbn [length]; first [lia | intros H; congruence].
  - cbv zeta. destruct (Z.gtb_spec (attempt_num + 1) retries) as [Hgt|Hle].
    + wp_step. split; [reflexivity|].
      exists [Ev (ExecuteCmd cmds true) (ret, output)], [], ret, output.
      repeat split; auto; cbn [length]; lia.
    + wp_step. wp_step. destruct x.
      eapply wp_weaken; [|apply IH; lia].
      intros tr' s' r (-> & ext & failed & ret' & output' & -> & -> & He & Hf & Hs & Hl & Hn).
      split; [reflexivity|].
      exists (Ev (ExecuteCmd cmds true) (ret, output) :: Ev (TimeSleep retry_sleep) tt :: ext),
             ((cmds, true, (ret, output)) :: failed), ret', output'.
      rewrite <- !app_assoc. split; [reflexivity|]. split; [reflexivity|].
      cbn [executed slept flat_map ev_call ev_answer app length repeat].
      fold (executed ext). fold (slept ext). rewrite He, Hs.
      split; [reflexivity|]. split; [constructor; auto|]. split; [reflexivity|].
      split; [lia|]. intros H. specialize (Hn H). lia.
Qed.

(** X11: [mongo_shell] runs the same command line (cd, echo of the commands,
    pipe to the shell) again after each failure, at most [retries] times
    more.  A first success ends the attempts; between two attempts it sleeps
    [retry_sleep] seconds, never after the last one; the result is that of
    the last attempt, and a failure is only returned once all [retries] + 1
    attempts have failed. *)
Theorem mongo_shell_retries :
  forall W (h : handler W) St (fuel : nat)
         (mongo_path work_dir host_port mongo_cmds : string) (retries retry_sleep : Z)
         (s : St) (w : W),
    (Z.to_nat retries < fuel)%nat ->
    let o := run h (mongo_shell fuel mongo_path work_dir host_port mongo_cmds retries
                      retry_sleep) s w in
    let cmds := "cd " +:+ pipes_quote work_dir +:+ "; echo " +:+ pipes_quote mongo_cmds
                +:+ " | " +:+ pipes_quote mongo_path +:+ " " +:+ host_port in
    final o = s /\
    exists failed ret output,
      res o = Ok (ret, output) /\
      executed (trace o) = failed ++ [(cmds, true, (ret, output))] /\
      Forall (fun run => run.1 = (cmds, true) /\ run.2.1 <> 0) failed /\
      slept (trace o) = repeat retry_sleep (length failed) /\
      (length failed <= Z.to_nat retries)%nat /\
      (ret <> 0 -> length failed = Z.to_nat retries).
Proof.
  intros W h St fuel mongo_path work_dir host_port mongo_cmds retries retry_sleep s w
         Hfuel o cmds.
  assert (Hf : (Z.to_nat (retries - 0) < fuel)%nat) by (rewrite Z.sub_0_r; exact Hfuel).
  destruct (wp_run h _ s w _
              (mongo_shell_loop_spec fuel cmds retries retry_sleep 0 s [] Hf))
    as (Hs & ext & failed & ret & output & Hext & Hr & He & Hfa & Hsl & Hl & Hn).
  cbn [app] in Hext. rewrite Z.sub_0_r in Hl, Hn.
  split; [exact Hs|]. exists failed, ret, output.
  subst o. unfold mongo_shell. fold cmds. rewrite Hext. auto 10.
Qed.

(** X11 at an example: a shell that never connects, with the default of five
    retries. *)
Lemma mongo_shell_retries_witness :
  let o := run simulate (mongo_shell (St:=unit) 6 "/data/mci/dist-test/bin/mongo" "/data/mci/src"
                           "localhost:20000" "db.adminCommand({ping: 1})" 5 5)
             tt (new_sim shell_never_connects) in
  exists (failed : list (string * bool * (Z * string))) ret output,
    res o = Ok (ret, output) /\ length failed = 5%nat /\ ret = 1 /\
    slept (trace o) = repeat 5 (length failed).
Proof.
  intros o.
  destruct (mongo_shell_retries sim simulate unit 6 "/data/mci/dist-test/bin/mongo"
              "/data/mci/src" "localhost:20000" "db.adminCommand({ping: 1})" 5 5 tt
              (new_sim shell_never_connects))
    as (_ & failed & ret & output & Hr & He & _ & Hs & _ & Hn).
  - vm_compute. lia.
  - exists failed, ret, output. fold o in Hr, He, Hs, Hn.
    assert (Hret : ret = 1) by (vm_compute in Hr; congruence).
    split; [exact Hr|]. split; [|split; [exact Hret|exact Hs]].
    rewrite Hn by (rewrite Hret; discriminate). reflexivity.
Defined.

(** ** Operations of the agent *)

Section Operations.

Context {St : Type}.
Variables (IS_WINDOWS : bool) (pc : powercycle_constants) (tc : task_config)
          (options : agent_options) (root_dir db_path log_path : string).

Local Notation "'P'" :=
  (perform_all (St:=St) IS_WINDOWS pc tc options root_dir db_path log_path).
Local Notation "'P1'" :=
  (perform (St:=St) IS_WINDOWS pc tc options root_dir db_path log_path).

Lemma perform_unsupported (operation : string) :
  supported operation = false ->
  P1 operation =
  (log ERROR "Unsupported remote option specified '%s'" [AStr operation];; Ret 1).
Proof.
  unfold supported, operation_names. cbn [existsb].
  rewrite !orb_false_iff. intros (H1 & H2 & H3 & H4 & H5 & H6 & H7 & H8 & H9 & H10 & H11 & _).
  unfold perform. now rewrite H1, H2, H3, H4, H5, H6, H7, H8, H9, H10, H11.
Qed.

Lemma perform_start_mongod :
  P1 "start_mongod" =
  (let m := Mongo "localhost" (port options) in
   '(ret, output) ← trigger MongodUpdate;
   log INFO output [];;
   '(ret, output) ← trigger MongodStart;
   log INFO output [];;
   if negb (ret =? 0) then
     log ERROR "Failed to start mongod on port %d: %s" [AInt (port options); AStr output];;
     Ret ret
   else
     pids ← trigger MongodGetPids;
     log INFO "Started mongod running on port %d pid %s" [AInt (port options); AList pids];;
     '(build_info, server_status) ← probe_server 100 m None None;
     match build_info with
     | None => Raise (UnboundLocalError "build_info")
     | Some build_info =>
         log INFO "Server buildinfo: %s" [AStr build_info];;
         match server_status with
         | None => Raise (UnboundLocalError "server_status")
         | Some server_status =>
             log INFO "Server serverStatus: %s" [AStr server_status];;
             if truthy (repl_set tc) then
               let host_port := "localhost:" +:+ str (port options) in
               trigger (MongoReconfigReplication m host_port
                          (default EmptyString (repl_set tc)))
             else Ret ret
         end
     end).
Proof. reflexivity. Qed.

Lemma perform_install_mongod :
  P1 "install_mongod" =
  ('(ret, output) ← trigger (MongodInstall root_dir (tarball_url options));
   log INFO output [];;
   isdir ← trigger (OsPathIsdir db_path);
   (if negb isdir then trigger (OsMakedirs db_path) else Ret tt);;
   let log_dir :=
     if IS_WINDOWS then ntpath_dirname log_path else os_path_dirname log_path in
   isdir ← trigger (OsPathIsdir log_dir);
   (if negb isdir then trigger (OsMakedirs log_dir) else Ret tt);;
   if IS_WINDOWS then
     trigger (ChmodWFile db_path);;
     trigger (ChmodWFile log_dir);;
     '(ret, output) ← trigger SetWindowsBootstatuspolicy;
     log INFO output [];;
     Ret ret
   else Ret ret).
Proof. reflexivity. Qed.

Lemma perform_check_disk :
  P1 "check_disk" =
  (if IS_WINDOWS then
     partitions ← trigger DiskPartitions;
     check_partitions partitions 0
   else Ret 0).
Proof. reflexivity. Qed.

Lemma admin_answers_app tr1 tr2 :
  admin_answers (tr1 ++ tr2) = admin_answers tr1 ++ admin_answers tr2.
Proof. apply flat_map_app. Qed.

Lemma admin_commands_answers tr : admin_commands tr = map fst (admin_answers tr).
Proof.
  induction tr as [|[X c x] tr IH]; [reflexivity|].
  destruct c; cbn [admin_commands admin_answers flat_map ev_call ev_answer app map fst];
    fold (admin_commands tr); fold (admin_answers tr); now rewrite IH.
Qed.

Lemma buildinfo_attempts_app tr1 tr2 :
  buildinfo_attempts (tr1 ++ tr2) = (buildinfo_attempts tr1 + buildinfo_attempts tr2)%nat.
Proof.
  unfold buildinfo_attempts. now rewrite admin_answers_app, List.filter_app, length_app.
Qed.

Lemma probe_server_spec n m build_info server_status (s : St) tr :
  wp (probe_server (St:=St) n m build_info server_status) s tr
    (fun tr' s' r =>
       s' = s /\
       exists ext, tr' = tr ++ ext /\
         forallb is_admin_command ext = true /\
         (buildinfo_attempts ext <= n)%nat /\
         match r with
         | Ok (build_info', server_status') =>
             (build_info <> None -> build_info' <> None) /\
             (build_info' = None ->
              admin_answers ext = repeat ("buildinfo", ReplyAutoReconnect) n) /\
             (server_status' = None -> buildinfo_attempts ext = n)
         | Raised exn => exists code, exn = OperationFailure code
         | OutOfFuel => False
         end).
Proof.
  revert build_info server_status tr.
  induction n as [|n IH]; intros build_info server_status tr; cbn [probe_server].
  - cbn [wp]. split; [reflexivity|]. exists []. rewrite app_nil_r.
    split; [reflexivity|]. cbn. repeat split; auto.
  - wp_step. wp_step. destruct x as [ok bi| |code].
    + wp_step. wp_step. destruct x as [ok' ss| |code].
      * wp_step. split; [reflexivity|]. eexists. rewrite <- !app_assoc.
        split; [reflexivity|]. cbn. repeat split; auto; try lia; discriminate.
      * eapply wp_weaken; [|apply IH].
        intros tr' s' r (-> & ext & -> & Ha & Hb & Hr). split; [reflexivity|].
        eexists. rewrite <- !app_assoc. split; [reflexivity|].
        rewrite !buildinfo_attempts_app, !forallb_app, Ha.
        split; [reflexivity|]. split; [cbn; lia|].
        destruct r as [[bi' ss']| |]; auto.
        destruct Hr as (H1 & H2 & H3). split; [intros _; apply H1; discriminate|].
        split; [intros ->; exfalso; now apply H1|].
        intros Hs. rewrite (H3 Hs). reflexivity.
      * wp_step. split; [reflexivity|]. eexists. rewrite <- !app_assoc.
        split; [reflexivity|]. cbn. repeat split; eauto; lia.
    + eapply wp_weaken; [|apply IH].
      intros tr' s' r (-> & ext & -> & Ha & Hb & Hr). split; [reflexivity|].
      eexists. rewrite <- ?app_assoc. split; [reflexivity|].
      rewrite !buildinfo_attempts_app, !forallb_app, Ha.
      split; [reflexivity|]. split; [cbn; lia|].
      destruct r as [[bi' ss']| |]; auto.
      destruct Hr as (H1 & H2 & H3). split; [assumption|].
      split.
      * intros Hn. rewrite admin_answers_app, (H2 Hn). reflexivity.
      * intros Hs. rewrite (H3 Hs). reflexivity.
    + wp_step. split; [reflexivity|]. eexists. split; [reflexivity|].
      cbn. repeat split; eauto; lia.
Qed.

Lemma only_admin_commands (ext : list event) :
  forallb is_admin_command ext = true -> mongod_start_answers ext = [].
Proof.
  induction ext as [|[X c x] ext IH]; [reflexivity|].
  cbn [forallb]. intros [Hc He]%andb_true_iff.
  destruct c; try discriminate.
  cbn [mongod_start_answers flat_map ev_call ev_answer app]. now apply IH.
Qed.

Lemma mongod_start_answers_app tr1 tr2 :
  mongod_start_answers (tr1 ++ tr2) = mongod_start_answers tr1 ++ mongod_start_answers tr2.
Proof. apply flat_map_app. Qed.

End Operations.

(** X12: The [start_mongod] operation starts mongod once.  If the start
    fails it returns that code and makes no call to the server.  Otherwise
    it asks for [buildinfo] at most 100 times.  The log lines after the loop
    read variables that the loop may not have assigned: the run ends in
    UnboundLocalError for [build_info] only after 100 attempts that all
    ended in AutoReconnect, and for [server_status] only after 100
    [buildinfo] attempts. *)
Theorem start_mongod_probes_at_most_100_times :
  forall W (h : handler W) St IS_WINDOWS pc tc options root_dir db_path log_path
         (s : St) (w : W),
    let o := run h (perform IS_WINDOWS pc tc options root_dir db_path log_path
                      "start_mongod") s w in
    final o = s /\
    (buildinfo_attempts (trace o) <= 100)%nat /\
    match mongod_start_answers (trace o) with
    | [(ret, _)] => ret <> 0 -> res o = Ok ret /\ none_of pymongo_call (trace o) = true
    | _ => False
    end /\
    (res o = Raised (UnboundLocalError "build_info") ->
     admin_answers (trace o) = repeat ("buildinfo", ReplyAutoReconnect) 100) /\
    (res o = Raised (UnboundLocalError "server_status") ->
     buildinfo_attempts (trace o) = 100%nat).
Proof.
  intros W h St IS_WINDOWS pc tc options root_dir db_path log_path s w o.
  assert (H : wp (perform IS_WINDOWS pc tc options root_dir db_path log_path "start_mongod")
                s []
                (fun tr' s' r =>
                   s' = s /\
                   (buildinfo_attempts tr' <= 100)%nat /\
                   match mongod_start_answers tr' with
                   | [(ret, _)] => ret <> 0 -> r = Ok ret /\ none_of pymongo_call tr' = true
                   | _ => False
                   end /\
                   (r = Raised (UnboundLocalError "build_info") ->
                    admin_answers tr' = repeat ("buildinfo", ReplyAutoReconnect) 100) /\
                   (r = Raised (UnboundLocalError "server_status") ->
                    buildinfo_attempts tr' = 100%nat))).
  { rewrite perform_start_mongod. cbv zeta.
    wp_step. wp_step. destruct x as [ret0 output0]. wp_step. wp_step.
    wp_step. wp_step. destruct x as [ret output]. wp_step. wp_step.
    destruct (Z.eqb_spec ret 0) as [->|Hret]; cbn [negb].
    - wp_step. wp_step. wp_step. wp_step.
      wp_step. eapply wp_weaken; [|apply probe_server_spec].
      intros tr' s' r (-> & ext & -> & Ha & Hb & Hr).
      set (pre := ((((([] ++ [Ev MongodUpdate (ret0, output0)]) ++
                      [Ev (Log INFO output0 []) tt]) ++ [Ev MongodStart (0, output)]) ++
                    [Ev (Log INFO output []) tt]) ++ [Ev MongodGetPids x]) ++
                  [Ev (Log INFO "Started mongod running on port %d pid %s"
                         [AInt (port options); AList x]) tt]).
      assert (Hpre : forall post,
                 mongod_start_answers post = [] ->
                 mongod_start_answers ((pre ++ ext) ++ post) = [(0, output)]).
      { intros post Hp. rewrite !mongod_start_answers_app, Hp, (only_admin_commands _ Ha).
        reflexivity. }
      assert (Hatt : forall post,
                 buildinfo_attempts ((pre ++ ext) ++ post)
                 = (buildinfo_attempts ext + buildinfo_attempts post)%nat).
      { intros post. rewrite !buildinfo_attempts_app. reflexivity. }
      assert (Hans : forall post,
                 admin_answers ((pre ++ ext) ++ post) = admin_answers ext ++ admin_answers post).
      { intros post. rewrite !admin_answers_app. reflexivity. }
      destruct r as [[[build_info|] server_status]|exn|]; cbn [and_then].
      + wp_step. wp_step. destruct server_status as [server_status|].
        * wp_step. wp_step. destruct (truthy (repl_set tc)).
          -- wp_step. rewrite <- !(app_assoc (pre ++ ext)).
             rewrite Hpre, Hatt by reflexivity. cbn.
             repeat split; try congruence; try discriminate. lia.
          -- wp_step. rewrite <- !(app_assoc (pre ++ ext)).
             rewrite Hpre, Hatt by reflexivity. cbn.
             repeat split; try congruence; try discriminate. lia.
        * wp_step. rewrite Hpre, Hatt by reflexivity. cbn.
          destruct Hr as (_ & _ & H3).
          repeat split; try congruence; try discriminate; try lia.
          intros _. rewrite (H3 eq_refl). lia.
      + wp_step. rewrite <- (app_nil_r (pre ++ ext)).
        rewrite Hpre, Hatt, Hans by reflexivity. cbn.
        destruct Hr as (_ & H2 & H3).
        repeat split; try congruence; try discriminate; try lia.
        intros _. rewrite (H2 eq_refl). now rewrite app_nil_r.
      + rewrite <- (app_nil_r (pre ++ ext)).
        rewrite Hpre, Hatt by reflexivity. cbn.
        destruct Hr as [code ->].
        repeat split; try congruence; try discriminate; lia.
      + contradiction.
    - wp_step. wp_step. wp_step. cbn. repeat split; auto; try lia; discriminate. }
  subst o. apply (wp_run h _ s w _ H).
Qed.

(** ** The [check_disk] operation *)

Lemma last_default {A} (x : A) (l : list A) (d d' : A) :
  List.last (x :: l) d = List.last (x :: l) d'.
Proof.
  revert x. induction l as [|y l IH]; intros x; [reflexivity|].
  change (List.last (y :: l) d = List.last (y :: l) d'). apply IH.
Qed.

Lemma check_partitions_spec {St} (parts : list (string * string)) (ret0 : Z) (s : St) tr :
  wp (check_partitions parts ret0) s tr
    (fun tr' s' r =>
       s' = s /\
       exists ext, tr' = tr ++ ext /\ disk_partitions_answers ext = [] /\
         let runs := executed ext in
         let rets := map (fun run => run.2.1) runs in
         map fst runs
         = map (fun part => (chkdsk_cmd part, true))
             (take (length runs) (List.filter checked_partition parts)) /\
         Forall (fun ret => ret = 0) (removelast rets) /\
         r = Ok (List.last rets ret0) /\
         (List.last rets 0 = 0 -> length runs = length (List.filter checked_partition parts))).
Proof.
  revert ret0 tr. induction parts as [|[fstype mountpoint] parts IH]; intros ret0 tr.
  - cbn [check_partitions wp]. split; [reflexivity|]. exists []. rewrite app_nil_r.
    cbn. repeat split; auto.
  - cbn [check_partitions List.filter checked_partition].
    destruct (String.eqb fstype "NTFS"); cbn [negb orb andb];
      [destruct (String.eqb mountpoint "C:\"); cbn [negb]|]; try apply IH.
    wp_step. wp_step. wp_step. wp_step. destruct x as [ret output].
    wp_step. wp_step.
    destruct (Z.eqb_spec ret 0) as [->|Hret]; cbn [negb].
    + eapply wp_weaken; [|apply IH].
      intros tr' s' r (-> & ext & -> & Hd & Hcmds & Hzero & Hr & Hall).
      split; [reflexivity|]. eexists. rewrite <- !app_assoc. split; [reflexivity|].
      cbn [app disk_partitions_answers executed flat_map ev_call ev_answer].
      fold (executed ext). fold (disk_partitions_answers ext).
      split; [assumption|]. cbv zeta in *.
      cbn [length map take fst snd].
      split; [now rewrite Hcmds|].
      split.
      * destruct (map (fun run => run.2.1) (executed ext)) as [|r0 rets] eqn:E.
        -- constructor.
        -- change (removelast (0 :: r0 :: rets)) with (0 :: removelast (r0 :: rets)).
           constructor; auto.
      * split.
        -- rewrite Hr. f_equal.
           destruct (map (fun run => run.2.1) (executed ext)) as [|r0 rets]; [reflexivity|].
           change (List.last (r0 :: rets) 0 = List.last (r0 :: rets) ret0).
           apply last_default.
        -- intros Hl. f_equal. apply Hall.
           destruct (map (fun run => run.2.1) (executed ext)) as [|r0 rets]; [reflexivity|].
           exact Hl.
    + wp_step. split; [reflexivity|]. eexists. rewrite <- !app_assoc.
      split; [reflexivity|]. cbn. repeat split; auto. intros ->. congruence.
Qed.

(** X13: The [check_disk] operation does nothing on POSIX.  On Windows it
    runs chkdsk on the NTFS partitions other than the one mounted as drive
    C, in the order psutil lists them, stops at the first non-zero code and
    returns it; it returns 0 only when every such partition has been
    checked. *)
Theorem check_disk_stops_at_first_failure :
  forall W (h : handler W) St IS_WINDOWS pc tc options root_dir db_path log_path
         (s : St) (w : W),
    let o := run h (perform IS_WINDOWS pc tc options root_dir db_path log_path
                      "check_disk") s w in
    let runs := executed (trace o) in
    let rets := map (fun run => run.2.1) runs in
    final o = s /\
    if IS_WINDOWS then
      match disk_partitions_answers (trace o) with
      | [partitions] =>
          map fst runs
          = map (fun part => (chkdsk_cmd part, true))
              (take (length runs) (List.filter checked_partition partitions)) /\
          Forall (fun ret => ret = 0) (removelast rets) /\
          res o = Ok (List.last rets 0) /\
          (res o = Ok 0 -> length runs = length (List.filter checked_partition partitions))
      | _ => False
      end
    else trace o = [] /\ res o = Ok 0.
Proof.
  intros W h St IS_WINDOWS pc tc options root_dir db_path log_path s w o runs rets.
  subst runs rets o. rewrite perform_check_disk. destruct IS_WINDOWS; [|simpl; auto].
  apply (wp_run h _ s w
           (fun tr' s' r =>
              s' = s /\
              match disk_partitions_answers tr' with
              | [partitions] =>
                  map fst (executed tr')
                  = map (fun part => (chkdsk_cmd part, true))
                      (take (length (executed tr')) (List.filter checked_partition partitions)) /\
                  Forall (fun ret => ret = 0)
                    (removelast (map (fun run => run.2.1) (executed tr'))) /\
                  r = Ok (List.last (map (fun run => run.2.1) (executed tr')) 0) /\
                  (r = Ok 0 ->
                   length (executed tr') = length (List.filter checked_partition partitions))
              | _ => False
              end)).
  wp_step. wp_step. eapply wp_weaken; [|apply check_partitions_spec].
  intros tr' s' r (-> & ext & -> & Hd & Hcmds & Hzero & Hr & Hall).
  split; [reflexivity|]. cbv zeta in *.
  cbn [app disk_partitions_answers executed flat_map ev_call ev_answer].
  fold (executed ext). fold (disk_partitions_answers ext). rewrite Hd.
  repeat split; auto. intros Hr0. apply Hall. rewrite Hr0 in Hr. congruence.
Qed.

(** ** The [install_mongod] and [kill_mongod] operations *)

(** X14: The [install_mongod] operation installs mongod once, and makes the
    data directory and the directory of the log file when they are missing,
    and only then.  The directory of the log file is [os.path.dirname] of
    the platform: that of [ntpath] on Windows, where the directory of
    E:/mongod.log is E:/, and that of [posixpath] otherwise.  On POSIX it
    returns the code of the install and calls no [chmod_w_file]; on Windows
    it makes both directories writable and the code of
    [set_windows_bootstatuspolicy] replaces the code of the install, so a
    failed install is not reported there. *)
Theorem install_mongod_operation :
  forall W (h : handler W) St IS_WINDOWS pc tc options root_dir db_path log_path
         (s : St) (w : W),
    let o := run h (perform IS_WINDOWS pc tc options root_dir db_path log_path
                      "install_mongod") s w in
    let log_dir :=
      if IS_WINDOWS then ntpath_dirname log_path else os_path_dirname log_path in
    final o = s /\
    map fst (isdir_answers (trace o)) = [db_path; log_dir] /\
    chmod_paths (trace o) = (if IS_WINDOWS then [db_path; log_dir] else []) /\
    made_dirs (trace o)
    = map fst (List.filter (fun a => negb a.2) (isdir_answers (trace o))) /\
    exists install,
      mongod_install_answers (trace o) = [install] /\
      if IS_WINDOWS then
        exists policy,
          bootstatuspolicy_answers (trace o) = [policy] /\ res o = Ok policy.1
      else bootstatuspolicy_answers (trace o) = [] /\ res o = Ok install.1.
Proof.
  intros W h St IS_WINDOWS pc tc options root_dir db_path log_path s w o log_dir.
  subst o log_dir. rewrite perform_install_mongod. cbv zeta.
  apply (wp_run h _ s w
           (fun tr' s' r =>
              s' = s /\
              map fst (isdir_answers tr')
              = [db_path; if IS_WINDOWS then ntpath_dirname log_path
                          else os_path_dirname log_path] /\
              chmod_paths tr'
              = (if IS_WINDOWS
                 then [db_path; if IS_WINDOWS then ntpath_dirname log_path
                                else os_path_dirname log_path]
                 else []) /\
              made_dirs tr' = map fst (List.filter (fun a => negb a.2) (isdir_answers tr')) /\
              exists install,
                mongod_install_answers tr' = [install] /\
                if IS_WINDOWS then
                  exists policy, bootstatuspolicy_answers tr' = [policy] /\ r = Ok policy.1
                else bootstatuspolicy_answers tr' = [] /\ r = Ok install.1)).
  repeat first
    [ match goal with
      | |- wp (if negb ?b then _ else _) _ _ _ => is_var b; destruct b; cbn [negb]
      | |- wp (let _ := _ in _) _ _ _ => cbv zeta
      end
    | wp_step ];
    cbn; (split; [reflexivity|]); (split; [reflexivity|]); (split; [reflexivity|]);
    (split; [reflexivity|]); eexists; (split; [reflexivity|]);
    first [ split; reflexivity | eexists; split; reflexivity ].
Qed.

Lemma perform_kill_mongod_eq {St} IS_WINDOWS pc tc options root_dir db_path log_path :
  perform (St:=St) IS_WINDOWS pc tc options root_dir db_path log_path "kill_mongod" =
  ('(ret, output) ← trigger KillMongod;
   if negb (ret =? 0) then
     log ERROR "kill_mongod failed %s" [AStr output];;
     Ret ret
   else
     '(ret, output) ← trigger (MongodStop (2 * ONE_HOUR_SECS));
     log INFO output [];;
     status ← trigger MongodStatus;
     if negb (String.eqb status "stopped") then
       log ERROR "Unable to stop the mongod service, in state '%s'" [AStr status];;
       Ret 1
     else Ret ret).
Proof. reflexivity. Qed.

(** X15: The [kill_mongod] operation: if the kill command fails it returns
    that code and does not touch the service.  Otherwise it stops the
    service with a timeout of two hours and asks for the status once; it
    returns the code of the stop when the status is stopped, and 1 when it
    is not. *)
Theorem kill_mongod_operation :
  forall W (h : handler W) St IS_WINDOWS pc tc options root_dir db_path log_path
         (s : St) (w : W),
    let o := run h (perform IS_WINDOWS pc tc options root_dir db_path log_path
                      "kill_mongod") s w in
    final o = s /\
    match kill_mongod_answers (trace o) with
    | [(killed, _)] =>
        if killed =? 0 then
          exists stopped output status,
            mongod_stop_answers (trace o) = [(2 * 3600, (stopped, output))] /\
            status_answers (trace o) = [status] /\
            res o = Ok (if String.eqb status "stopped" then stopped else 1)
        else
          res o = Ok killed /\ mongod_stop_answers (trace o) = [] /\
          status_answers (trace o) = []
    | _ => False
    end.
Proof.
  intros W h St IS_WINDOWS pc tc options root_dir db_path log_path s w o. subst o.
  rewrite perform_kill_mongod_eq.
  apply (wp_run h _ s w
           (fun tr' s' r =>
              s' = s /\
              match kill_mongod_answers tr' with
              | [(killed, _)] =>
                  if killed =? 0 then
                    exists stopped output status,
                      mongod_stop_answers tr' = [(2 * 3600, (stopped, output))] /\
                      status_answers tr' = [status] /\
                      r = Ok (if String.eqb status "stopped" then stopped else 1)
                  else
                    r = Ok killed /\ mongod_stop_answers tr' = [] /\ status_answers tr' = []
              | _ => False
              end)).
  wp_step. wp_step. destruct x as [killed output].
  destruct (killed =? 0) eqn:E; cbn [negb].
  - wp_step. wp_step. destruct x as [stopped output']. wp_step. wp_step. wp_step. wp_step.
    destruct (String.eqb x "stopped") eqn:Es; cbn [negb].
    + wp_step. cbn. rewrite E. split; [reflexivity|]. exists stopped, output', x.
      rewrite Es. auto.
    + wp_step. wp_step. wp_step. cbn. rewrite E. split; [reflexivity|].
      exists stopped, output', x. rewrite Es. auto.
  - wp_step. wp_step. wp_step. cbn. rewrite E. auto.
Qed.

(** ** What [remote_handler] refuses *)

(** X16: [remote_handler] raises ValueError when no remote operation is
    given, after it has only resolved the root directory.  An operation
    whose name it does not know, reached after the operations before it have
    returned 0, ends the sequence with code 1: the only call made for it is
    the log line that says it is unsupported, and none of the operations
    after it runs. *)
Theorem remote_handler_refuses :
  forall W (h : handler W) St shlex_split IS_WINDOWS pc tc options root_dir db_path log_path
         (s : St) (w : W),
    (remote_operations options = [] ->
     let o := run h (remote_handler shlex_split IS_WINDOWS pc options tc root_dir) s w in
     res o = Raised (ValueError "No remote operation specified.") /\ final o = s /\
     trace o = [Ev (AbsPath root_dir) (h _ (AbsPath root_dir) w).2]) /\
    (forall ops1 op ops2,
        supported op = false ->
        let perform_all' :=
          perform_all (St:=St) IS_WINDOWS pc tc options root_dir db_path log_path in
        let o1 := run h (perform_all' ops1) s w in
        res o1 = Ok 0 ->
        let o := run h (perform_all' (ops1 ++ op :: ops2)) s w in
        res o = Ok 1 /\ final o = final o1 /\
        trace o = trace o1
                  ++ [Ev (Log ERROR "Unsupported remote option specified '%s'" [AStr op]) tt]).
Proof.
  intros W h St shlex_split IS_WINDOWS pc tc options root_dir db_path log_path s w. split.
  - intros Hops o. subst o. unfold remote_handler. rewrite Hops. simpl.
    destruct (h string (AbsPath root_dir) w) as [w1 root_dir']. simpl. auto.
  - intros ops1 op ops2 Hop perform_all' o1 H1 o. subst o perform_all'.
    pose proof (perform_all_fail_fast h IS_WINDOWS pc tc options root_dir db_path log_path
                  ops1 op ops2 s w) as Hff.
    cbv zeta in Hff. rewrite perform_unsupported in Hff by assumption.
    fold o1 in Hff |- *.
    assert (Hrun : run h (log (S:=St) ERROR "Unsupported remote option specified '%s'"
                            [AStr op];; Ret 1) (final o1) (world o1)
                   = Outcome [Ev (Log ERROR "Unsupported remote option specified '%s'"
                                    [AStr op]) tt]
                       (h unit (Log ERROR "Unsupported remote option specified '%s'"
                                  [AStr op]) (world o1)).1 (final o1) (Ok 1)).
    { simpl. now destruct (h unit _ (world o1)) as [w2 []]. }
    rewrite Hrun in Hff. cbn [res trace world final] in Hff.
    rewrite Hff; [auto|exact H1|]. exists 1. split; [reflexivity|discriminate].
Qed.

(** X16 at an example: the operations noop, reboot, start_mongod. *)
Lemma remote_handler_refuses_witness :
  let perform_all' :=
    perform_all (St:=unit) false test_constants (test_task_config "kill" None 2)
      (test_agent_options ["noop"; "reboot"; "start_mongod"]) "/data/mci" "/data/db"
      "/log/mongod.log" in
  let o := run simulate (perform_all' ["noop"; "reboot"; "start_mongod"]) tt
             (new_sim nothing_scripted) in
  supported "reboot" = false /\ res o = Ok 1 /\ mongod_start_answers (trace o) = [].
Proof.
  intros perform_all' o.
  destruct (remote_handler_refuses sim simulate unit split_words false
              test_constants
              (test_task_config "kill" None 2)
              (test_agent_options ["noop"; "reboot"; "start_mongod"]) "/data/mci" "/data/db"
              "/log/mongod.log" tt (new_sim nothing_scripted)) as [_ H].
  destruct (H ["noop"] "reboot" ["start_mongod"] eq_refl eq_refl) as (Hr & _ & Ht).
  split; [reflexivity|]. split; [exact Hr|].
  change (trace o) with
    (trace (run simulate (perform_all' (["noop"] ++ "reboot" :: ["start_mongod"])) tt
              (new_sim nothing_scripted))).
  subst perform_all'. rewrite Ht. vm_compute. reflexivity.
Defined.

(** ** The loop of [main]: what the state keeps *)

Ltac preserve_step :=
  lazymatch goal with
  | |- preserves _ (get ≫= _) => cbn [mbind prog_bind bind get preserves]; intros ? ?
  | |- preserves _ (Get _) => cbn [preserves]; intros ? ?
  | |- preserves _ (for_each _ _ ≫= _) => apply preserves_bind; [|intros]
  | |- preserves _ (_ ≫= _) => apply preserves_bind; [|intros]
  | |- preserves _ (for_each _ _) => apply preserves_for_each; intros
  | |- preserves _ (when ?b _) => destruct b; cbn [when]
  | |- preserves _ (log _ _ _) => intro; exact I
  | |- preserves _ (trigger _) => intro; exact I
  | |- preserves _ (Ret _) => exact I
  | |- preserves _ (Raise _) => exact I
  | |- preserves _ (modify _) => apply preserves_modify; intros ? ?
  | |- preserves _ (put _) => cbn [put preserves]; split; [|exact I]
  | |- preserves _ (local_exit _) => unfold local_exit
  | |- preserves _ (ssh_failure_exit _ _) => unfold ssh_failure_exit
  | |- preserves _ (let '(_, _) := ?x in _) => destruct x
  | |- preserves _ (if ?b then _ else _) => destruct b
  | |- preserves _ (match ?x with _ => _ end) => destruct x
  end.

Ltac preserve := repeat preserve_step.

Lemma preserves_kill_process {St} (I : St -> Prop) (p : proc) (kill_children : bool) :
  preserves I (kill_process p kill_children).
Proof. unfold kill_process. preserve. Qed.

Lemma preserves_kill_processes {St} (I : St -> Prop) (l : list proc) (kill_children : bool) :
  preserves I (kill_processes l kill_children).
Proof. unfold kill_processes. preserve. apply preserves_kill_process. Qed.

(** The success flag of the report is not touched by the loop. *)
Ltac flag_kept :=
  match goal with
  | H : not_yet_successful ?g |- not_yet_successful _ => exact H
  end.

Section Flag.

Variable e : main_env.

Lemma flag_NamedTempFile_create suffix directory :
  preserves not_yet_successful (NamedTempFile.create suffix directory).
Proof. unfold NamedTempFile.create. preserve; flag_kept. Qed.

Lemma flag_NamedTempFile_delete name :
  preserves not_yet_successful (NamedTempFile.delete name).
Proof. unfold NamedTempFile.delete. preserve; flag_kept. Qed.

Lemma flag_resmoke_client wd mp hp js suite n no_wait lf :
  preserves not_yet_successful (resmoke_client (pc e) wd mp hp js suite n no_wait lf).
Proof. unfold resmoke_client, Processes.create. preserve; flag_kept. Qed.

Lemma flag_Processes_kill_all : preserves not_yet_successful Processes.kill_all.
Proof.
  unfold Processes.kill_all, Processes.kill. preserve; try flag_kept.
  apply preserves_kill_processes.
Qed.

Lemma flag_main_loop_body st : preserves not_yet_successful (main_loop_body e st).
Proof.
  unfold main_loop_body, recover_and_crash, start_on_secret_port, validate_and_shutdown,
    start_on_standard_port, start_clients, crash, kill_clients, reconnect,
    verify_remote_access, check_boot_time, dispatch, call_remote_operation,
    setup_ssh_tunnel, mongo_validate_canary, crash_server_or_kill_mongod,
    mongo_insert_canary.
  repeat first
    [ apply flag_NamedTempFile_create | apply flag_NamedTempFile_delete
    | apply flag_resmoke_client | apply flag_Processes_kill_all
    | apply preserves_kill_process
    | preserve_step ]; try flag_kept.
Qed.

Lemma flag_main_loop fuel st : preserves not_yet_successful (main_loop e fuel st).
Proof.
  revert st. induction fuel as [|fuel IH]; intros st; cbn [main_loop]; [exact I|].
  apply preserves_bind; [apply flag_main_loop_body|]. intros st'.
  destruct (loop_num st' =? effective_test_loops e); [exact I|].
  apply preserves_bind; [|intros; apply IH].
  unfold check_disk, dispatch, call_remote_operation. preserve.
Qed.

End Flag.

(** X17: [REPORT_JSON_SUCCESS] is set exactly when the loop of [main] ends
    through its [break]: a run that exits, raises or is cut short leaves the
    flag false. *)
Theorem success_is_reported_only_when_the_loop_ends :
  forall W (h : handler W) (e : main_env) (fuel : nat) (lo : local_ops)
         (s : globals) (w : W),
    REPORT_JSON_SUCCESS s = false ->
    let o := run h (main e fuel lo) s w in
    REPORT_JSON_SUCCESS (final o) = true <-> res o = Ok tt.
Proof.
  intros W h e fuel lo s w Hs o. subst o. unfold main. rewrite run_bind.
  unfold then_outcome.
  pose proof (preserves_sound not_yet_successful h _ s w
                (flag_main_loop e fuel (initial_loop_state e lo)) Hs) as Hflag.
  unfold not_yet_successful in Hflag.
  destruct (res (run h (main_loop e fuel (initial_loop_state e lo)) s w)) as [[]|exn|];
    cbn [final res run modify].
  - split; reflexivity.
  - rewrite Hflag. split; discriminate.
  - rewrite Hflag. split; discriminate.
Qed.

(** X17 at an example: a run of two loops on a host that reboots. *)
Lemma success_is_reported_only_when_the_loop_ends_witness :
  let o := run simulate (main (test_env "internal" (Some "4.4") 2) 3 connected)
             initial_globals (new_sim rebooting_host) in
  REPORT_JSON_SUCCESS (final o) = true /\ res o = Ok tt.
Proof.
  intros o.
  pose proof (success_is_reported_only_when_the_loop_ends sim simulate
                (test_env "internal" (Some "4.4") 2) 3 connected initial_globals
                (new_sim rebooting_host) eq_refl) as H.
  fold o in H. assert (Hr : res o = Ok tt) by (vm_compute; reflexivity).
  split; [apply H, Hr|exact Hr].
Defined.

(** ** The number of turns *)

Lemma no_spin_sound {W St A} (h : handler W) (p : prog St A) s w :
  no_spin p -> res (run h p s w) <> OutOfFuel.
Proof.
  revert s w. induction p as [a|exn| |k IH|s' k IH|X c k IH]; intros s w; simpl;
    try discriminate; auto.
  intros H. destruct (h X c w) as [w' x]. simpl. auto.
Qed.

Lemma no_spin_bind {St A B} (p : prog St A) (f : A -> prog St B) :
  no_spin p -> (forall a, no_spin (f a)) -> no_spin (p ≫= f).
Proof.
  unfold mbind, prog_bind.
  induction p as [a|exn| |k IH|s' k IH|X c k IH]; simpl; auto.
Qed.

Lemma no_spin_for_each {St A} (l : list A) (body : A -> prog St unit) :
  (forall x, no_spin (body x)) -> no_spin (for_each l body).
Proof.
  intros Hb. induction l as [|x l IH]; simpl; auto.
  apply (no_spin_bind (body x)); auto.
Qed.

Ltac no_spin_step :=
  lazymatch goal with
  | |- no_spin (_ ≫= _) => apply no_spin_bind; [|intros]
  | |- no_spin (for_each _ _) => apply no_spin_for_each; intros
  | |- no_spin (when ?b _) => destruct b; cbn [when]
  | |- no_spin (log _ _ _) => intro; exact I
  | |- no_spin (trigger _) => intro; exact I
  | |- no_spin (Ret _) => exact I
  | |- no_spin (Raise _) => exact I
  | |- no_spin (modify _) => intro; exact I
  | |- no_spin (put _) => exact I
  | |- no_spin get => intro; exact I
  | |- no_spin (local_exit _) => intro; exact I
  | |- no_spin (ssh_failure_exit _ _) => intro; intro; exact I
  | |- no_spin (let '(_, _) := ?x in _) => destruct x
  | |- no_spin (if ?b then _ else _) => destruct b
  | |- no_spin (match ?x with _ => _ end) => destruct x
  end.

Lemma no_spin_kill_process {St} (p : proc) (kill_children : bool) :
  no_spin (kill_process (S:=St) p kill_children).
Proof. unfold kill_process. repeat no_spin_step. Qed.

Lemma no_spin_main_loop_body (e : main_env) (st : loop_state) : no_spin (main_loop_body e st).
Proof.
  unfold main_loop_body, recover_and_crash, start_on_secret_port, validate_and_shutdown,
    start_on_standard_port, start_clients, crash, kill_clients, reconnect,
    verify_remote_access, check_boot_time, dispatch, call_remote_operation,
    setup_ssh_tunnel, mongo_validate_canary, crash_server_or_kill_mongod,
    mongo_insert_canary, resmoke_client, NamedTempFile.create, NamedTempFile.delete,
    Processes.create, Processes.kill_all, Processes.kill, kill_processes.
  repeat first [ apply no_spin_kill_process | no_spin_step ].
Qed.

Section Bound.

Context {W : Type} (h : handler W) (e : main_env).

Lemma run_check_disk_Ok st s w : exists u, res (run h (check_disk e st) s w) = Ok u.
Proof.
  unfold check_disk, dispatch, call_remote_operation, log. run_step.
  match goal with |- context [h _ (Shell ?lo ?cmd) ?w0] =>
    destruct (h _ (Shell lo cmd) w0) as [w1 [ret output]] end.
  cbn [fst snd]. destruct (negb (ret =? 0)); cbn [when].
  - rewrite run_trigger. cbn [res]. eauto.
  - cbn [run res]. eauto.
Qed.

Lemma main_loop_bounded fuel : forall st s w,
  loop_num st < effective_test_loops e ->
  (Z.to_nat (effective_test_loops e - loop_num st) <= fuel)%nat ->
  res (run h (main_loop e fuel st) s w) <> OutOfFuel /\
  (length (turns h e fuel st s w) <= Z.to_nat (effective_test_loops e - loop_num st))%nat /\
  (res (run h (main_loop e fuel st) s w) = Ok tt ->
   length (turns h e fuel st s w) = Z.to_nat (effective_test_loops e - loop_num st)).
Proof.
  induction fuel as [|fuel IH]; intros st s w Hlt Hfuel; [lia|].
  cbn [main_loop turns]. rewrite run_bind. unfold then_outcome.
  destruct (res (run h (main_loop_body e st) s w)) as [st'|exn|] eqn:Hbody.
  - destruct (main_loop_body_hands_over h e st s w st' Hbody) as [Hn _].
    destruct (Z.eqb_spec (loop_num st') (effective_test_loops e)) as [Heq|Hne].
    + cbn [run res length]. split; [discriminate|]. split; [lia|]. intros _. lia.
    + rewrite run_bind. unfold then_outcome.
      destruct (run_check_disk_Ok st' (final (run h (main_loop_body e st) s w))
                  (world (run h (main_loop_body e st) s w))) as [[] Hc].
      rewrite Hc.
      destruct (IH st' (final (run h (check_disk e st')
                                 (final (run h (main_loop_body e st) s w))
                                 (world (run h (main_loop_body e st) s w))))
                  (world (run h (check_disk e st')
                            (final (run h (main_loop_body e st) s w))
                            (world (run h (main_loop_body e st) s w)))))
        as (H1 & H2 & H3); [lia|lia|].
      cbn [res length]. split; [exact H1|]. split; [lia|].
      intros Hr. rewrite (H3 Hr). lia.
  - cbn [res length]. split; [discriminate|]. split; [lia|]. discriminate.
  - exfalso. apply (no_spin_sound h _ s w (no_spin_main_loop_body e st)). exact Hbody.
Qed.

Lemma main_loop_past_the_end fuel : forall st s w u,
  effective_test_loops e <= loop_num st ->
  res (run h (main_loop e fuel st) s w) <> Ok u.
Proof.
  induction fuel as [|fuel IH]; intros st s w u Hle; [discriminate|].
  cbn [main_loop]. rewrite run_bind. unfold then_outcome.
  destruct (res (run h (main_loop_body e st) s w)) as [st'|exn|] eqn:Hbody;
    try discriminate.
  destruct (main_loop_body_hands_over h e st s w st' Hbody) as [Hn _].
  destruct (Z.eqb_spec (loop_num st') (effective_test_loops e)) as [Heq|Hne]; [lia|].
  rewrite run_bind. unfold then_outcome.
  destruct (run_check_disk_Ok st' (final (run h (main_loop_body e st) s w))
              (world (run h (main_loop_body e st) s w))) as [[] Hc].
  rewrite Hc. cbn [res]. apply IH. lia.
Qed.

End Bound.

(** X18: With a positive number of loops, the loop of [main] makes at most
    [test_loops] turns and exactly that many when it ends normally; on
    Windows it makes at most 10 turns whatever [test_loops] says. *)
Theorem the_loop_ends_after_test_loops_turns :
  forall W (h : handler W) (e : main_env) (fuel : nat) (lo : local_ops)
         (s : globals) (w : W),
    1 <= effective_test_loops e ->
    (Z.to_nat (effective_test_loops e) <= fuel)%nat ->
    let o := run h (main_loop e fuel (initial_loop_state e lo)) s w in
    let T := turns h e fuel (initial_loop_state e lo) s w in
    res o <> OutOfFuel /\
    (length T <= Z.to_nat (effective_test_loops e))%nat /\
    (res o = Ok tt -> length T = Z.to_nat (effective_test_loops e)) /\
    (IS_WINDOWS e = true -> (length T <= 10)%nat).
Proof.
  intros W h e fuel lo s w Hpos Hfuel o T.
  destruct (main_loop_bounded h e fuel (initial_loop_state e lo) s w) as (H1 & H2 & H3).
  - cbn [initial_loop_state loop_num]. lia.
  - cbn [initial_loop_state loop_num]. now rewrite Z.sub_0_r.
  - cbn [initial_loop_state loop_num] in H2, H3. rewrite Z.sub_0_r in H2, H3.
    split; [exact H1|]. split; [exact H2|]. split; [exact H3|].
    intros Hwin. fold T in H2.
    assert (effective_test_loops e <= 10).
    { unfold effective_test_loops. rewrite Hwin. cbn [andb].
      destruct (Z.ltb_spec 10 (test_loops (tc e))); lia. }
    lia.
Qed.

(** X18 at an example: a run of two loops on a host that reboots. *)
Lemma the_loop_ends_after_test_loops_turns_witness :
  let e := test_env "internal" (Some "4.4") 2 in
  let o := run simulate (main_loop e 2 (initial_loop_state e connected)) initial_globals
             (new_sim rebooting_host) in
  let T := turns simulate e 2 (initial_loop_state e connected) initial_globals
             (new_sim rebooting_host) in
  res o <> OutOfFuel /\ (length T <= 2)%nat.
Proof.
  intros e o T.
  destruct (the_loop_ends_after_test_loops_turns sim simulate e 2 connected initial_globals
              (new_sim rebooting_host)) as (H1 & H2 & _).
  - vm_compute. discriminate.
  - vm_compute. lia.
  - split; [exact H1|exact H2].
Defined.

(** X19: With [test_loops] zero or negative the test [loop_num ==
    test_loops] never holds, so the loop of [main] does not end by itself:
    no run ends normally and the success flag is never set. *)
Theorem without_a_positive_loop_count_the_run_never_succeeds :
  forall W (h : handler W) (e : main_env) (fuel : nat) (lo : local_ops)
         (s : globals) (w : W),
    test_loops (tc e) <= 0 ->
    REPORT_JSON_SUCCESS s = false ->
    let o := run h (main e fuel lo) s w in
    res o <> Ok tt /\ REPORT_JSON_SUCCESS (final o) = false.
Proof.
  intros W h e fuel lo s w Hle Hs o. subst o. unfold main. rewrite run_bind.
  unfold then_outcome.
  assert (Hetl : effective_test_loops e <= 0).
  { unfold effective_test_loops.
    destruct (Z.ltb_spec 10 (test_loops (tc e))); [lia|]. now rewrite andb_false_r. }
  pose proof (main_loop_past_the_end h e fuel (initial_loop_state e lo) s w tt Hetl) as Hno.
  pose proof (preserves_sound not_yet_successful h _ s w
                (flag_main_loop e fuel (initial_loop_state e lo)) Hs) as Hflag.
  unfold not_yet_successful in Hflag.
  destruct (res (run h (main_loop e fuel (initial_loop_state e lo)) s w)) as [[]|exn|];
    [congruence| |]; cbn [res final]; (split; [discriminate|exact Hflag]).
Qed.

(** X19 at an example: a task configuration with no loop. *)
Lemma without_a_positive_loop_count_the_run_never_succeeds_witness :
  let o := run simulate (main (test_env "internal" (Some "4.4") 0) 4 connected)
             initial_globals (new_sim rebooting_host) in
  res o <> Ok tt /\ REPORT_JSON_SUCCESS (final o) = false.
Proof.
  apply (without_a_positive_loop_count_the_run_never_succeeds sim simulate
           (test_env "internal" (Some "4.4") 0) 4 connected initial_globals
           (new_sim rebooting_host)).
  - vm_compute. discriminate.
  - reflexivity.
Defined.

(** ** The parts of a turn *)

Lemma wp_skip {St A B} (p : prog St A) (f : A -> prog St B) s tr
    (Q : list event -> St -> result B -> Prop) :
  (forall a s' tr', wp (f a) s' tr' Q) ->
  (forall s' tr' exn, Q tr' s' (Raised exn)) ->
  (forall s' tr', Q tr' s' OutOfFuel) ->
  wp (p ≫= f) s tr Q.
Proof.
  intros Hok Hraised Hfuel. apply wp_bind. eapply wp_weaken; [|apply wp_any].
  intros tr' s' [a|exn|] _; cbn [and_then]; auto.
Qed.

Lemma wp_from_prefix {St A} (p : prog St A) s tr (Q : list event -> St -> result A -> Prop) :
  (forall ext s' r, Q (tr ++ ext) s' r) -> wp p s tr Q.
Proof.
  intros H. eapply wp_weaken; [|apply wp_extends]. intros tr' s' r [ext ->]. apply H.
Qed.

Lemma and_then_from_prefix {St A B} (f : A -> prog St B) tr
    (Q : list event -> St -> result B -> Prop) :
  (forall ext s' r, Q (tr ++ ext) s' r) ->
  forall ext s' r, and_then f Q (tr ++ ext) s' r.
Proof.
  intros H ext s' [a|exn|]; cbn [and_then]; auto.
  apply wp_from_prefix. intros ext' s'' r. rewrite <- app_assoc. apply H.
Qed.

Lemma shell_answers_app tr1 tr2 :
  shell_answers (tr1 ++ tr2) = shell_answers tr1 ++ shell_answers tr2.
Proof. apply flat_map_app. Qed.

Lemma find_one_answers_app tr1 tr2 :
  find_one_answers (tr1 ++ tr2) = find_one_answers tr1 ++ find_one_answers tr2.
Proof. apply flat_map_app. Qed.

Lemma started_app tr1 tr2 : started (tr1 ++ tr2) = started tr1 ++ started tr2.
Proof. apply flat_map_app. Qed.

Section Parts.

Variable e : main_env.

Lemma wp_start_on_secret_port st s tr Q :
  (forall ret output,
      ret <> 0 ->
      Q (tr ++ start_batch_calls e st ret output)
        (set_EXIT_YML <[ "exit_code" := YInt ret ]> s) (Raised (SystemExit ret))) ->
  (forall output tunnel,
      Q (tr ++ start_batch_calls e st 0 output ++ tunnel_calls e tunnel) s
        (Ok (get_backup_path (backup_path_before st) (loop_num st + 1), tunnel))) ->
  wp (start_on_secret_port e st) s tr Q.
Proof.
  intros Hfail Hok.
  unfold start_on_secret_port, dispatch, call_remote_operation, setup_ssh_tunnel.
  cbv zeta. wp_step. wp_step. wp_step. wp_step. destruct x as [ret output].
  wp_step. wp_step. wp_step.
  destruct (Z.eqb_spec ret 0) as [->|Hret]; cbn [negb when].
  - wp_step. wp_step. wp_step. wp_step. wp_step. wp_step. wp_step. wp_step. wp_step.
    wp_step. wp_step. rewrite <- !app_assoc. apply Hok.
  - unfold local_exit. wp_step. wp_step. wp_step. rewrite <- !app_assoc.
    apply Hfail, Hret.
Qed.

End Parts.

(** X20: The first command a turn sends is the start batch for its loop
    number, on the channel of that turn.  When it answers a non-zero code
    the run exits with that code, recorded in the exit file, and nothing
    more is sent or started: no tunnel, no client. *)
Theorem a_failed_start_batch_ends_the_run :
  forall W (h : handler W) (e : main_env) (fuel : nat) (st : loop_state)
         (s : globals) (w : W),
    let o := run h (main_loop e (S fuel) st) s w in
    match shell_answers (trace o) with
    | (lo, cmd, (ret, output)) :: rest =>
        lo = local_ops_ st /\ cmd = start_batch_command e st /\
        (ret <> 0 ->
         rest = [] /\ started (trace o) = [] /\
         res o = Raised (SystemExit ret) /\
         final o = set_EXIT_YML <[ "exit_code" := YInt ret ]> s)
    | [] => False
    end.
Proof.
  intros W h e fuel st s w o. subst o.
  apply (wp_run h _ s w
           (fun tr' s' r =>
              match shell_answers tr' with
              | (lo, cmd, (ret, output)) :: rest =>
                  lo = local_ops_ st /\ cmd = start_batch_command e st /\
                  (ret <> 0 ->
                   rest = [] /\ started tr' = [] /\
                   r = Raised (SystemExit ret) /\
                   s' = set_EXIT_YML <[ "exit_code" := YInt ret ]> s)
              | [] => False
              end)).
  cbn [main_loop]. apply wp_bind. unfold main_loop_body. apply wp_bind.
  unfold recover_and_crash. apply wp_bind. apply wp_start_on_secret_port.
  - intros ret output Hret. cbn. repeat split.
  - intros output tunnel. cbn [and_then].
    apply wp_from_prefix. do 2 apply and_then_from_prefix.
    intros ext s' r. rewrite shell_answers_app. cbn.
    split; [reflexivity|]. split; [reflexivity|]. intros H. congruence.
Qed.
(** ** A canary that is not found *)

Lemma inserted_app tr1 tr2 : inserted (tr1 ++ tr2) = inserted tr1 ++ inserted tr2.
Proof. apply flat_map_app. Qed.

Lemma client_procs_app tr1 tr2 :
  client_procs (tr1 ++ tr2) = client_procs tr1 ++ client_procs tr2.
Proof. apply flat_map_app. Qed.

Lemma ssh_error_answers_app tr1 tr2 :
  ssh_error_answers (tr1 ++ tr2) = ssh_error_answers tr1 ++ ssh_error_answers tr2.
Proof. apply flat_map_app. Qed.

Lemma randint_answers_app tr1 tr2 :
  randint_answers (tr1 ++ tr2) = randint_answers tr1 ++ randint_answers tr2.
Proof. apply flat_map_app. Qed.

(** X21: In a turn after the first, the canary document of the turn before
    is looked up, unless the start batch failed and the run has exited.
    When [find_one] does not find it the run exits with code 1, recorded in
    the exit file, before the collections are validated: no temporary file
    is made, no command is run locally, and the start batch is the only
    command that was sent. *)
Theorem a_lost_canary_ends_the_run :
  forall W (h : handler W) (e : main_env) (fuel : nat) (st : loop_state) (d : document)
         (s : globals) (w : W),
    1 <= loop_num st -> canary_doc st = CanaryDoc d -> d <> ∅ ->
    let o := run h (main_loop e (S fuel) st) s w in
    match find_one_answers (trace o) with
    | (doc, found) :: rest =>
        doc = d /\
        (found = false ->
         rest = [] /\ res o = Raised (SystemExit 1) /\
         final o = set_EXIT_YML <[ "exit_code" := YInt 1 ]> s /\
         temp_names (trace o) = [] /\ executed (trace o) = [] /\
         length (shell_answers (trace o)) = 1%nat)
    | [] => exists ret, ret <> 0 /\ res o = Raised (SystemExit ret)
    end.
Proof.
  intros W h e fuel st d s w Hloop Hcan Hd o. subst o.
  apply (wp_run h _ s w
           (fun tr' s' r =>
              match find_one_answers tr' with
              | (doc, found) :: rest =>
                  doc = d /\
                  (found = false ->
                   rest = [] /\ r = Raised (SystemExit 1) /\
                   s' = set_EXIT_YML <[ "exit_code" := YInt 1 ]> s /\
                   temp_names tr' = [] /\ executed tr' = [] /\
                   length (shell_answers tr') = 1%nat)
              | [] => exists ret, ret <> 0 /\ r = Raised (SystemExit ret)
              end)).
  cbn [main_loop]. apply wp_bind. unfold main_loop_body. apply wp_bind.
  unfold recover_and_crash. apply wp_bind. apply wp_start_on_secret_port.
  - intros ret output Hret. cbn. eauto.
  - intros output tunnel. cbn [and_then]. apply wp_bind.
    unfold validate_and_shutdown. cbv zeta.
    replace (1 <? loop_num st + 1) with true by (symmetry; apply Z.ltb_lt; lia).
    rewrite Hcan. unfold mongo_validate_canary.
    rewrite (bool_decide_eq_false_2 _ Hd). cbn [when].
    do 3 apply wp_bind. wp_step. wp_step. wp_step. wp_step. wp_step. wp_step. wp_step.
    destruct x.
    + cbn [negb Z.eqb when].
      apply wp_from_prefix. do 4 apply and_then_from_prefix.
      intros ext s' r. rewrite <- !app_assoc, !find_one_answers_app. cbn.
      split; [reflexivity|discriminate].
    + cbn [negb Z.eqb when]. unfold local_exit. wp_step. wp_step. wp_step.
      rewrite <- !app_assoc.
      rewrite !find_one_answers_app, !temp_names_app, !executed_app, !shell_answers_app.
      cbn. auto 10.
Qed.

(** X21 at an example: the second loop against a server that has lost the
    canary written at time 55. *)
Lemma a_lost_canary_ends_the_run_witness :
  let e := test_env "internal" (Some "4.4") 2 in
  let o := run simulate (main_loop e 1 (second_turn_state e)) initial_globals
             (new_sim canary_lost) in
  find_one_answers (trace o) = [({[ "x" := DFloat 55 ]}, false)] /\
  res o = Raised (SystemExit 1).
Proof.
  intros e o.
  assert (Hd : ({[ "x" := DFloat 55 ]} : document) <> ∅) by (vm_compute; discriminate).
  pose proof (a_lost_canary_ends_the_run sim simulate e 0 (second_turn_state e)
                {[ "x" := DFloat 55 ]} initial_globals (new_sim canary_lost)
                ltac:(simpl; lia) eq_refl Hd) as H.
  cbv zeta in H. fold o in H.
  assert (Hf : find_one_answers (trace o) = [({[ "x" := DFloat 55 ]}, false)])
    by (vm_compute; reflexivity).
  rewrite Hf in H. destruct H as [_ H]. destruct (H eq_refl) as (_ & Hr & _).
  split; [exact Hf|exact Hr].
Defined.

(** ** The crash *)

(** X22: With a crash method other than internal and kill, the crash step
    still waits the crash delay, then fails the turn with the exception
    Crash of server failed: Unsupported crash method; no canary is inserted,
    no command is sent and the state is unchanged. *)
Theorem an_unsupported_crash_method_fails_the_turn :
  forall W (h : handler W) (e : main_env) (st : loop_state) (s : globals) (w : W),
    crash_method (tc e) <> "internal" -> crash_method (tc e) <> "kill" ->
    let o := run h (crash e st) s w in
    res o = Raised (Exception ("Crash of server failed: Unsupported crash method '"
                               +:+ crash_method (tc e) +:+ "' provided")) /\
    final o = s /\
    inserted (trace o) = [] /\ shell_answers (trace o) = [] /\
    ssh_error_answers (trace o) = [] /\
    exists jitter,
      randint_answers (trace o) = [jitter] /\
      slept (trace o) = [CRASH_WAIT_TIME (pc e) + jitter].
Proof.
  intros W h e st s w Hi Hk o. subst o.
  apply (wp_run h _ s w
           (fun tr' s' r =>
              r = Raised (Exception ("Crash of server failed: Unsupported crash method '"
                                     +:+ crash_method (tc e) +:+ "' provided")) /\
              s' = s /\
              inserted tr' = [] /\ shell_answers tr' = [] /\ ssh_error_answers tr' = [] /\
              exists jitter,
                randint_answers tr' = [jitter] /\
                slept tr' = [CRASH_WAIT_TIME (pc e) + jitter])).
  unfold crash, crash_server_or_kill_mongod. cbv zeta.
  apply String.eqb_neq in Hi, Hk. rewrite Hi, Hk. cbn [orb negb andb].
  wp_step. wp_step. wp_step. wp_step. wp_step. wp_step. wp_step. wp_step. wp_step.
  wp_step. wp_step. wp_step. wp_step. wp_step. wp_step.
  cbn [Z.eqb negb]. wp_step.
  rewrite !inserted_app, !shell_answers_app, !ssh_error_answers_app, !randint_answers_app,
    !slept_app.
  cbn. repeat split. eauto.
Qed.

(** X22 at an example: a task configuration that asks for a crash through
    the cloud provider. *)
Lemma an_unsupported_crash_method_fails_the_turn_witness :
  let e := test_env "aws_ec2" None 1 in
  let o := run simulate (crash e (initial_loop_state e connected)) initial_globals
             (new_sim nothing_scripted) in
  res o = Raised (Exception
                    "Crash of server failed: Unsupported crash method 'aws_ec2' provided") /\
  inserted (trace o) = [].
Proof.
  intros e o.
  destruct (an_unsupported_crash_method_fails_the_turn sim simulate e
              (initial_loop_state e connected) initial_globals (new_sim nothing_scripted))
    as (H1 & _ & H3 & _).
  - vm_compute. discriminate.
  - vm_compute. discriminate.
  - split; [exact H1|exact H3].
Defined.

Lemma writes_and_commands_app tr1 tr2 :
  writes_and_commands (tr1 ++ tr2) = writes_and_commands tr1 ++ writes_and_commands tr2.
Proof. apply flat_map_app. Qed.

(** X23: With the crash method kill, the canary is inserted before the kill
    command is sent, once each, after one sleep of the crash delay.  The
    turn fails exactly when the kill command answers a non-zero code;
    whether the insert was acknowledged plays no part.  The channel is not
    asked for an ssh error, and there is no second sleep. *)
Theorem killing_mongod_must_succeed :
  forall W (h : handler W) (e : main_env) (st : loop_state) (s : globals) (w : W),
    crash_method (tc e) = "kill" ->
    let o := run h (crash e st) s w in
    final o = s /\ ssh_error_answers (trace o) = [] /\
    exists t jitter ret output,
      clock_readings (trace o) = [t] /\
      randint_answers (trace o) = [jitter] /\
      slept (trace o) = [CRASH_WAIT_TIME (pc e) + jitter] /\
      writes_and_commands (trace o) = [inl {[ "x" := DFloat t ]}; inr (crash_command e)] /\
      shell_answers (trace o) = [(local_ops_ st, crash_command e, (ret, output))] /\
      res o = if ret =? 0 then Ok {[ "x" := DFloat t ]}
              else Raised (Exception ("Crash of server failed: " +:+ output)).
Proof.
  intros W h e st s w Hk o. subst o.
  apply (wp_run h _ s w
           (fun tr' s' r =>
              s' = s /\ ssh_error_answers tr' = [] /\
              exists t jitter ret output,
                clock_readings tr' = [t] /\
                randint_answers tr' = [jitter] /\
                slept tr' = [CRASH_WAIT_TIME (pc e) + jitter] /\
                writes_and_commands tr'
                = [inl {[ "x" := DFloat t ]}; inr (crash_command e)] /\
                shell_answers tr' = [(local_ops_ st, crash_command e, (ret, output))] /\
                r = if ret =? 0 then Ok {[ "x" := DFloat t ]}
                    else Raised (Exception ("Crash of server failed: " +:+ output)))).
  unfold crash, crash_server_or_kill_mongod, mongo_insert_canary, crash_command. cbv zeta.
  rewrite Hk. cbn [String.eqb Ascii.eqb Bool.eqb orb negb andb].
  repeat wp_step;
    rewrite !ssh_error_answers_app, !clock_readings_app, !randint_answers_app, !slept_app,
      !writes_and_commands_app, !shell_answers_app;
    cbn; (split; [reflexivity|]); (split; [reflexivity|]);
    eexists _, _, _, _; repeat (split; [reflexivity|]).
  - apply negb_true_iff in Heqb0. now rewrite Heqb0.
  - apply negb_false_iff in Heqb0. now rewrite Heqb0.
Qed.

(** X23 at an example: the first loop of a task that kills mongod. *)
Lemma killing_mongod_must_succeed_witness :
  let e := test_env "kill" None 1 in
  let o := run simulate (crash e (initial_loop_state e connected)) initial_globals
             (new_sim nothing_scripted) in
  final o = initial_globals /\ ssh_error_answers (trace o) = [].
Proof.
  intros e o.
  destruct (killing_mongod_must_succeed sim simulate e (initial_loop_state e connected)
              initial_globals (new_sim nothing_scripted)) as (H1 & H2 & _).
  - reflexivity.
  - split; [exact H1|exact H2].
Defined.

(** X24: With the crash method internal, the canary is inserted before the
    crash command is sent, once each.  The return code of the crash command
    does not fail the turn: the channel is asked once whether the output is
    an ssh error; if so the run exits with the code of the command, the
    output recorded as ssh failure in the exit file; if not it sleeps 10
    seconds (120 on Windows) and goes on. *)
Theorem an_internal_crash_is_judged_by_the_channel :
  forall W (h : handler W) (e : main_env) (st : loop_state) (s : globals) (w : W),
    crash_method (tc e) = "internal" ->
    let o := run h (crash e st) s w in
    exists t jitter ret output,
      clock_readings (trace o) = [t] /\
      randint_answers (trace o) = [jitter] /\
      writes_and_commands (trace o) = [inl {[ "x" := DFloat t ]}; inr (crash_command e)] /\
      shell_answers (trace o) = [(local_ops_ st, crash_command e, (ret, output))] /\
      match ssh_error_answers (trace o) with
      | [(looked_at, true)] =>
          looked_at = output /\
          res o = Raised (SystemExit ret) /\
          final o = set_EXIT_YML <[ "exit_code" := YInt ret ]>
                      (set_EXIT_YML <[ "ec2_ssh_failure" := YStr output ]> s) /\
          slept (trace o) = [CRASH_WAIT_TIME (pc e) + jitter]
      | [(looked_at, false)] =>
          looked_at = output /\
          res o = Ok {[ "x" := DFloat t ]} /\ final o = s /\
          slept (trace o) = [CRASH_WAIT_TIME (pc e) + jitter;
                             if IS_WINDOWS e then 120 else 10]
      | _ => False
      end.
Proof.
  intros W h e st s w Hk o. subst o.
  apply (wp_run h _ s w
           (fun tr' s' r =>
              exists t jitter ret output,
                clock_readings tr' = [t] /\
                randint_answers tr' = [jitter] /\
                writes_and_commands tr'
                = [inl {[ "x" := DFloat t ]}; inr (crash_command e)] /\
                shell_answers tr' = [(local_ops_ st, crash_command e, (ret, output))] /\
                match ssh_error_answers tr' with
                | [(looked_at, true)] =>
                    looked_at = output /\
                    r = Raised (SystemExit ret) /\
                    s' = set_EXIT_YML <[ "exit_code" := YInt ret ]>
                           (set_EXIT_YML <[ "ec2_ssh_failure" := YStr output ]> s) /\
                    slept tr' = [CRASH_WAIT_TIME (pc e) + jitter]
                | [(looked_at, false)] =>
                    looked_at = output /\
                    r = Ok {[ "x" := DFloat t ]} /\ s' = s /\
                    slept tr' = [CRASH_WAIT_TIME (pc e) + jitter;
                                 if IS_WINDOWS e then 120 else 10]
                | _ => False
                end)).
  unfold crash, crash_server_or_kill_mongod, mongo_insert_canary, crash_command,
    ssh_failure_exit, local_exit.
  cbv zeta. rewrite Hk. cbn [String.eqb Ascii.eqb Bool.eqb orb negb andb].
  repeat wp_step;
    rewrite !ssh_error_answers_app, !clock_readings_app, !randint_answers_app, !slept_app,
      !writes_and_commands_app, !shell_answers_app;
    cbn; eexists _, _, _, _; repeat (split; [reflexivity|]); reflexivity.
Qed.

(** X24 at an example: the first loop against a host that reboots. *)
Lemma an_internal_crash_is_judged_by_the_channel_witness :
  let e := test_env "internal" None 1 in
  let o := run simulate (crash e (initial_loop_state e connected)) initial_globals
             (new_sim rebooting_host) in
  exists t, clock_readings (trace o) = [t].
Proof.
  intros e o.
  destruct (an_internal_crash_is_judged_by_the_channel sim simulate e
              (initial_loop_state e connected) initial_globals (new_sim rebooting_host))
    as (t & jitter & ret & output & H1 & _).
  - reflexivity.
  - exists t. exact H1.
Defined.

(** ** The registry of client processes *)

Lemma wp_when_done_bind {St A B} (J K : list event -> St -> Prop) (p : prog St A)
    (f : A -> prog St B) s tr :
  wp p s tr (when_done J) ->
  (forall a tr' s', J tr' s' -> wp (f a) s' tr' (when_done K)) ->
  wp (p ≫= f) s tr (when_done K).
Proof.
  intros Hp Hf. apply wp_bind. eapply wp_weaken; [|exact Hp].
  intros tr' s' [a|exn|]; cbn [and_then when_done]; auto.
Qed.

Lemma wp_for_each_when_done {St A} (J : list event -> St -> Prop) (l : list A)
    (body : A -> prog St unit) :
  (forall x tr s, J tr s -> wp (body x) s tr (when_done J)) ->
  forall tr s, J tr s -> wp (for_each l body) s tr (when_done J).
Proof.
  intros Hb. induction l as [|x l IH]; intros tr s HJ; cbn [for_each].
  - exact HJ.
  - apply (wp_when_done_bind J J); [now apply Hb|]. intros _ tr' s'. apply IH.
Qed.

Lemma none_registry ext :
  none_of registry_call ext = true -> client_procs ext = [] /\ waited ext = [].
Proof.
  induction ext as [|[X c x] ext IH]; [auto|].
  cbn [none_of forallb ev_call ev_type]. intros [Hc Ht]%andb_true_iff.
  destruct (IH Ht) as [H1 H2].
  destruct c; try discriminate;
    cbn [client_procs waited flat_map ev_call ev_answer app];
    try (fold (client_procs ext); fold (waited ext); auto).
  destruct use_file; [discriminate|]. fold (client_procs ext); fold (waited ext); auto.
Qed.

(** A program that makes no call of the registry and does not write
    [_PROC_LIST] leaves the registry as it is. *)
Lemma wp_registry_kept {A} (p : prog globals A) (s : globals) tr :
  avoids registry_call p ->
  (forall L, preserves (fun g => _PROC_LIST g = L) p) ->
  wp p s tr (fun tr' s' _ =>
               _PROC_LIST s' = _PROC_LIST s /\ client_procs tr' = client_procs tr /\
               waited tr' = waited tr).
Proof.
  intros Ha Hp.
  eapply wp_weaken;
    [|apply (wp_conj _ _ _ _ _ (wp_avoids registry_call p s tr Ha)
               (wp_preserves _ p s tr (Hp (_PROC_LIST s)) eq_refl))].
  intros tr' s' r [(ext & -> & He) Hs]. cbn beta in Hs.
  destruct (none_registry ext He) as [H1 H2].
  rewrite client_procs_app, waited_app, H1, H2, !app_nil_r. auto.
Qed.

Lemma wp_clients_registered {A} (p : prog globals A) before (s : globals) tr :
  avoids registry_call p ->
  (forall L, preserves (fun g => _PROC_LIST g = L) p) ->
  clients_registered before tr s ->
  wp p s tr (when_done (clients_registered before)).
Proof.
  intros Ha Hp [H1 H2]. eapply wp_weaken; [|apply (wp_registry_kept p s tr Ha Hp)].
  intros tr' s' [a|exn|] (E1 & E2 & E3); cbn [when_done]; auto.
  split; congruence.
Qed.

Lemma wp_clients_gone {A} (p : prog globals A) before (s : globals) tr :
  avoids registry_call p ->
  (forall L, preserves (fun g => _PROC_LIST g = L) p) ->
  clients_gone before tr s ->
  wp p s tr (when_done (clients_gone before)).
Proof.
  intros Ha Hp [H1 H2]. eapply wp_weaken; [|apply (wp_registry_kept p s tr Ha Hp)].
  intros tr' s' [a|exn|] (E1 & E2 & E3); cbn [when_done]; auto.
  split; congruence.
Qed.

Ltac list_kept :=
  match goal with
  | H : _PROC_LIST ?g = ?L |- _PROC_LIST _ = ?L => exact H
  end.

Lemma registry_NamedTempFile_create suffix directory :
  avoids registry_call (NamedTempFile.create suffix directory) /\
  forall L, preserves (fun g => _PROC_LIST g = L) (NamedTempFile.create suffix directory).
Proof.
  split; [|intros L]; unfold NamedTempFile.create; [avoid|preserve; list_kept].
Qed.

Lemma registry_NamedTempFile_delete name :
  avoids registry_call (NamedTempFile.delete name) /\
  forall L, preserves (fun g => _PROC_LIST g = L) (NamedTempFile.delete name).
Proof.
  split; [|intros L]; unfold NamedTempFile.delete; [avoid|preserve; list_kept].
Qed.

Lemma registry_kill_process (p : proc) (kill_children : bool) :
  avoids registry_call (kill_process (S:=globals) p kill_children) /\
  forall L, preserves (fun g => _PROC_LIST g = L) (kill_process p kill_children).
Proof.
  split; [|intros L; apply preserves_kill_process]. unfold kill_process. avoid.
Qed.

Lemma registry_resmoke_client_waiting pc wd mp hp js suite n lf :
  avoids registry_call (resmoke_client pc wd mp hp js suite n false lf) /\
  forall L, preserves (fun g => _PROC_LIST g = L)
              (resmoke_client pc wd mp hp js suite n false lf).
Proof.
  split; [|intros L]; unfold resmoke_client; cbv zeta; cbn iota; [avoid|preserve].
Qed.

Section Registry.

Variable e : main_env.
Variable before : list proc.

Ltac quiet_part lem :=
  apply lem;
  [ avoid;
    try first [ apply registry_NamedTempFile_create | apply registry_NamedTempFile_delete
              | apply registry_kill_process | apply registry_resmoke_client_waiting ]
  | intros L; preserve;
    try first [ list_kept
              | apply registry_NamedTempFile_create | apply registry_NamedTempFile_delete
              | apply registry_kill_process | apply registry_resmoke_client_waiting ]
  | assumption ].

Lemma registered_start_on_secret_port st s tr :
  clients_registered before tr s ->
  wp (start_on_secret_port e st) s tr (when_done (clients_registered before)).
Proof.
  intros HJ. unfold start_on_secret_port, dispatch, call_remote_operation, setup_ssh_tunnel.
  quiet_part (@wp_clients_registered (string * proc)).
Qed.

Lemma registered_validate_and_shutdown st s tr :
  clients_registered before tr s ->
  wp (validate_and_shutdown e st) s tr (when_done (clients_registered before)).
Proof.
  intros HJ. unfold validate_and_shutdown, dispatch, call_remote_operation,
    mongo_validate_canary.
  quiet_part (@wp_clients_registered (list string)).
Qed.

Lemma registered_start_on_standard_port st s tr :
  clients_registered before tr s ->
  wp (start_on_standard_port e st) s tr (when_done (clients_registered before)).
Proof.
  intros HJ. unfold start_on_standard_port, dispatch, call_remote_operation.
  quiet_part (@wp_clients_registered (string * boot_time)).
Qed.

Lemma registered_crash st s tr :
  clients_registered before tr s ->
  wp (crash e st) s tr (when_done (clients_registered before)).
Proof.
  intros HJ. unfold crash, crash_server_or_kill_mongod, mongo_insert_canary.
  quiet_part (@wp_clients_registered document).
Qed.

Lemma registered_Processes_create cmds s tr :
  clients_registered before tr s ->
  wp (Processes.create cmds) s tr (when_done (clients_registered before)).
Proof.
  intros [H1 H2]. unfold Processes.create. wp_step. wp_step. wp_step.
  split; cbn [set_PROC_LIST _PROC_LIST].
  - rewrite client_procs_app, H1, <- app_assoc. reflexivity.
  - rewrite waited_app, H2. reflexivity.
Qed.

Lemma registered_client (config : string -> prog globals unit) wd mp hp js n lf s tr :
  (forall name,
      avoids registry_call (config name) /\
      forall L, preserves (fun g => _PROC_LIST g = L) (config name)) ->
  clients_registered before tr s ->
  wp (config_file ← NamedTempFile.create ".yml" "tmp";
      config config_file;;
      _ ← resmoke_client (pc e) wd mp hp js config_file n true lf;
      Ret tt) s tr (when_done (clients_registered before)).
Proof.
  intros Hc HJ.
  apply (wp_when_done_bind (clients_registered before) (clients_registered before)).
  { apply wp_clients_registered; [apply registry_NamedTempFile_create..|assumption]. }
  intros name tr1 s1 HJ1.
  apply (wp_when_done_bind (clients_registered before) (clients_registered before)).
  { apply wp_clients_registered; [apply Hc..|assumption]. }
  intros _ tr2 s2 HJ2.
  apply (wp_when_done_bind (clients_registered before) (clients_registered before)).
  { unfold resmoke_client. cbv zeta. cbn iota.
    apply (wp_when_done_bind (clients_registered before) (clients_registered before)).
    - now apply registered_Processes_create.
    - intros _ tr3 s3 HJ3. exact HJ3. }
  intros _ tr3 s3 HJ3. exact HJ3.
Qed.

Lemma registered_start_clients s tr :
  clients_registered before tr s ->
  wp (start_clients e) s tr (when_done (clients_registered before)).
Proof.
  intros HJ. unfold start_clients.
  apply (wp_when_done_bind (clients_registered before) (clients_registered before)).
  { apply wp_for_each_when_done; [|assumption]. intros i tr1 s1 HJ1.
    apply (registered_client
             (fun name => trigger (NewResmokeConfig (CONFIG_CRUD_CLIENT (pc e)) name
                                     (<[ "collectionName" :=
                                           TStr (COLLECTION_NAME (pc e) +:+ "-" +:+ str i) ]>
                                        (crud_test_data e)) (eval_str e))));
      [|assumption].
    intros name. split; [avoid|intros L; preserve]. }
  intros _ tr1 s1 HJ1.
  apply (wp_when_done_bind (clients_registered before) (clients_registered before)).
  { apply wp_clients_registered; [avoid|intros L; preserve|assumption]. }
  intros _ tr2 s2 HJ2.
  apply (wp_when_done_bind (clients_registered before) (clients_registered before)).
  { apply wp_for_each_when_done; [|assumption]. intros i tr3 s3 HJ3.
    apply (registered_client
             (fun name => trigger (NewResmokeConfig (CONFIG_CRUD_CLIENT (pc e)) name
                                     (<[ "validateCollections" := TBool (i =? 0) ]>
                                        (<[ "dbNamePrefix" := TStr ("fsm-" +:+ str i) ]>
                                           (fsm_test_data e))) (eval_str e))));
      [|assumption].
    intros name. split; [avoid|intros L; preserve]. }
  intros _ tr3 s3 HJ3.
  apply wp_clients_registered; [avoid|intros L; preserve|assumption].
Qed.

Lemma avoids_start_Processes_kill_all : avoids start_cmd_call Processes.kill_all.
Proof. unfold Processes.kill_all, Processes.kill, kill_processes, kill_process. avoid. Qed.

Lemma none_started ext : none_of start_cmd_call ext = true -> client_procs ext = [].
Proof.
  induction ext as [|[X c x] ext IH]; [auto|].
  cbn [none_of forallb ev_call ev_type]. intros [Hc Ht]%andb_true_iff.
  destruct c; try discriminate; cbn [client_procs flat_map ev_call ev_answer app];
    now apply IH.
Qed.

Lemma gone_kill_clients files tunnel s tr :
  clients_registered before tr s ->
  wp (kill_clients files tunnel) s tr (when_done (clients_gone before)).
Proof.
  intros [H1 H2]. unfold kill_clients.
  apply (wp_when_done_bind (clients_gone before) (clients_gone before)).
  { eapply wp_weaken;
      [|apply (wp_conj _ _ _ _ _ (Processes_kill_all_spec s tr)
                 (wp_avoids start_cmd_call Processes.kill_all s tr
                    avoids_start_Processes_kill_all))].
    intros tr' s' r [(-> & -> & ext & -> & Hw) (ext' & E & Hn)].
    apply app_inv_head in E. subst ext'. cbn [when_done]. split; [reflexivity|].
    rewrite waited_app, client_procs_app, H2, Hw, H1, (none_started ext Hn), app_nil_r.
    reflexivity. }
  intros _ tr1 s1 HJ1.
  apply (wp_when_done_bind (clients_gone before) (clients_gone before)).
  { quiet_part (@wp_clients_gone unit). }
  intros _ tr2 s2 HJ2.
  apply (wp_when_done_bind (clients_gone before) (clients_gone before)).
  { apply wp_clients_gone; [apply registry_kill_process..|assumption]. }
  intros _ tr3 s3 HJ3. exact HJ3.
Qed.

Lemma gone_recover_and_crash st s tr :
  clients_registered before tr s ->
  wp (recover_and_crash e st) s tr (when_done (clients_gone before)).
Proof.
  intros HJ. unfold recover_and_crash.
  apply (wp_when_done_bind (clients_registered before) (clients_gone before));
    [now apply registered_start_on_secret_port|].
  intros [backup_path_before tunnel] tr1 s1 HJ1.
  apply (wp_when_done_bind (clients_registered before) (clients_gone before));
    [now apply registered_validate_and_shutdown|].
  intros files tr2 s2 HJ2.
  apply (wp_when_done_bind (clients_registered before) (clients_gone before));
    [now apply registered_start_on_standard_port|].
  intros [backup_path_after boot] tr3 s3 HJ3.
  apply (wp_when_done_bind (clients_registered before) (clients_gone before));
    [now apply registered_start_clients|].
  intros _ tr4 s4 HJ4.
  apply (wp_when_done_bind (clients_registered before) (clients_gone before));
    [now apply registered_crash|].
  intros doc tr5 s5 HJ5.
  apply (wp_when_done_bind (clients_gone before) (clients_gone before));
    [now apply gone_kill_clients|].
  intros _ tr6 s6 HJ6. exact HJ6.
Qed.

Lemma gone_main_loop_body st s tr :
  clients_registered before tr s ->
  wp (main_loop_body e st) s tr (when_done (clients_gone before)).
Proof.
  intros HJ. unfold main_loop_body. cbv zeta.
  apply (wp_when_done_bind (clients_gone before) (clients_gone before));
    [now apply gone_recover_and_crash|].
  intros [[[backup_path_before backup_path_after] boot] doc] tr1 s1 HJ1.
  unfold reconnect, verify_remote_access, dispatch, call_remote_operation, check_boot_time.
  quiet_part (@wp_clients_gone loop_state).
Qed.

End Registry.

(** X25: When a turn of the loop of [main] completes, the registry of client
    processes is empty, and the processes waited for in the turn are those
    that were registered when it began followed by every client it started,
    in that order. *)
Theorem every_client_is_killed_before_a_turn_ends :
  forall W (h : handler W) (e : main_env) (st : loop_state) (s : globals) (w : W),
    let o := run h (main_loop_body e st) s w in
    match res o with
    | Ok _ =>
        _PROC_LIST (final o) = [] /\
        waited (trace o) = _PROC_LIST s ++ client_procs (trace o)
    | _ => True
    end.
Proof.
  intros W h e st s w o. subst o.
  apply (wp_run h _ s w (when_done (clients_gone (_PROC_LIST s)))).
  apply gone_main_loop_body. split; [now rewrite app_nil_r|reflexivity].
Qed.

(** ** [rsync] *)

Lemma rsync_attempts_spec {St} (attempts : list Z) (max_attempts : Z) (rsync_cmd : string) :
  forall (last : option (Z * string)) (s : St) tr,
    wp (rsync_attempts attempts max_attempts rsync_cmd last) s tr
      (fun tr' s' r =>
         s' = s /\
         exists failed ext,
           tr' = tr ++ ext /\
           Forall (fun round => rsync_tried_again round.1 = true) failed /\
           ((length failed = length attempts /\
             executed ext = rsync_rounds rsync_cmd failed /\
             r = match List.last (map (fun round => Some round.1) failed) last with
                 | Some answer => Ok answer
                 | None => Raised (UnboundLocalError "ret")
                 end)
            \/ (length failed < length attempts)%nat /\
               exists answer,
                 rsync_tried_again answer = false /\
                 executed ext = rsync_rounds rsync_cmd failed ++ [(rsync_cmd, false, answer)] /\
                 r = Ok answer)).
Proof.
  induction attempts as [|attempt attempts IH]; intros last s tr.
  - cbn [rsync_attempts]. destruct last as [[ret rsync_output]|]; cbn [wp];
      (split; [reflexivity|]); exists [], []; rewrite app_nil_r;
      (split; [reflexivity|]); (split; [constructor|]); left; auto.
  - cbn [rsync_attempts]. wp_step. wp_step. destruct x as [ret rsync_output].
    destruct ((ret =? 0) || negb (contains "No medium found" rsync_output)) eqn:Hbreak.
    + wp_step. split; [reflexivity|]. exists [], [Ev (ExecuteCmd rsync_cmd false) (ret, rsync_output)].
      split; [reflexivity|]. split; [constructor|]. right. split; [cbn [length]; lia|].
      exists (ret, rsync_output). unfold rsync_tried_again. cbn [fst snd]. rewrite Hbreak. auto.
    + wp_step. wp_step. cbv zeta. wp_step. wp_step. destruct x as [diag_ret diag_output].
      wp_step. wp_step.
      eapply wp_weaken; [|apply IH].
      intros tr' s' r (-> & failed & ext & -> & Hfailed & H). split; [reflexivity|].
      exists (((ret, rsync_output), (diag_ret, diag_output)) :: failed).
      eexists. rewrite <- !app_assoc. split; [reflexivity|].
      split; [constructor; [unfold rsync_tried_again; cbn [fst snd]; now rewrite Hbreak|assumption]|].
      cbn [app]. rewrite ?executed_app.
      cbn [executed flat_map ev_call ev_answer app rsync_rounds fst snd length].
      fold (executed ext). fold (rsync_rounds rsync_cmd failed).
      destruct H as [(Hlen & Hex & Hr)|(Hlen & answer & Ha & Hex & Hr)].
      * left. split; [now rewrite Hlen|]. split; [now rewrite Hex|].
        rewrite Hr. cbn [map fst].
        destruct failed as [|round failed]; [reflexivity|].
        cbn [map]. change (List.last (?x :: ?y :: ?l) ?d) with (List.last (y :: l) d).
        now rewrite (last_default _ _ last (Some (ret, rsync_output))).
      * right. split; [lia|]. exists answer. rewrite Hex. auto.
Qed.

(** X26: Once [rsync] has found the executable it runs the rsync command up
    to five times.  It tries again only after an attempt that failed with No
    medium found in its output, and each such attempt, the fifth included,
    is followed by one run of the diagnostic command.  The result is that of
    the last attempt. *)
Theorem rsync_gives_up_after_five_attempts :
  forall W (h : handler W) St (exclude_options src_dir dest_dir : string) (s : St) (w : W),
    let o := run h (rsync_with_retries exclude_options src_dir dest_dir) s w in
    let rsync_cmd := rsync_command exclude_options src_dir dest_dir in
    final o = s /\
    exists failed,
      Forall (fun round => rsync_tried_again round.1 = true) failed /\
      ((length failed = 5%nat /\
        executed (trace o) = rsync_rounds rsync_cmd failed /\
        res o = Ok (List.last (map fst failed) (0, EmptyString)))
       \/ (length failed < 5)%nat /\
          exists answer,
            rsync_tried_again answer = false /\
            executed (trace o) = rsync_rounds rsync_cmd failed ++ [(rsync_cmd, false, answer)] /\
            res o = Ok answer).
Proof.
  intros W h St exclude_options src_dir dest_dir s w o rsync_cmd. subst o.
  unfold rsync_with_retries. cbv zeta. fold rsync_cmd.
  destruct (wp_run h _ s w _
              (rsync_attempts_spec (seqZ 1 5) 5 rsync_cmd None s []))
    as (Hs & failed & ext & Hext & Hfailed & H).
  split; [exact Hs|]. exists failed. split; [exact Hfailed|].
  cbn [app] in Hext. rewrite Hext.
  destruct H as [(Hlen & Hex & Hr)|(Hlen & answer & Ha & Hex & Hr)].
  - left. split; [exact Hlen|]. split; [exact Hex|]. rewrite Hr.
    destruct failed as [|round failed]; [discriminate|].
    clear. revert round. induction failed as [|r2 failed IH]; intros round; [reflexivity|].
    cbn [map List.last] in *. apply IH.
  - right. split; [exact Hlen|]. eauto.
Qed.

(** The five attempts at an example: an rsync that fails with the error
    of cygwin each time. *)
Lemma rsync_gives_up_example :
  let o := run simulate
             (rsync_with_retries (St:=unit) EmptyString "/data/db" "/data/mci/beforerecovery-1")
             tt (new_sim no_medium_found) in
  res o = Ok (23, "rsync: mkdir failed: No medium found (135)") /\
  length (executed (trace o)) = 10%nat.
Proof. vm_compute. split; reflexivity. Qed.
(** ** The options of mongod *)

Lemma prefix_dash (opt : string) :
  String.prefix "-" opt = true -> exists rest, opt = String "-"%char rest.
Proof.
  destruct opt as [|c rest]; [discriminate|]. cbn [String.prefix].
  destruct (ascii_dec "-" c) as [<-|]; [eauto|discriminate].
Qed.

Lemma prefix_nil (s : string) : String.prefix EmptyString s = true.
Proof. now destruct s. Qed.

Lemma prefix_dash_cons (rest : string) : String.prefix "-" (String "-" rest) = true.
Proof. cbn. apply prefix_nil. Qed.

Lemma parse_option_dash options_map vars :
  parse_option "-" options_map vars = inl (IndexError "string index out of range").
Proof. reflexivity. Qed.

Lemma parse_option_option (opt : string) options_map vars :
  String.prefix "-" opt = true -> opt <> "-" ->
  exists options_map' opt_name opt_form,
    parse_option opt options_map vars = inr (options_map', Assigned opt_name opt_form).
Proof.
  intros [rest ->]%prefix_dash Hne. unfold parse_option. rewrite prefix_dash_cons.
  destruct rest as [|c rest]; [congruence|]. cbn [String.get].
  cbv zeta. destruct (String.index 0 "=" _); eauto.
Qed.

Lemma parse_option_value (opt : string) options_map opt_name opt_form :
  String.prefix "-" opt = false ->
  exists options_map',
    parse_option opt options_map (Assigned opt_name opt_form)
    = inr (options_map', Assigned opt_name opt_form).
Proof.
  intros H. unfold parse_option. rewrite H.
  destruct opt_name as [n|]; [destruct (String.eqb n EmptyString)|]; eauto.
Qed.

Lemma parse_tokens_assigned (opts : list string) : forall options_map opt_name opt_form,
  match parse_tokens opts options_map (Assigned opt_name opt_form) with
  | inl exn => exn = IndexError "string index out of range" /\ In "-" opts
  | inr _ => ~ In "-" opts
  end.
Proof.
  induction opts as [|opt opts IH]; intros options_map opt_name opt_form; cbn [parse_tokens].
  - intros [].
  - destruct (String.prefix "-" opt) eqn:Hp.
    + destruct (String.string_dec opt "-") as [->|Hne].
      * rewrite parse_option_dash. split; [reflexivity|now left].
      * destruct (parse_option_option opt options_map (Assigned opt_name opt_form) Hp Hne)
          as (m' & n' & f' & ->).
        specialize (IH m' n' f').
        destruct (parse_tokens opts m' (Assigned n' f')) as [exn|m''].
        -- destruct IH. split; [assumption|now right].
        -- intros [E|Hin]; [congruence|auto].
    + destruct (parse_option_value opt options_map opt_name opt_form Hp) as (m' & ->).
      specialize (IH m' opt_name opt_form).
      destruct (parse_tokens opts m' (Assigned opt_name opt_form)) as [exn|m''].
      * destruct IH. split; [assumption|now right].
      * intros [E|Hin]; [subst opt; discriminate|auto].
Qed.

(** X27: [parse_options] fails in three ways only.  An exception of
    [shlex.split] (a ValueError, for a quotation that is not closed or an
    escape character with nothing after it) passes through unchanged.  When
    the string has been split, a first token that does not start with a dash
    raises UnboundLocalError ([opt_name] is read before it is assigned);
    otherwise a token that is a lone dash raises IndexError.  With none of
    these, it returns a dict. *)
Theorem parse_options_errors :
  forall (shlex_split : string -> py_exn + list string) (options : string),
    match shlex_split options, parse_options shlex_split options with
    | inl exn, result => result = inl exn
    | inr opts, inl exn =>
        (exn = IndexError "string index out of range" /\ In "-" opts /\
         exists opt rest, opts = opt :: rest /\ String.prefix "-" opt = true) \/
        (exn = UnboundLocalError "opt_name" /\
         exists opt rest, opts = opt :: rest /\ String.prefix "-" opt = false)
    | inr opts, inr options_map =>
        ~ In "-" opts /\
        (opts = [] \/ exists opt rest, opts = opt :: rest /\ String.prefix "-" opt = true)
    end.
Proof.
  intros shlex_split options. unfold parse_options. cbv zeta.
  destruct (shlex_split options) as [exn|opts]; [reflexivity|].
  destruct opts as [|opt rest]; cbn [parse_tokens].
  - split; [intros []|now left].
  - destruct (String.prefix "-" opt) eqn:Hp.
    + destruct (String.string_dec opt "-") as [->|Hne].
      * rewrite parse_option_dash. left. split; [reflexivity|]. split; [now left|eauto].
      * destruct (parse_option_option opt [] Unassigned Hp Hne) as (m' & n' & f' & ->).
        pose proof (parse_tokens_assigned rest m' n' f') as H.
        destruct (parse_tokens rest m' (Assigned n' f')) as [exn|m''].
        -- destruct H. left. split; [assumption|]. split; [now right|eauto].
        -- split; [|right; eauto]. intros [E|Hin]; [congruence|auto].
    + unfold parse_option. rewrite Hp. right. split; [reflexivity|eauto].
Qed.

Lemma dict_get_set_same k v d : dict_get k (dict_set k v d) = Some v.
Proof.
  induction d as [|[k' v'] d IH]; cbn [dict_set dict_get].
  - now rewrite String.eqb_refl.
  - destruct (String.eqb k k') eqn:E; cbn [dict_get]; rewrite ?String.eqb_refl, ?E; auto.
Qed.

Lemma dict_get_set_other k k' v d : k <> k' -> dict_get k' (dict_set k v d) = dict_get k' d.
Proof.
  intros Hne. induction d as [|[k0 v0] d IH]; cbn [dict_set dict_get].
  - now rewrite (proj2 (String.eqb_neq k' k)) by congruence.
  - destruct (String.eqb_spec k k0) as [<-|Hk]; cbn [dict_get].
    + now rewrite (proj2 (String.eqb_neq k' k)) by congruence.
    + now rewrite IH.
Qed.

Lemma In_keys_dict_set x k v d :
  In x (map fst (dict_set k v d)) <-> x = k \/ In x (map fst d).
Proof.
  induction d as [|[k' v'] d IH]; cbn [dict_set map fst In].
  - intuition congruence.
  - destruct (String.eqb_spec k k') as [<-|Hk]; cbn [map fst In]; [|rewrite IH];
      intuition congruence.
Qed.

Lemma NoDup_keys_dict_set k v d :
  List.NoDup (map fst d) -> List.NoDup (map fst (dict_set k v d)).
Proof.
  induction d as [|[k' v'] d IH]; cbn [dict_set map fst]; intros H.
  - constructor; [intros []|constructor].
  - apply List.NoDup_cons_iff in H as [Hin Hd].
    destruct (String.eqb_spec k k') as [<-|Hk]; cbn [map fst].
    + now constructor.
    + constructor; [|auto]. rewrite In_keys_dict_set. intuition congruence.
Qed.

Lemma parse_option_keys opt d vars d' vars' :
  parse_option opt d vars = inr (d', vars') ->
  List.NoDup (map fst d) -> List.NoDup (map fst d').
Proof.
  unfold parse_option. intros H Hd.
  repeat match type of H with
         | context [if ?b then _ else _] => destruct b
         | context [match ?x with _ => _ end] => destruct x
         end;
    try discriminate; injection H as <- <-; auto using NoDup_keys_dict_set.
Qed.

Lemma parse_tokens_keys opts : forall d vars d',
  parse_tokens opts d vars = inr d' -> List.NoDup (map fst d) -> List.NoDup (map fst d').
Proof.
  induction opts as [|opt opts IH]; intros d vars d'; cbn [parse_tokens].
  - now intros [= <-].
  - destruct (parse_option opt d vars) as [exn|[d1 vars1]] eqn:E; [discriminate|].
    intros H Hd. eapply IH; [exact H|]. eapply parse_option_keys; eauto.
Qed.

(** X28: [MongodControl] fails exactly when [parse_options] fails on its
    options.  Otherwise its options name each option once; dbpath, logpath,
    logappend, port, bind_ip and fork (service on Windows) carry the values
    it sets itself, whatever the options said about them, and every other
    option is as [parse_options] read it. *)
Theorem MongodControl_forces_its_options :
  forall (shlex_split : string -> py_exn + list string) (IS_WINDOWS : bool)
         (db_path log_path : string) (port : Z) (options : string),
    match parse_options shlex_split options,
          MongodControl.options_map shlex_split IS_WINDOWS db_path log_path port options with
    | inr parsed, inr options_map =>
        List.NoDup (map fst options_map) /\
        dict_get "dbpath" options_map = Some (VStr db_path, "--") /\
        dict_get "logpath" options_map = Some (VStr log_path, "--") /\
        dict_get "logappend" options_map = Some (VNone, "--") /\
        dict_get "port" options_map = Some (VInt port, "--") /\
        dict_get "bind_ip" options_map = Some (VStr "0.0.0.0", "--") /\
        dict_get (if IS_WINDOWS then "service" else "fork") options_map = Some (VNone, "--") /\
        forall name,
          ~ In name (forced_options IS_WINDOWS) ->
          dict_get name options_map = dict_get name parsed
    | inl exn, inl exn' => exn = exn'
    | _, _ => False
    end.
Proof.
  intros shlex_split IS_WINDOWS db_path log_path port options.
  unfold MongodControl.options_map.
  destruct (parse_options shlex_split options) as [exn|parsed] eqn:E; [reflexivity|].
  cbv zeta. unfold MongodControl.set_mongod_option.
  assert (Hd : List.NoDup (map fst parsed)).
  { unfold parse_options in E. destruct (shlex_split options) as [exn|opts]; [discriminate|].
    eapply parse_tokens_keys; [exact E|constructor]. }
  destruct IS_WINDOWS.
  all: split; [auto 10 using NoDup_keys_dict_set|].
  all: repeat split.
  all: try (rewrite ?dict_get_set_same;
            repeat (rewrite dict_get_set_other by discriminate;
                    rewrite ?dict_get_set_same);
            reflexivity).
  all: intros name Hname; unfold forced_options in Hname; cbn [In] in Hname;
    rewrite !dict_get_set_other by (intuition congruence); reflexivity.
Qed.

(** *** What is written is read back *)

Lemma substring_0_0 (s : string) : String.substring 0 0 s = EmptyString.
Proof. now destruct s. Qed.

Lemma contains_index (k : string) :
  contains "=" k = false -> String.index 0 "=" k = None.
Proof.
  induction k as [|c k IH]; [reflexivity|].
  cbn [contains String.index]. intros [Hp Hk]%orb_false_iff.
  rewrite Hp, (IH Hk). reflexivity.
Qed.

Lemma index_after_dash (s : string) :
  String.index 0 "=" (String "-" s)
  = match String.index 0 "=" s with Some n => Some (S n) | None => None end.
Proof. reflexivity. Qed.

Lemma dict_set_fresh k v d : ~ In k (map fst d) -> dict_set k v d = d ++ [(k, v)].
Proof.
  induction d as [|[k' v'] d IH]; cbn [dict_set map fst In app]; intros H; [reflexivity|].
  destruct (String.eqb_spec k k') as [->|Hk]; [tauto|]. rewrite IH by tauto. reflexivity.
Qed.

Lemma dict_set_last k v v' d :
  ~ In k (map fst d) -> dict_set k v' (d ++ [(k, v)]) = d ++ [(k, v')].
Proof.
  induction d as [|[k0 v0] d IH]; cbn [dict_set map fst In app]; intros H.
  - now rewrite String.eqb_refl.
  - destruct (String.eqb_spec k k0) as [->|Hk]; [tauto|]. rewrite IH by tauto. reflexivity.
Qed.

Lemma parse_option_written_name (f k : string) d vars :
  (String.eqb f "--" || (String.eqb f "-" && negb (String.prefix "-" k))) = true ->
  k <> EmptyString -> contains "=" k = false ->
  parse_option (f +:+ k) d vars = inr (dict_set k (VNone, f) d, Assigned (Some k) f).
Proof.
  intros Hf Hk He. pose proof (contains_index k He) as Hi.
  apply orb_true_iff in Hf as [->%String.eqb_eq|[->%String.eqb_eq Hp]%andb_true_iff].
  - unfold parse_option. change ("--" +:+ k) with (String "-" (String "-" k)).
    rewrite prefix_dash_cons. cbn [String.get Ascii.eqb Bool.eqb]. cbv zeta. cbn match.
    rewrite !index_after_dash, Hi.
    cbn [String.substring string_from]. rewrite ?substring_0_0. reflexivity.
  - destruct k as [|c k]; [congruence|].
    unfold parse_option. change ("-" +:+ String c k) with (String "-" (String c k)).
    rewrite prefix_dash_cons. cbn [String.get]. cbv zeta.
    assert (Hc : Ascii.eqb c "-" = false).
    { apply Ascii.eqb_neq. intros ->. rewrite prefix_dash_cons in Hp. discriminate. }
    rewrite Hc, index_after_dash, Hi.
    cbn [String.substring string_from]. rewrite ?substring_0_0. reflexivity.
Qed.

Lemma parse_option_written_value (s k f : string) d :
  String.prefix "-" s = false -> k <> EmptyString ->
  parse_option s d (Assigned (Some k) f)
  = inr (dict_set k (VStr s, f) d, Assigned (Some k) f).
Proof.
  intros Hs Hk. unfold parse_option. rewrite Hs.
  now rewrite (proj2 (String.eqb_neq k EmptyString) Hk).
Qed.

Lemma parse_tokens_written (written : options_dict) : forall d vars,
  forallb plain_entry written = true ->
  List.NoDup (map fst (d ++ written)) ->
  parse_tokens (option_tokens written) d vars = inr (d ++ written).
Proof.
  induction written as [|[k [v f]] written IH]; intros d vars Hplain Hd.
  - now rewrite app_nil_r.
  - cbn [forallb plain_entry] in Hplain.
    apply andb_true_iff in Hplain as [Hentry Hplain].
    apply andb_true_iff in Hentry as [Hentry Hv].
    apply andb_true_iff in Hentry as [Hentry He].
    apply andb_true_iff in Hentry as [Hf Hk].
    apply negb_true_iff in He. apply negb_true_iff, String.eqb_neq in Hk.
    assert (Hfresh : ~ In k (map fst d)).
    { rewrite map_app in Hd. cbn [map fst] in Hd. apply NoDup_remove_2 in Hd.
      intros Hin. apply Hd, in_or_app. now left. }
    assert (Hd' : forall v', List.NoDup (map fst ((d ++ [(k, (v', f))]) ++ written))).
    { intros v'. rewrite <- app_assoc. cbn [app].
      rewrite map_app in Hd |- *. exact Hd. }
    cbn [option_tokens flat_map]. fold (option_tokens written).
    destruct v as [|s|n]; [| |discriminate].
    + cbn [opt_truthy app parse_tokens].
      rewrite (parse_option_written_name f k d vars Hf Hk He), dict_set_fresh by assumption.
      rewrite IH by auto. now rewrite <- app_assoc.
    + apply andb_true_iff in Hv as [Hs Hdash].
      cbn [opt_truthy]. rewrite Hs. cbn [opt_format app parse_tokens].
      apply negb_true_iff in Hdash.
      rewrite (parse_option_written_name f k d vars Hf Hk He), dict_set_fresh by assumption.
      rewrite (parse_option_written_value s k f _ Hdash Hk), dict_set_last by assumption.
      rewrite IH by auto. now rewrite <- app_assoc.
Qed.

Lemma mongod_options_from (options_map : options_dict) : forall opt_string,
  fold_left (fun opt_string '(opt_name, (opt_val, opt_form)) =>
               let opt_string := opt_string +:+ " " +:+ opt_form +:+ opt_name in
               if opt_truthy opt_val then opt_string +:+ " " +:+ opt_format opt_val
               else opt_string)
    options_map opt_string
  = opt_string +:+ spaced (option_tokens options_map).
Proof.
  induction options_map as [|[k [v f]] m IH]; intros acc; cbn [fold_left].
  - cbn. now rewrite append_nil_r.
  - rewrite IH. cbn [option_tokens flat_map]. fold (option_tokens m).
    destruct (opt_truthy v); cbn [app spaced fold_right]; fold (spaced (option_tokens m));
      rewrite !append_assoc; reflexivity.
Qed.

(** X29: [mongod_options()] writes each option as a blank, the form and the
    name, followed by a blank and the value when there is one.  For a dict
    of plain entries with distinct names, [parse_options] reads the written
    string back to the same dict, provided [shlex.split] splits it into the
    tokens that were written. *)
Theorem parse_options_reads_back_mongod_options :
  forall (shlex_split : string -> py_exn + list string) (options_map : options_dict),
    forallb plain_entry options_map = true ->
    List.NoDup (map fst options_map) ->
    shlex_split (MongodControl.mongod_options options_map)
    = inr (option_tokens options_map) ->
    MongodControl.mongod_options options_map = spaced (option_tokens options_map) /\
    parse_options shlex_split (MongodControl.mongod_options options_map) = inr options_map.
Proof.
  intros shlex_split options_map Hplain Hd Hsplit. split.
  - unfold MongodControl.mongod_options. now rewrite mongod_options_from.
  - unfold parse_options. cbv zeta. rewrite Hsplit.
    now rewrite (parse_tokens_written options_map [] Unassigned Hplain Hd).
Qed.

(** X29 at an example: the options of a test task, split at the blanks. *)
Lemma parse_options_reads_back_mongod_options_witness :
  MongodControl.mongod_options example_options
  = " --storageEngine wiredTiger --nojournal -v" /\
  parse_options split_words " --storageEngine wiredTiger --nojournal -v"
  = inr example_options.
Proof.
  assert (Hd : List.NoDup (map fst example_options)).
  { repeat (constructor; [cbn; intuition discriminate|]). constructor. }
  destruct (parse_options_reads_back_mongod_options split_words example_options eq_refl Hd
              eq_refl)
    as [H1 H2].
  split; [exact H1|exact H2].
Defined.

(** ** [get_user_host] *)

Lemma contains_at_cons (c : ascii) (s : string) :
  contains "@" (String c s) = Ascii.eqb c "@" || contains "@" s.
Proof.
  cbn [contains String.prefix].
  destruct (ascii_dec "@" c) as [<-|Hne].
  - now rewrite prefix_nil.
  - rewrite (proj2 (Ascii.eqb_neq c "@")) by congruence. reflexivity.
Qed.

Lemma split_on_spec (s : string) :
  exists first rest,
    split_on "@" s = first :: rest /\
    s = join_with "@" (first :: rest) /\
    Forall (fun part => contains "@" part = false) (first :: rest) /\
    (contains "@" s = true -> rest <> []).
Proof.
  induction s as [|c s (first & rest & Hsplit & Hjoin & Hparts & Hat)].
  - exists EmptyString, []. repeat split; auto; discriminate.
  - cbn [split_on]. rewrite contains_at_cons.
    destruct (Ascii.eqb_spec c "@") as [->|Hc].
    + exists EmptyString, (split_on "@" s). rewrite Hsplit.
      split; [reflexivity|]. split; [|split; [auto|discriminate]].
      change (join_with "@" ("" :: first :: rest)) with ("@" +:+ join_with "@" (first :: rest)).
      now rewrite <- Hjoin.
    + rewrite Hsplit. exists (String c first), rest. split; [reflexivity|].
      apply Forall_cons in Hparts as [Hfirst Hrest].
      repeat split.
      * destruct rest as [|second rest]; cbn [join_with] in *; [congruence|].
        rewrite Hjoin. reflexivity.
      * constructor; [|assumption].
        rewrite contains_at_cons, Hfirst.
        now rewrite (proj2 (Ascii.eqb_neq c "@")) by congruence.
      * cbn [orb]. exact Hat.
Qed.

(** X30: [_, ssh_host = get_user_host(ssh_user_host)]: without an at sign
    the host is the whole string; with exactly one it is the part after it,
    and user, at sign and host make up the string; with two or more the
    unpacking raises ValueError (too many values to unpack). *)
Theorem ssh_host_of_user_host :
  forall ssh_user_host : string,
    match ssh_host_of ssh_user_host with
    | inr ssh_host =>
        exists host,
          ssh_host = Some host /\ contains "@" host = false /\
          if contains "@" ssh_user_host
          then exists user, contains "@" user = false /\
                            ssh_user_host = user +:+ "@" +:+ host
          else ssh_user_host = host
    | inl exn =>
        exn = ValueError "too many values to unpack (expected 2)" /\
        exists user host more,
          ssh_user_host = user +:+ "@" +:+ host +:+ "@" +:+ more
    end.
Proof.
  intros s. unfold ssh_host_of, get_user_host.
  destruct (split_on_spec s) as (first & rest & Hsplit & Hjoin & Hparts & Hat).
  destruct (contains "@" s) eqn:Hs.
  - rewrite Hsplit. specialize (Hat eq_refl).
    destruct rest as [|second rest]; [congruence|].
    apply Forall_cons in Hparts as [Hfirst Hrest].
    apply Forall_cons in Hrest as [Hsecond Hrest].
    destruct rest as [|third rest]; cbn [map].
    + exists second. repeat split; auto. exists first. split; [assumption|exact Hjoin].
    + split; [reflexivity|]. exists first, second, (join_with "@" (third :: rest)).
      exact Hjoin.
  - cbn. exists s. auto.
Qed.
(** ** The first batch of a turn, in full *)

Lemma shell_commands_app tr1 tr2 :
  shell_commands (tr1 ++ tr2) = shell_commands tr1 ++ shell_commands tr2.
Proof. apply flat_map_app. Qed.

Lemma start_operations_cases (tc : task_config) (n : Z) :
  start_operations (set_fcv_cmd tc) n =
  if n =? 1 then
    match fcv tc with
    | Some _ => " rsync_data start_mongod set_fcv seed_docs"
    | None => " rsync_data start_mongod  seed_docs"
    end
  else " rsync_data start_mongod  ".
Proof.
  unfold start_operations, set_fcv_cmd. destruct (n =? 1); destruct (fcv tc); reflexivity.
Qed.

(** C9, as the code has it: a turn sends one command through the remote
    channel before it opens the tunnel, the first batch.  It names the
    secret port, and its operations are [rsync_data] and [start_mongod],
    followed on loop 1 by [set_fcv], when the task configuration gives a
    compatibility version, and [seed_docs]; on every later loop by
    nothing. *)
Theorem start_batch_operations :
  forall W (h : handler W) (e : main_env) (st : loop_state) (s : globals) (w : W),
    let n := loop_num st + 1 in
    let o := run h (start_on_secret_port e st) s w in
    let batch :=
      if n =? 1 then
        match fcv (tc e) with
        | Some _ => " rsync_data start_mongod set_fcv seed_docs"
        | None => " rsync_data start_mongod  seed_docs"
        end
      else " rsync_data start_mongod  " in
    shell_commands (trace o)
    = [ remote_python e +:+ " " +:+ script_name e +:+ " " +:+ client_args e
        +:+ " --remoteOperation --rsyncDest " +:+ backup_path_before st
        +:+ " " +:+ get_backup_path (backup_path_before st) n
        +:+ " --mongodHost " +:+ mongod_host e
        +:+ " --mongodPort " +:+ str (SECRET_PORT (pc e))
        +:+ batch ] /\
    words batch
    = ["rsync_data"; "start_mongod"]
      ++ (if n =? 1
          then match fcv (tc e) with Some _ => ["set_fcv"] | None => [] end ++ ["seed_docs"]
          else []).
Proof.
  intros W h e st s w n o batch. split.
  - assert (Hcmd : start_batch_command e st
                   = remote_python e +:+ " " +:+ script_name e +:+ " " +:+ client_args e
                     +:+ " --remoteOperation --rsyncDest " +:+ backup_path_before st
                     +:+ " " +:+ get_backup_path (backup_path_before st) n
                     +:+ " --mongodHost " +:+ mongod_host e
                     +:+ " --mongodPort " +:+ str (SECRET_PORT (pc e))
                     +:+ batch).
    { unfold start_batch_command, dispatch_command. cbv zeta. fold n.
      rewrite start_operations_cases. fold batch. rewrite !append_assoc. reflexivity. }
    rewrite <- Hcmd. subst o.
    apply (wp_run h _ s w (fun tr' _ _ => shell_commands tr' = [start_batch_command e st])).
    apply wp_start_on_secret_port.
    + intros ret output _. reflexivity.
    + intros output tunnel. reflexivity.
  - subst batch. destruct (n =? 1); [destruct (fcv (tc e))|]; reflexivity.
Qed.

(** C9 at an example: loop 1 with a compatibility version. *)
Lemma start_batch_operations_witness :
  let e := test_env "internal" (Some "4.4") 2 in
  let st := initial_loop_state e connected in
  let o := run simulate (start_on_secret_port e st) initial_globals (new_sim rebooting_host) in
  shell_commands (trace o)
  = [ ". venv_powercycle/bin/activate; python -u /data/mci/buildscripts/resmoke.py powercycle run --sshUserHost ec2-user@10.0.0.7 --remoteOperation --rsyncDest /data/mci/beforerecovery-1 /data/mci/beforerecovery-1 --mongodHost 10.0.0.7 --mongodPort 20001 rsync_data start_mongod set_fcv seed_docs" ] /\
  words " rsync_data start_mongod set_fcv seed_docs"
  = ["rsync_data"; "start_mongod"; "set_fcv"; "seed_docs"].
Proof.
  exact (start_batch_operations sim simulate (test_env "internal" (Some "4.4") 2)
           (initial_loop_state (test_env "internal" (Some "4.4") 2) connected)
           initial_globals (new_sim rebooting_host)).
Defined.

(** ** A failed install on Windows *)

(** C2: the agent is given the operation [install_mongod], as [main] sends
    it, or the batch [install_mongod start_mongod], on a host where the
    install finds no [bin] directory and returns code 1.  On POSIX the
    agent returns 1 at once and [start_mongod] is not attempted.  On
    Windows the code of the install is replaced by the code 0 of
    [set_windows_bootstatuspolicy]: the agent returns 0 for the single
    operation, and in the batch it goes on to [start_mongod]. *)
Theorem remote_handler_loses_the_install_failure_on_Windows :
  let agent (IS_WINDOWS : bool) (operations : list string) :=
    run simulate
      (remote_handler (S:=unit) split_words IS_WINDOWS test_constants
         (test_agent_options operations) (test_task_config "internal" None 2) "/data/mci")
      tt (new_sim install_finds_no_bin_dir) in
  let failure := (1, "No bin dir can be found under /data/mci") in
  (mongod_install_answers (trace (agent false ["install_mongod"])) = [failure] /\
   bootstatuspolicy_answers (trace (agent false ["install_mongod"])) = [] /\
   res (agent false ["install_mongod"]) = Ok 1) /\
  (mongod_install_answers (trace (agent false ["install_mongod"; "start_mongod"])) = [failure] /\
   mongod_start_answers (trace (agent false ["install_mongod"; "start_mongod"])) = [] /\
   res (agent false ["install_mongod"; "start_mongod"]) = Ok 1) /\
  (mongod_install_answers (trace (agent true ["install_mongod"])) = [failure] /\
   bootstatuspolicy_answers (trace (agent true ["install_mongod"])) = [(0, "ok")] /\
   res (agent true ["install_mongod"]) = Ok 0) /\
  (mongod_install_answers (trace (agent true ["install_mongod"; "start_mongod"])) = [failure] /\
   bootstatuspolicy_answers (trace (agent true ["install_mongod"; "start_mongod"]))
   = [(0, "ok")] /\
   length (mongod_start_answers (trace (agent true ["install_mongod"; "start_mongod"])))
   = 1%nat).
Proof. vm_compute. repeat split. Qed.
